(** * Store status checker: classification pipeline, scheduler and report

    A shallow embedding of [checkStores.js] (the batching variant with the
    [ClientId]/[URL] schema) and of its sibling script (the admission-gate
    variant with the [Record ID]/[Website URL] schema).

    Asynchronous JavaScript is modelled by a state-and-exception monad over a
    [World]: the number of HTTP requests issued so far and the trace of
    observable events (requests, sleeps, console lines).  The network is an
    oracle [net] that decides the outcome of the n-th request.  The body of
    a response is what the HTTP client hands over: a string, or the value it
    parsed from a JSON body.  The HTML inspection library is an oracle
    [cheerio] that, for a body, either throws or yields a document in which
    the elements matching a selector can be counted.

    The schedulers are modelled by the trace of the classifications they
    start and see settle.  The order of settlement is decided by an oracle
    [choice] standing for the event loop, and every classification sees the
    network through an oracle of its own, so that the results hold for every
    interleaving.

    Objects are association lists in enumeration order: the properties
    whose keys are array indices come first, in ascending order, the others
    follow in the order of their creation.  Reading a property an object
    does not have yields what every object inherits under that name, if
    anything, and an assignment to [__proto__] creates no property.  The
    percentages and the clock readings printed with the metrics are outside
    the model. *)

From Stdlib Require Import ZArith List String Ascii Bool Arith Lia Permutation Sorted.
Import ListNotations.

Local Open Scope string_scope.
Local Open Scope Z_scope.

(** ** JavaScript strings and values *)

Module Js.

(** [s.startsWith(p)] *)
Definition startsWith (s p : string) : bool := String.prefix p s.

(** [s.includes(t)] *)
Fixpoint includes (s t : string) : bool :=
  String.prefix t s ||
  match s with
  | EmptyString => false
  | String _ s' => includes s' t
  end.

(** [s.endsWith(t)] *)
Definition endsWith (s t : string) : bool :=
  (String.length t <=? String.length s)%nat &&
  String.eqb (String.substring (String.length s - String.length t) (String.length t) s) t.

(** The values a property can hold in the two scripts; an object or a
    function is known by the string it converts to. *)
Inductive value : Type :=
| VUndef
| VBool (b : bool)
| VStr (s : string)
| VObject (shown : string).

(** A string is truthy when it is not empty. *)
Definition truthy_str (s : string) : bool := negb (String.eqb s "").

Definition truthy (v : value) : bool :=
  match v with
  | VUndef => false
  | VBool b => b
  | VStr s => truthy_str s
  | VObject _ => true
  end.

(** [a || b] *)
Definition or (a b : value) : value := if truthy a then a else b.

(** Conversion performed by a template literal. *)
Definition to_string (v : value) : string :=
  match v with
  | VUndef => "undefined"
  | VBool true => "true"
  | VBool false => "false"
  | VStr s => s
  | VObject shown => shown
  end.

Definition of_opt (o : option string) : value :=
  match o with
  | Some s => VStr s
  | None => VUndef
  end.

(** [xs.join(sep)] on an array of strings *)
Fixpoint join (sep : string) (xs : list string) : string :=
  match xs with
  | [] => ""
  | [x] => x
  | x :: rest => x ++ sep ++ join sep rest
  end.

End Js.

(** ** Transport: one HTTP GET, and the retry wrapper *)

(** [validateStatus: status => status < n] *)
Inductive StatusPred : Type :=
| Below (n : Z).

Record Options : Type := mkOptions {
  timeout : Z;
  maxRedirects : option Z;
  validateStatus : option StatusPred
}.

(** [response.request.res] *)
Record IncomingMessage : Type := mkIncoming {
  responseUrl : option string
}.

(** [response.data]: the HTTP client hands the body over as a string, or,
    when the body is the JSON text of a value that is not a string ([null],
    a number, an object, ...), as that value, which is given here by its
    JSON text. *)
Inductive Body : Type :=
| Markup (text : string)
| Parsed (json : string).

(** What the server sent back. [request_res = None] stands for a response
    object without [request.res]. *)
Record Reply : Type := mkReply {
  status : Z;
  headers : list (string * string);
  data : Body;
  request_res : option IncomingMessage
}.

(** The response object handed to the caller: the reply together with the
    request configuration. *)
Record Response : Type := mkResponse {
  reply :> Reply;
  config_url : string
}.

(** Outcome of a single request, as decided by the network. *)
Inductive Outcome : Type :=
| Resolved (r : Reply)
| Rejected (message : string) (r : option Reply).

(** Exceptions: the errors of the HTTP client, which may carry a response,
    type errors, and the errors the HTML inspection library throws. *)
Inductive Error : Type :=
| AxiosError (message : string) (response : option Response)
| TypeError (message : string)
| CheerioError (message : string).

Definition error_response (e : Error) : option Response :=
  match e with
  | AxiosError _ r => r
  | TypeError _ => None
  | CheerioError _ => None
  end.

Definition error_message (e : Error) : string :=
  match e with
  | AxiosError m _ => m
  | TypeError m => m
  | CheerioError m => m
  end.

(** Structural descriptors handed to the HTML inspection library. *)
Inductive Selector : Type :=
| MetaNamed (name : string)
| ScriptSrcContains (fragment : string)
| InputOfType (type : string).

(** What [cheerio.load(body)] gives: a document, known by the number of
    elements [$(selector).length] each selector matches in it, or an
    exception with its message. *)
Inductive Loaded : Type :=
| Document (query : Selector -> nat)
| Unloadable (message : string).

(** Console lines. *)
Inductive LogLine : Type :=
| WarnRetrying (url : string) (attempt retries : Z)
| ErrorNotFound (url : string)
| ErrorShopifyCheck (url message : string)
| ErrorCheckURL (url message : string)
| LogCheckingPassword (url : string)
| LogPasswordStatus (url : string) (status : Z)
| ErrorResponseUrlUndefined (url : string)
| LogWorks
| LogPasswordErrorStatus (url : string) (status : Z)
| ErrorPasswordCheck (url message : string).

Inductive Event : Type :=
| Get (url : string) (options : Options)
| Sleep (ms : Z)
| Console (line : LogLine).

Record World : Type := mkWorld {
  calls : nat;
  trace : list Event
}.

Definition world0 : World := mkWorld 0 [].

Inductive Result (A : Type) : Type :=
| Ok (a : A)
| Throw (e : Error).
Arguments Ok {A} a.
Arguments Throw {A} e.

(** An asynchronous computation: it runs in a world and either returns or
    throws, leaving a new world. *)
Definition M (A : Type) : Type := World -> Result A * World.

Definition ret {A} (a : A) : M A := fun w => (Ok a, w).

Definition throw {A} (e : Error) : M A := fun w => (Throw e, w).

Definition bind {A B} (m : M A) (k : A -> M B) : M B :=
  fun w =>
    match m w with
    | (Ok a, w') => k a w'
    | (Throw e, w') => (Throw e, w')
    end.

(** [try { m } catch (error) { handler error }] *)
Definition try_catch {A} (m : M A) (handler : Error -> M A) : M A :=
  fun w =>
    match m w with
    | (Ok a, w') => (Ok a, w')
    | (Throw e, w') => handler e w'
    end.

Definition emit (e : Event) : M unit :=
  fun w => (Ok tt, mkWorld (calls w) (trace w ++ [e])).

Definition console (l : LogLine) : M unit := emit (Console l).

Definition sleep (ms : Z) : M unit := emit (Sleep ms).

Declare Scope js_scope.
Delimit Scope js_scope with js.
Notation "x <- m ;; k" := (bind m (fun x => k))
  (at level 100, m at next level, right associativity) : js_scope.
Notation "m ;;; k" := (bind m (fun _ => k))
  (at level 100, right associativity) : js_scope.
Local Open Scope js_scope.

(** Number of HTTP requests in a trace. *)
Fixpoint requests (t : list Event) : nat :=
  match t with
  | [] => 0%nat
  | Get _ _ :: t' => S (requests t')
  | _ :: t' => requests t'
  end.

(** Value of a response header. *)
Fixpoint header (hs : list (string * string)) (name : string) : option string :=
  match hs with
  | [] => None
  | (k, v) :: hs' => if String.eqb k name then Some v else header hs' name
  end.

(** [h && h.includes('Shopify')] for [h = response.headers['powered-by']] *)
Definition poweredByShopify (r : Response) : bool :=
  match header (headers r) "powered-by" with
  | Some h => Js.truthy_str h && Js.includes h "Shopify"
  | None => false
  end.

Definition default_retries : Z := 2.
Definition default_backoff : Z := 3000.

Definition plainOptions : Options := mkOptions 15000 None None.
Definition passwordOptions : Options := mkOptions 15000 (Some 5) (Some (Below 400)).

(** Result of the platform-detection stage. *)
Record ShopifyCheck : Type := mkShopifyCheck {
  sc_isShopify : bool;
  sc_isPasswordProtected : bool
}.

Record ProbeResult : Type := mkProbe {
  isShopify : bool;
  isActive : bool;
  isPasswordProtected : bool
}.

Section Pipeline.

(** The network: outcome of the n-th request of the run. *)
Variable net : nat -> string -> Options -> Outcome.

(** The HTML inspection library. *)
Variable cheerio : Body -> Loaded.

(** [axios.get(url, options)] *)
Definition axios_get (url : string) (options : Options) : M Response :=
  fun w =>
    let w' := mkWorld (S (calls w)) (trace w ++ [Get url options]) in
    match net (calls w) url options with
    | Resolved r => (Ok (mkResponse r url), w')
    | Rejected m r =>
        (Throw (AxiosError m (option_map (fun r => mkResponse r url) r)), w')
    end.

(** The loop of [axiosRetry], from iteration [i]. [fuel] bounds the number
    of iterations left; falling off the end of the loop yields
    [undefined]. *)
Fixpoint axiosRetry_loop (fuel : nat) (url : string) (options : Options)
    (retries backoff i : Z) : M (option Response) :=
  match fuel with
  | O => ret None
  | S fuel' =>
      if i <? retries then
        try_catch
          (r <- axios_get url options ;; ret (Some r))
          (fun error =>
             if i <? retries - 1 then
               console (WarnRetrying url (i + 1) retries) ;;;
               sleep (backoff * (i + 1)) ;;;
               axiosRetry_loop fuel' url options retries backoff (i + 1)
             else throw error)
      else ret None
  end.

Definition axiosRetry (url : string) (options : Options) (retries backoff : Z)
    : M (option Response) :=
  axiosRetry_loop (Z.to_nat retries) url options retries backoff 0.

(** Reading a property of the awaited response. *)
Definition the_response (o : option Response) : M Response :=
  match o with
  | Some r => ret r
  | None => throw (TypeError "Cannot read properties of undefined")
  end.

(** [cheerio.load(body)] *)
Definition cheerio_load (body : Body) : M (Selector -> nat) :=
  match cheerio body with
  | Document query => ret query
  | Unloadable message => throw (CheerioError message)
  end.

Definition hasMarker (url : string) : bool :=
  Js.includes url ".myshopify.com" || Js.includes url "shopify.com".

Definition isShopifyStore (url : string) : M ShopifyCheck :=
  try_catch
    (o <- axiosRetry url plainOptions default_retries default_backoff ;;
     response <- the_response o ;;
     let html := data response in
     if hasMarker url then ret (mkShopifyCheck true false)
     else if poweredByShopify response then ret (mkShopifyCheck true false)
     else
       query <- cheerio_load html ;;
       let isShopifyMeta := (0 <? query (MetaNamed "shopify-checkout-api-token"))%nat in
       let hasShopifyScripts := (0 <? query (ScriptSrcContains "shopify"))%nat in
       ret (mkShopifyCheck (isShopifyMeta || hasShopifyScripts) false))
    (fun error =>
       match error_response error with
       | Some r =>
           if poweredByShopify r then ret (mkShopifyCheck true false)
           else if status r =? 404 then
             console (ErrorNotFound url) ;;;
             ret (mkShopifyCheck false false)
           else
             console (ErrorShopifyCheck url (error_message error)) ;;;
             ret (mkShopifyCheck false false)
       | None =>
           console (ErrorShopifyCheck url (error_message error)) ;;;
           ret (mkShopifyCheck false false)
       end).

Definition checkURL (url : string) : M bool :=
  try_catch
    (o <- axiosRetry url plainOptions default_retries default_backoff ;;
     response <- the_response o ;;
     ret (status response =? 200))
    (fun error =>
       match error_response error with
       | Some r =>
           if poweredByShopify r then ret false
           else if status r =? 404 then
             console (ErrorNotFound url) ;;;
             ret false
           else
             console (ErrorCheckURL url (error_message error)) ;;;
             ret false
       | None =>
           console (ErrorCheckURL url (error_message error)) ;;;
           ret false
       end).

(** [response.request.res.responseUrl || response.config.url] *)
Definition finalUrl (res : IncomingMessage) (response : Response) : Js.value :=
  Js.or (Js.of_opt (responseUrl res)) (Js.VStr (config_url response)).

Definition checkPasswordProtection (url : string) : M bool :=
  try_catch
    (console (LogCheckingPassword url) ;;;
     response <- axios_get url passwordOptions ;;
     console (LogPasswordStatus url (status response)) ;;;
     match request_res response with
     | None => throw (TypeError "Cannot read properties of undefined")
     | Some res =>
         let responseUrl := finalUrl res response in
         if negb (Js.truthy responseUrl) then
           console (ErrorResponseUrlUndefined url) ;;;
           ret false
         else if Js.endsWith (Js.to_string responseUrl) "/password" then
           console LogWorks ;;;
           query <- cheerio_load (data response) ;;
           let hasPasswordInput := (0 <? query (InputOfType "password"))%nat in
           ret hasPasswordInput
         else ret false
     end)
    (fun error =>
       match error_response error with
       | Some r =>
           console (LogPasswordErrorStatus url (status r)) ;;;
           if (status r =? 301) || (status r =? 302) then ret false
           else if status r =? 404 then ret false
           else
             console (ErrorPasswordCheck url (error_message error)) ;;;
             ret false
       | None =>
           console (ErrorPasswordCheck url (error_message error)) ;;;
           ret false
       end).

(** The protocol prefix added to a bare host. *)
Definition withProtocol (url : string) : string :=
  if negb (Js.startsWith url "http://") && negb (Js.startsWith url "https://")
  then "http://" ++ url
  else url.

Definition processURL (url : string) : M ProbeResult :=
  let url := withProtocol url in
  s <- isShopifyStore url ;;
  let isShopify := sc_isShopify s in
  if isShopify then
    isActive <- checkURL url ;;
    if isActive then
      isPasswordProtected <- checkPasswordProtection url ;;
      ret (mkProbe isShopify isActive isPasswordProtected)
    else ret (mkProbe isShopify isActive false)
  else ret (mkProbe isShopify false false).

End Pipeline.

(** ** Concrete networks and documents used in the scenarios *)

Module Scenario.

(** No server answers: every request fails without a response. *)
Definition net_down : nat -> string -> Options -> Outcome :=
  fun _ _ _ => Rejected "ECONNREFUSED" None.

(** Every request is answered by an error page of a Shopify server. *)
Definition shopify_503 : Reply :=
  mkReply 503 [("powered-by", "Shopify")] (Markup "") (Some (mkIncoming None)).

Definition net_shopify_down : nat -> string -> Options -> Outcome :=
  fun _ _ _ => Rejected "Request failed with status code 503" (Some shopify_503).

(** The first two requests fail, every later one succeeds. *)
Definition page_ok : Reply :=
  mkReply 200 [] (Markup "<html></html>") (Some (mkIncoming None)).

Definition net_third_time_lucky : nat -> string -> Options -> Outcome :=
  fun n _ _ =>
    if (n <? 2)%nat then Rejected "timeout of 15000ms exceeded" None
    else Resolved page_ok.

(** Every request is answered with a password page and no recorded
    redirect target. *)
Definition gate_page : Reply :=
  mkReply 200 [] (Markup "<input type=password>") (Some (mkIncoming None)).

Definition net_gate : nat -> string -> Options -> Outcome :=
  fun _ _ _ => Resolved gate_page.

(** Every request is answered with a password page served at the
    requested URL itself: no redirect takes place. *)
Definition net_unredirected : nat -> string -> Options -> Outcome :=
  fun _ url _ =>
    Resolved (mkReply 200 [] (Markup "<input type=password>") (Some (mkIncoming (Some url)))).

(** Every request is answered with status 404. *)
Definition not_found : Reply := mkReply 404 [] (Markup "") (Some (mkIncoming None)).

Definition net_404 : nat -> string -> Options -> Outcome :=
  fun _ _ _ => Rejected "Request failed with status code 404" (Some not_found).

(** Every request ends, after a redirect, on the password page of the
    store. *)
Definition net_redirected : nat -> string -> Options -> Outcome :=
  fun _ _ _ =>
    Resolved (mkReply 200 [] (Markup "<input type=password>")
                (Some (mkIncoming (Some "http://foo.myshopify.com/password")))).

(** Every request is answered with a plain page. *)
Definition net_plain : nat -> string -> Options -> Outcome :=
  fun _ _ _ => Resolved page_ok.

(** A server that answers every request with the JSON text [null]. *)
Definition null_page : Reply :=
  mkReply 200 [] (Parsed "null") (Some (mkIncoming None)).

Definition net_null : nat -> string -> Options -> Outcome :=
  fun _ _ _ => Resolved null_page.

(** A document inspector that only recognises the password input, and
    refuses a body that is not a string. *)
Definition cheerio_password : Body -> Loaded :=
  fun body =>
    match body with
    | Markup html =>
        Document (fun s =>
          match s with
          | InputOfType _ =>
              if Js.includes html "<input type=password>" then 1%nat else 0%nat
          | _ => 0%nat
          end)
    | Parsed _ => Unloadable "cheerio.load() expects a string"
    end.

End Scenario.

(** ** Objects, rows and promises *)

Module Obj.

(** An object: its properties in enumeration order. *)
Definition t : Type := list (string * Js.value).

(** [Object.keys(o)] *)
Definition keys (o : t) : list string := map fst o.

(** What is read under a name from an object that has no property of that
    name: [undefined], unless every object inherits a property of that name
    from [Object.prototype]. *)
Definition inherited (k : string) : Js.value :=
  if String.eqb k "__proto__" then Js.VObject "[object Object]"
  else if String.eqb k "constructor" then Js.VObject "function Object() { [native code] }"
  else if existsb (String.eqb k)
            ["hasOwnProperty"; "isPrototypeOf"; "propertyIsEnumerable"; "toLocaleString";
             "toString"; "valueOf"; "__defineGetter__"; "__defineSetter__";
             "__lookupGetter__"; "__lookupSetter__"]
       then Js.VObject ("function " ++ k ++ "() { [native code] }")
       else Js.VUndef.

(** [o[k]] *)
Fixpoint get (o : t) (k : string) : Js.value :=
  match o with
  | [] => inherited k
  | (k', v) :: o' => if String.eqb k' k then v else get o' k
  end.

Definition digit (c : ascii) : option N :=
  let n := N_of_ascii c in
  if (48 <=? n)%N && (n <=? 57)%N then Some (n - 48)%N else None.

(** The number a string of digits denotes, after the digits [acc]. *)
Fixpoint numeral (s : string) (acc : N) : option N :=
  match s with
  | EmptyString => Some acc
  | String c s' =>
      match digit c with
      | Some d => numeral s' (10 * acc + d)%N
      | None => None
      end
  end.

(** A key that is an array index: the decimal numeral, without sign or
    leading zero, of a number below 2^32 - 1. *)
Definition array_index (k : string) : option N :=
  match k with
  | EmptyString => None
  | String c rest =>
      match digit c with
      | None => None
      | Some d =>
          if (d =? 0)%N then
            if String.eqb rest "" then Some 0%N else None
          else
            match numeral rest d with
            | Some n => if (n <? 4294967295)%N then Some n else None
            | None => None
            end
      end
  end.

(** Whether a new property [k] is enumerated before the property [k']:
    array indices come first, in ascending order. *)
Definition precedes (k k' : string) : bool :=
  match array_index k, array_index k' with
  | Some i, Some i' => (i <? i')%N
  | Some _, None => true
  | None, _ => false
  end.

(** [o.hasOwnProperty(k)] *)
Definition has (o : t) (k : string) : bool := existsb (String.eqb k) (keys o).

(** [o[k] = v] on a property [o] has: it keeps its place. *)
Fixpoint update (o : t) (k : string) (v : Js.value) : t :=
  match o with
  | [] => []
  | (k', v') :: o' =>
      if String.eqb k' k then (k', v) :: o' else (k', v') :: update o' k v
  end.

(** [o[k] = v] on a property [o] lacks: an array index takes its place
    among the array indices, any other key comes last. *)
Fixpoint insert (o : t) (k : string) (v : Js.value) : t :=
  match o with
  | [] => [(k, v)]
  | (k', v') :: o' =>
      if precedes k k' then (k, v) :: (k', v') :: o' else (k', v') :: insert o' k v
  end.

(** The property [k] of [o] is given the value [v], as an object literal
    and a spread do. *)
Definition set (o : t) (k : string) (v : Js.value) : t :=
  if has o k then update o k v else insert o k v.

(** [o[k] = v] for a string [v]: an assignment to [__proto__] goes to the
    inherited setter, which ignores a string. *)
Definition assign (o : t) (k : string) (v : string) : t :=
  if String.eqb k "__proto__" then o else set o k (Js.VStr v).

(** [{...o, ...src}] *)
Definition spread (o src : t) : t :=
  fold_left (fun acc kv => set acc (fst kv) (snd kv)) src o.

(** [Object.values(o)] *)
Definition values (o : t) : list Js.value := map snd o.

End Obj.

(** A line of the input as the CSV reader sees it: the column names paired
    with the cells, all strings. *)
Definition Row : Type := list (string * string).

(** The object the CSV reader yields for a line: each cell is assigned to
    the property named by its column. *)
Definition obj_of_row (data : Row) : Obj.t :=
  fold_left (fun o kv => Obj.assign o (fst kv) (snd kv)) data [].

(** [data[k]] on a row *)
Definition field (data : Row) (k : string) : Js.value := Obj.get (obj_of_row data) k.

Definition obj_of_result (r : ProbeResult) : Obj.t :=
  [("isShopify", Js.VBool (isShopify r));
   ("isActive", Js.VBool (isActive r));
   ("isPasswordProtected", Js.VBool (isPasswordProtected r))].

(** [xs.join(sep)] on an array of values: [undefined] prints as nothing. *)
Definition join_values (sep : string) (xs : list Js.value) : string :=
  Js.join sep (map (fun v => match v with Js.VUndef => "" | _ => Js.to_string v end) xs).

Definition newline : string := String (ascii_of_nat 10) "".

(** [Promise.all]: the results in the order of the promises, or a failure. *)
Fixpoint all {A} (ps : list (Result A)) : Result (list A) :=
  match ps with
  | [] => Ok []
  | Ok a :: ps' =>
      match all ps' with
      | Ok l => Ok (a :: l)
      | Throw e => Throw e
      end
  | Throw e :: _ => Throw e
  end.

(** The rows with their position in the input. *)
Fixpoint indexed {A} (i : nat) (l : list A) : list (nat * A) :=
  match l with
  | [] => []
  | x :: l' => (i, x) :: indexed (S i) l'
  end.

Fixpoint remove_nth {A} (j : nat) (l : list A) : list A :=
  match l, j with
  | [], _ => []
  | _ :: l', O => l'
  | x :: l', S j' => x :: remove_nth j' l'
  end.

(** ** Scheduling events *)

(** A classification is in flight from the call of [processURL] to the
    settlement of its promise. *)
Inductive SchedEvent : Type :=
| Start (i : nat)
| Finish (i : nat).

Definition started (t : list SchedEvent) : list nat :=
  flat_map (fun e => match e with Start i => [i] | Finish _ => [] end) t.

Definition finished (t : list SchedEvent) : list nat :=
  flat_map (fun e => match e with Finish i => [i] | Start _ => [] end) t.

(** The classifications in flight after one more event. *)
Definition after (running : list nat) (e : SchedEvent) : list nat :=
  match e with
  | Start i => running ++ [i]
  | Finish i => remove Nat.eq_dec i running
  end.

(** The classifications in flight at the end of a trace. *)
Definition inflight (t : list SchedEvent) : list nat := fold_left after t [].

(** The largest number of classifications in flight at any point of a
    trace that begins with [running] in flight. *)
Fixpoint peak_from (running : list nat) (t : list SchedEvent) : nat :=
  match t with
  | [] => List.length running
  | e :: t' => Nat.max (List.length running) (peak_from (after running e) t')
  end.

Definition peak (t : list SchedEvent) : nat := peak_from [] t.

(** ** Aggregator: the metrics of a run *)

Record Metrics : Type := mkMetrics {
  totalStores : Z;
  shopifyStores : Z;
  activeStores : Z;
  passwordProtectedStores : Z;
  inactiveStores : Z
}.

(** [data.filter(row => row[flag]).length] *)
Definition countWhere (flag : string) (data : list Obj.t) : Z :=
  Z.of_nat (List.length (filter (fun row => Js.truthy (Obj.get row flag)) data)).

(** The counts computed by [writeCSV]; the percentages and the clock
    readings printed next to them are not modelled. *)
Definition computeMetrics (data : list Obj.t) : Metrics :=
  let totalStores := Z.of_nat (List.length data) in
  let shopifyStores := countWhere "isShopify" data in
  let activeStores := countWhere "isActive" data in
  let passwordProtectedStores := countWhere "isPasswordProtected" data in
  let inactiveStores := totalStores - activeStores in
  mkMetrics totalStores shopifyStores activeStores passwordProtectedStores inactiveStores.

(** The pieces of the report, joined by blank lines when written. *)
Inductive Block : Type :=
| Text (s : string)
| MetricsBlock (m : Metrics).

Definition Report : Type := list Block.

Section Classify.

Variable net : nat -> string -> Options -> Outcome.
Variable cheerio : Body -> Loaded.

(** [processURL] on whatever the row holds in its URL field: a value that
    is not a string has no [startsWith]. *)
Definition processURL_any (url : Js.value) : M ProbeResult :=
  match url with
  | Js.VStr s => processURL net cheerio s
  | Js.VUndef => throw (TypeError "Cannot read properties of undefined")
  | Js.VBool _ => throw (TypeError "url.startsWith is not a function")
  | Js.VObject _ => throw (TypeError "url.startsWith is not a function")
  end.

End Classify.

(** ** Scheduler and report, batching variant ([checkStores.js]) *)

Module Batch.

Definition concurrencyLimit : nat := 10.

(** An entry of [batch]; [index] is the position of the row in the input
    and names its classification in the trace. *)
Record Task : Type := mkTask {
  index : nat;
  url : Js.value;
  clientId : Js.value
}.

Definition headers : list string :=
  ["ClientId"; "URL"; "isShopify"; "isActive"; "isPasswordProtected"].

(** The line printed for a record. *)
Definition line (row : Obj.t) : string :=
  let clientId := Js.or (Obj.get row "ClientId") (Obj.get row "clientId") in
  let url := Js.or (Obj.get row "URL") (Obj.get row "url") in
  Js.to_string clientId ++ "," ++ Js.to_string url ++ "," ++
  Js.to_string (Obj.get row "isShopify") ++ "," ++
  Js.to_string (Obj.get row "isActive") ++ "," ++
  Js.to_string (Obj.get row "isPasswordProtected").

Definition writeCSV (data : list Obj.t) : Report :=
  let rows := Js.join newline (map line data) in
  let csvContent := Js.join newline [Js.join "," headers; rows] in
  let metrics := computeMetrics data in
  [Text csvContent; MetricsBlock metrics].

Section Run.

(** The network as the classification of the i-th row sees it. *)
Variable nets : nat -> nat -> string -> Options -> Outcome.
Variable cheerio : Body -> Loaded.

(** The event loop: which of the pending settlements comes next. *)
Variable choice : nat -> nat.

(** [processURL(url).then(result => ({clientId, url, ...result}))] *)
Definition classify (t : Task) : Result Obj.t :=
  match fst (processURL_any (nets (index t)) cheerio (url t) world0) with
  | Ok result =>
      Ok (Obj.spread [("clientId", clientId t); ("url", url t)] (obj_of_result result))
  | Throw e => Throw e
  end.

(** The classifications in [running] settle one after the other, in the
    order the event loop decides. *)
Fixpoint settle_all (fuel : nat) (running : list nat) (tr : list SchedEvent)
    : list SchedEvent :=
  match fuel with
  | O => tr
  | S fuel' =>
      match running with
      | [] => tr
      | _ :: _ =>
          let j := (choice (List.length tr) mod List.length running)%nat in
          settle_all fuel' (remove_nth j running) (tr ++ [Finish (nth j running 0%nat)])
      end
  end.

(** [await Promise.all(batch.map(...))]: every classification of the
    batch is started, then all of them are awaited. *)
Definition runBatch (batch : list Task) (tr : list SchedEvent)
    : Result (list Obj.t) * list SchedEvent :=
  let ids := map index batch in
  let tr := settle_all (List.length ids) ids (tr ++ map Start ids) in
  (all (map classify batch), tr).

(** The reading loop, from row number [i]. *)
Fixpoint loop (rows : list Row) (i : nat) (batch : list Task)
    (results : list Obj.t) (tr : list SchedEvent)
    : Result (list Obj.t) * list SchedEvent :=
  match rows with
  | [] =>
      if (0 <? List.length batch)%nat then
        match runBatch batch tr with
        | (Ok batchResults, tr') => (Ok (results ++ batchResults)%list, tr')
        | (Throw e, tr') => (Throw e, tr')
        end
      else (Ok results, tr)
  | data :: rows' =>
      let batch := (batch ++ [mkTask i (field data "URL") (field data "ClientId")])%list in
      if (concurrencyLimit <=? List.length batch)%nat then
        match runBatch batch tr with
        | (Ok batchResults, tr') => loop rows' (S i) [] (results ++ batchResults)%list tr'
        | (Throw e, tr') => (Throw e, tr')
        end
      else loop rows' (S i) batch results tr
  end.

(** The records handed to [writeCSV], and the scheduling trace. *)
Definition collect (rows : list Row) : Result (list Obj.t) * list SchedEvent :=
  loop rows 0%nat [] [] [].

Definition processCSV (rows : list Row) : Result Report * list SchedEvent :=
  match collect rows with
  | (Ok results, tr) => (Ok (writeCSV results), tr)
  | (Throw e, tr) => (Throw e, tr)
  end.

End Run.

End Batch.

(** ** Scheduler and report, admission-gate variant *)

Module Gate.

Definition concurrencyLimit : nat := 20.

(** [expectedColumns]: the names with their default cell. *)
Definition expectedColumns : list (string * string) :=
  [("Create Date", ""); ("Number of Associated Contacts", ""); ("City", "");
   ("Country/Region", ""); ("Last Activity Date", ""); ("Company owner", "")].

(** Equality of the members of a [Set]. *)
Definition same_value (a b : Js.value) : bool :=
  match a, b with
  | Js.VUndef, Js.VUndef => true
  | Js.VBool x, Js.VBool y => Bool.eqb x y
  | Js.VStr x, Js.VStr y => String.eqb x y
  | Js.VObject x, Js.VObject y => String.eqb x y
  | _, _ => false
  end.

(** [set.add(...args)]: [add] takes one argument, the first one;
    without arguments it is [undefined]. *)
Definition add (set : list Js.value) (args : list Js.value) : list Js.value :=
  let v := hd Js.VUndef args in
  if existsb (same_value v) set then set else (set ++ [v])%list.

(** The keys of a row other than the URL and the identifier. *)
Definition otherKeys (data : Row) : list string :=
  filter (fun key => negb (String.eqb key "Website URL") && negb (String.eqb key "Record ID"))
    (Obj.keys (obj_of_row data)).

(** [extraColumns] once every row has been read. *)
Definition collectExtraColumns (rows : list Row) : list Js.value :=
  fold_left (fun set data => add set (map Js.VStr (otherKeys data))) rows [].

Definition headers (extraColumns : list Js.value) : list Js.value :=
  (map Js.VStr ["Record ID"; "Website URL"; "isShopify"; "isActive"; "isPasswordProtected"]
   ++ map Js.VStr (map fst expectedColumns) ++ extraColumns)%list.

(** The line printed for a record. *)
Definition line (extraColumns : list Js.value) (row : Obj.t) : string :=
  let recordId := Js.or (Obj.get row "Record ID") (Obj.get row "recordId") in
  let url := Js.or (Obj.get row "Website URL") (Obj.get row "url") in
  let extraData :=
    join_values ","
      (map (fun col => Js.or (Obj.get row (Js.to_string col)) (Js.VStr "")) extraColumns) in
  let expectedData :=
    join_values ","
      (map (fun col => Js.or (Obj.get row (fst col)) (Js.VStr (snd col))) expectedColumns) in
  Js.to_string recordId ++ "," ++ Js.to_string url ++ "," ++
  Js.to_string (Obj.get row "isShopify") ++ "," ++
  Js.to_string (Obj.get row "isActive") ++ "," ++
  Js.to_string (Obj.get row "isPasswordProtected") ++ "," ++
  expectedData ++ "," ++ extraData.

(** A row of the input without a URL or without an identifier. *)
Definition incomplete (data : Row) : bool :=
  negb (Js.truthy (field data "Website URL")) || negb (Js.truthy (field data "Record ID")).

(** The rows appended to the report as they are. *)
Definition extraRowsOf (input : list Row) : list string :=
  map (fun data => join_values "," (Obj.values (obj_of_row data))) (filter incomplete input).

(** [writeCSV(data, startTime, extraColumns)]; [input] is the input file,
    which it reads again. *)
Definition writeCSV (data : list Obj.t) (extraColumns : list Js.value)
    (input : list Row) : Report :=
  let rows := Js.join newline (map (line extraColumns) data) in
  let csvContent := Js.join newline [join_values "," (headers extraColumns); rows] in
  let extraRows := extraRowsOf input in
  let metrics := computeMetrics data in
  ([Text csvContent] ++ map Text extraRows ++ [MetricsBlock metrics])%list.

(** Modelled from the spec: the admission gate [limit = pLimit(concurrencyLimit)]
    of the imported package, whose source is not part of the scripts.  It is
    a counting gate of capacity [concurrencyLimit]: a call is started at
    once while fewer than [concurrencyLimit] calls are running, otherwise it
    waits, and each settlement frees a slot for the call that has waited
    longest.  A state of the event loop holds the rows not yet read, the
    calls waiting at the gate, the calls running, and the trace. *)
Record Sched : Type := mkSched {
  unread : list nat;
  waiting : list nat;
  running : list nat;
  log : list SchedEvent;
  clock : nat
}.

Definition start (i : nat) (s : Sched) : Sched :=
  mkSched (unread s) (waiting s) (running s ++ [i]) (log s ++ [Start i]) (clock s).

(** [limit(() => processURL(url)...)] for row [i] *)
Definition limit (i : nat) (s : Sched) : Sched :=
  if (List.length (running s) <? concurrencyLimit)%nat then start i s
  else mkSched (unread s) (waiting s ++ [i]) (running s) (log s) (clock s).

(** The j-th running classification settles. *)
Definition settle (j : nat) (s : Sched) : Sched :=
  let i := nth j (running s) 0%nat in
  let s1 := mkSched (unread s) (waiting s) (remove_nth j (running s))
              (log s ++ [Finish i]) (clock s) in
  match waiting s1 with
  | [] => s1
  | n :: q => start n (mkSched (unread s1) q (running s1) (log s1) (clock s1))
  end.

(** The next row is read and its classification handed to the gate. *)
Definition read (s : Sched) : Sched :=
  match unread s with
  | [] => s
  | i :: rest => limit i (mkSched rest (waiting s) (running s) (log s) (clock s))
  end.

Definition tick (s : Sched) : Sched :=
  mkSched (unread s) (waiting s) (running s) (log s) (S (clock s)).

Section Run.

Variable nets : nat -> nat -> string -> Options -> Outcome.
Variable cheerio : Body -> Loaded.
Variable choice : nat -> nat.

(** One turn of the event loop: the next row is read, or one of the
    running classifications settles. *)
Definition step (s : Sched) : Sched :=
  let c := choice (clock s) in
  match unread s with
  | _ :: _ =>
      let j := (c mod S (List.length (running s)))%nat in
      match j with
      | O => tick (read s)
      | S j' => tick (settle j' s)
      end
  | [] =>
      match running s with
      | [] => s
      | _ :: _ => tick (settle (c mod List.length (running s))%nat s)
      end
  end.

Fixpoint run (fuel : nat) (s : Sched) : Sched :=
  match fuel with
  | O => s
  | S fuel' => run fuel' (step s)
  end.

(** The run from the first row to the end; every row is read in one turn
    and settles in another, so twice as many turns as rows are enough. *)
Definition schedule (rows : list Row) : Sched :=
  run (2 * List.length rows) (mkSched (seq 0 (List.length rows)) [] [] [] 0%nat).

(** [processURL(url).then(result => ({recordId, url, ...result, ...data}))] *)
Definition classify (task : nat * Row) : Result Obj.t :=
  let data := snd task in
  let url := field data "Website URL" in
  let recordId := field data "Record ID" in
  match fst (processURL_any (nets (fst task)) cheerio url world0) with
  | Ok result =>
      Ok (Obj.spread
            (Obj.spread [("recordId", recordId); ("url", url)] (obj_of_result result))
            (obj_of_row data))
  | Throw e => Throw e
  end.

(** [await Promise.all(results)], which yields the records in the order of
    the rows whatever the order of settlement, and the trace of the run. *)
Definition collect (rows : list Row) : Result (list Obj.t) * list SchedEvent :=
  (all (map classify (indexed 0 rows)), log (schedule rows)).

Definition processCSV (rows : list Row) : Result Report * list SchedEvent :=
  match collect rows with
  | (Ok finalResults, tr) =>
      (Ok (writeCSV finalResults (collectExtraColumns rows) rows), tr)
  | (Throw e, tr) => (Throw e, tr)
  end.

End Run.

End Gate.

(** ** Concrete inputs used in the scenarios *)

Module Input.

(** Every classification sees a network on which no server answers. *)
Definition nets_down : nat -> nat -> string -> Options -> Outcome :=
  fun _ => Scenario.net_down.

(** Every classification sees a network that serves a plain page. *)
Definition nets_plain : nat -> nat -> string -> Options -> Outcome :=
  fun _ => Scenario.net_plain.

(** An event loop that reads the input as long as there is any, and then
    settles the oldest running classification. *)
Definition read_first : nat -> nat := fun _ => 0%nat.

(** An event loop that mixes reading and settling. *)
Definition mixed : nat -> nat := fun k => (7 * k + 3)%nat.

Definition client : Row := [("ClientId", "c1"); ("URL", "shop.example")].

(** Twelve rows for the batching variant: one full batch and a rest. *)
Definition clients : list Row := repeat client 12.

Definition company : Row :=
  [("Record ID", "7"); ("Website URL", "shop.example"); ("Notes", "vip"); ("Phone", "555")].

(** A row whose identifier cell is empty. *)
Definition anonymous : Row :=
  [("Record ID", ""); ("Website URL", "other.example"); ("Notes", "n/a"); ("Phone", "556")].

(** Twenty-three rows for the gate variant: three more than the gate
    admits at once. *)
Definition companies : list Row := repeat company 23.

(** A row with a column named like one of the flags. *)
Definition flagged : Row :=
  [("Record ID", "7"); ("Website URL", "shop.example"); ("isActive", "yes")].

(** A row with a column named like a property every object inherits, and a
    row without that column. *)
Definition stringy : Row :=
  [("Record ID", "3"); ("Website URL", "c.example"); ("toString", "yes")].

Definition noted : Row :=
  [("Record ID", "4"); ("Website URL", "d.example"); ("Notes", "n/a")].

(** Rows cut short before the URL column. *)
Definition short_client : Row := [("ClientId", "c13")].

Definition short_company : Row := [("Record ID", "8")].

(** A row with a column named like the URL field of the record, and a row
    without that column. *)
Definition linked : Row :=
  [("Record ID", "1"); ("Website URL", "a.example"); ("url", "https://a.example/about")].

Definition unlinked : Row := [("Record ID", "2"); ("Website URL", "b.example")].

End Input.

(** A row without a column named like one of the three flags. *)
Definition no_flag_columns (data : Row) : bool :=
  forallb (fun flag => negb (existsb (String.eqb flag) (Obj.keys (obj_of_row data))))
    ["isShopify"; "isActive"; "isPasswordProtected"].

(** A row as it is appended to the report: its cells joined by commas. *)
Definition verbatim (data : Row) : string :=
  join_values "," (Obj.values (obj_of_row data)).

(** The flags of a record are ordered: protected only if active, active
    only if Shopify. *)
Definition flags_ordered (row : Obj.t) : Prop :=
  Bool.le (Js.truthy (Obj.get row "isPasswordProtected")) (Js.truthy (Obj.get row "isActive")) /\
  Bool.le (Js.truthy (Obj.get row "isActive")) (Js.truthy (Obj.get row "isShopify")).

(** ** Reference behaviour, in the words of the specification *)

(** The response object built from a reply to a request for [url]. *)
Definition response_of (url : string) (r : Reply) : Response := mkResponse r url.

(** The world after one more request. *)
Definition after_get (url : string) (options : Options) (w : World) : World :=
  mkWorld (S (calls w)) (trace w ++ [Get url options]).

(** The world after a failed first attempt, the pause and a second attempt. *)
Definition after_retry (url : string) (options : Options) (w : World) : World :=
  mkWorld (S (S (calls w)))
    (trace w ++ [Get url options;
                 Console (WarnRetrying url 1 default_retries);
                 Sleep (default_backoff * 1);
                 Get url options]).

(** What a call with any retry count leaves in the trace after its first
    request when [k] more attempts follow attempt number [i] (counted from
    0): before each of them a console line and a pause that grows linearly. *)
Fixpoint retry_events (url : string) (options : Options) (retries backoff i : Z)
    (k : nat) : list Event :=
  match k with
  | O => []
  | S k' =>
      [Console (WarnRetrying url (i + 1) retries);
       Sleep (backoff * (i + 1));
       Get url options]
      ++ retry_events url options retries backoff (i + 1) k'
  end.

(** Verdict of the platform-detection stage on a failed request. *)
Definition shopify_on_failure (e : Error) : bool :=
  match error_response e with
  | Some r => poweredByShopify r
  | None => false
  end.

(** The final URL of an answered request, when it can be determined: the
    recorded redirect target, or else the requested URL. *)
Definition final_url_of (url : string) (r : Reply) : option string :=
  match request_res r with
  | None => None
  | Some res =>
      let requested := if String.eqb url "" then None else Some url in
      match responseUrl res with
      | Some u => if String.eqb u "" then requested else Some u
      | None => requested
      end
  end.

(** A value that is a string. *)
Definition is_string (v : Js.value) : bool :=
  match v with
  | Js.VStr _ => true
  | _ => false
  end.

(** What a row shows under a column: its cell, or nothing when the row has
    no such column. *)
Definition cell_or_empty (data : Row) (k : string) : string :=
  match field data k with
  | Js.VStr s => s
  | _ => ""
  end.

(** A row whose URL or identifier is empty or missing. *)
Definition lacking (data : Row) : bool :=
  String.eqb (cell_or_empty data "Website URL") "" ||
  String.eqb (cell_or_empty data "Record ID") "".

(** A column named by an array index. *)
Definition index_named (kv : string * string) : bool :=
  match Obj.array_index (fst kv) with
  | Some _ => true
  | None => false
  end.

(** Two columns named by array indices, the first index not above the
    second. *)
Definition ascending (kv kv' : string * string) : Prop :=
  exists i i',
    Obj.array_index (fst kv) = Some i /\ Obj.array_index (fst kv') = Some i' /\ (i <= i')%N.

(** The property a cell becomes in the row object. *)
Definition cell (kv : string * string) : string * Js.value := (fst kv, Js.VStr (snd kv)).

(** The record the batching variant makes of a row and the result of its
    classification. *)
Definition batch_record (data : Row) (result : ProbeResult) : Obj.t :=
  [("clientId", field data "ClientId");
   ("url", field data "URL");
   ("isShopify", Js.VBool (isShopify result));
   ("isActive", Js.VBool (isActive result));
   ("isPasswordProtected", Js.VBool (isPasswordProtected result))].

(** The fields the admission-gate variant puts into a record itself. *)
Definition own_fields (data : Row) (result : ProbeResult) : Obj.t :=
  [("recordId", field data "Record ID");
   ("url", field data "Website URL");
   ("isShopify", Js.VBool (isShopify result));
   ("isActive", Js.VBool (isActive result));
   ("isPasswordProtected", Js.VBool (isPasswordProtected result))].

(** Whether a column is named like one of these fields. *)
Definition own_field (k : string) : bool :=
  existsb (String.eqb k) ["recordId"; "url"; "isShopify"; "isActive"; "isPasswordProtected"].

(** Whether a column is named like a property every object inherits. *)
Definition inherits (k : string) : bool :=
  match Obj.inherited k with
  | Js.VUndef => false
  | _ => true
  end.

(** What the record of a row holds under a key in the admission-gate
    variant: the cell of the row when the row has a column of that name,
    and otherwise the field the script puts there itself, if any. *)
Definition record_value (data : Row) (result : ProbeResult) (k : string) : Js.value :=
  if existsb (String.eqb k) (map fst data) then field data k
  else Obj.get (own_fields data result) k.

(** The line of a row in the table of the admission-gate variant, told
    from the row and the result of its classification. *)
Definition shown_line (extraColumns : list string) (data : Row) (result : ProbeResult)
    : string :=
  Js.to_string (Js.or (field data "Record ID") (record_value data result "recordId")) ++ "," ++
  Js.to_string (Js.or (field data "Website URL") (record_value data result "url")) ++ "," ++
  Js.to_string (record_value data result "isShopify") ++ "," ++
  Js.to_string (record_value data result "isActive") ++ "," ++
  Js.to_string (record_value data result "isPasswordProtected") ++ "," ++
  Js.join ","
    (map (cell_or_empty data)
       ["Create Date"; "Number of Associated Contacts"; "City"; "Country/Region";
        "Last Activity Date"; "Company owner"]) ++ "," ++
  Js.join ","
    (map (fun c =>
            if own_field c || inherits c
            then Js.to_string (Js.or (record_value data result c) (Js.VStr ""))
            else cell_or_empty data c)
       extraColumns).

(** The task the batching variant makes of the i-th row. *)
Definition batch_task (p : nat * Row) : Batch.Task :=
  Batch.mkTask (fst p) (field (snd p) "URL") (field (snd p) "ClientId").

(** Number of rows the gate variant has read so far. *)
Definition rows_read (s : Gate.Sched) : nat :=
  (List.length (started (Gate.log s)) + List.length (Gate.waiting s))%nat.

(** Work left in a state of the gate variant: every unread row is still to
    be read and to be settled, every waiting or running call to be settled. *)
Definition work_left (s : Gate.Sched) : nat :=
  (2 * List.length (Gate.unread s) + List.length (Gate.waiting s)
   + List.length (Gate.running s))%nat.

(** What relates the running calls to the trace. *)
Record gate_core (s : Gate.Sched) : Prop := mkGateCore {
  core_running : Gate.running s = inflight (Gate.log s);
  core_nodup : NoDup (Gate.running s);
  core_perm : Permutation (finished (Gate.log s) ++ Gate.running s) (started (Gate.log s));
  core_bound : (List.length (Gate.running s) <= Gate.concurrencyLimit)%nat;
  core_peak : (peak (Gate.log s) <= Gate.concurrencyLimit)%nat
}.

(** The invariant of the event loop of the gate variant on [n] rows. *)
Record gate_inv (n : nat) (s : Gate.Sched) : Prop := mkGateInv {
  inv_core : gate_core s;
  inv_unread : Gate.unread s = seq (rows_read s) (n - rows_read s);
  inv_le : (rows_read s <= n)%nat;
  inv_fifo : (started (Gate.log s) ++ Gate.waiting s)%list = seq 0 (rows_read s);
  inv_full : Gate.waiting s = [] \/
             List.length (Gate.running s) = Gate.concurrencyLimit
}.

Section Reference.

Variable net : nat -> string -> Options -> Outcome.
Variable cheerio : Body -> Loaded.

(** The three ways a call with the default retry count can go. *)
Inductive retry_run (url : string) (options : Options) (w : World)
  : Result (option Response) * World -> Prop :=
| run_first r :
    net (calls w) url options = Resolved r ->
    retry_run url options w (Ok (Some (response_of url r)), after_get url options w)
| run_second m1 r1 r :
    net (calls w) url options = Rejected m1 r1 ->
    net (S (calls w)) url options = Resolved r ->
    retry_run url options w (Ok (Some (response_of url r)), after_retry url options w)
| run_failed m1 r1 m2 r2 :
    net (calls w) url options = Rejected m1 r1 ->
    net (S (calls w)) url options = Rejected m2 r2 ->
    retry_run url options w
      (Throw (AxiosError m2 (option_map (response_of url) r2)), after_retry url options w).

(** Number of elements of a body that match a selector: none when the
    body cannot be loaded. *)
Definition select (s : Selector) (body : Body) : nat :=
  match cheerio body with
  | Document query => query s
  | Unloadable _ => 0%nat
  end.

(** What the detection stage leaves in the trace once its request is
    answered: nothing, unless it has to open the body and the body cannot be
    loaded. *)
Definition detection_log (url : string) (r : Response) : list Event :=
  if hasMarker url || poweredByShopify r then []
  else match cheerio (data r) with
       | Document _ => []
       | Unloadable message => [Console (ErrorShopifyCheck url message)]
       end.

(** Verdict of the platform-detection stage on an answered request. *)
Definition shopify_on_response (url : string) (r : Response) : bool :=
  hasMarker url || poweredByShopify r ||
  (0 <? select (MetaNamed "shopify-checkout-api-token") (data r))%nat ||
  (0 <? select (ScriptSrcContains "shopify") (data r))%nat.

(** The password-gate verdict as the specification words it: protected
    exactly when the request is answered, the final URL is known and ends
    in the gate path, and the body holds a password input. *)
Definition spec_passwordProtected (url : string) (o : Outcome) : bool :=
  match o with
  | Rejected _ _ => false
  | Resolved r =>
      match final_url_of url r with
      | None => false
      | Some u =>
          Js.endsWith u "/password" &&
          (0 <? select (InputOfType "password") (data r))%nat
      end
  end.

End Reference.

(** ** The scripts as a whole, and projections used to state their properties *)

(** The requests of a trace, each with its URL and options. *)
Fixpoint gets (t : list Event) : list (string * Options) :=
  match t with
  | [] => []
  | Get url options :: t' => (url, options) :: gets t'
  | _ :: t' => gets t'
  end.

(** The pauses of a trace, in milliseconds. *)
Fixpoint pauses (t : list Event) : list Z :=
  match t with
  | [] => []
  | Sleep ms :: t' => ms :: pauses t'
  | _ :: t' => pauses t'
  end.

(** A failed request that gives the detection stage nothing to go by: no
    response at all, or one whose [powered-by] header does not name
    Shopify. *)
Definition silent_failure (o : Outcome) : bool :=
  match o with
  | Resolved _ => false
  | Rejected _ None => true
  | Rejected _ (Some r) => negb (poweredByShopify (mkResponse r ""))
  end.

(** A stage that goes through [axiosRetry] with the defaults: one or two
    requests for the URL, at most one pause, of 3000 ms. *)
Definition retried_stage (url : string) (w w' : World) : Prop :=
  exists t,
    w' = mkWorld (calls w + List.length (gets t)) (trace w ++ t) /\
    (1 <= List.length (gets t) <= 2)%nat /\
    Forall (eq (url, plainOptions)) (gets t) /\
    Forall (eq 3000) (pauses t) /\
    (List.length (pauses t) <= 1)%nat.

(** The error of [processURL] on a row without a URL cell. *)
Definition no_url_error : Error := TypeError "Cannot read properties of undefined".

(** The value [extraColumns.add(...)] receives for a row: its first key
    besides the URL and the identifier, or [undefined] when it has none. *)
Definition firstOther (data : Row) : Js.value :=
  hd Js.VUndef (map Js.VStr (Gate.otherKeys data)).

(** A trace made of consecutive batches: the classifications of [k] rows
    from row [i] on are all started, then they all settle in some order,
    and only then the next batch begins, [k] being [limit] as long as that
    many rows are left. *)
Inductive batched (limit : nat) : nat -> nat -> list SchedEvent -> Prop :=
| batched_done i : batched limit i 0 []
| batched_next i n fin tr :
    (0 < n)%nat ->
    Permutation fin (seq i (Nat.min limit n)) ->
    batched limit (i + Nat.min limit n) (n - Nat.min limit n) tr ->
    batched limit i n
      (map Start (seq i (Nat.min limit n)) ++ map Finish fin ++ tr)%list.

Module Main.

(** [if (fs.existsSync(outputFile)) { fs.unlinkSync(outputFile); }] on the
    content of the output file, if there is one. *)
Definition deleteOutput (outputFile : option Report) : option Report :=
  match outputFile with
  | Some _ => None
  | None => None
  end.

Section Run.

Variable nets : nat -> nat -> string -> Options -> Outcome.
Variable cheerio : Body -> Loaded.
Variable choice : nat -> nat.

(** The batching script from top to bottom: the output file is deleted,
    then [processCSV().catch(...)] runs; [writeCSV] writes the file as its
    last step.  The result is the output file after the run and the error
    that ended the run, if any. *)
Definition batch (outputFile : option Report) (rows : list Row)
    : option Report * option Error :=
  let disk := deleteOutput outputFile in
  match fst (Batch.processCSV nets cheerio choice rows) with
  | Ok report => (Some report, None)
  | Throw e => (disk, Some e)
  end.

(** The same for the admission-gate script, where the error reaches the
    final [catch] or surfaces earlier as an unhandled rejection. *)
Definition gate (outputFile : option Report) (rows : list Row)
    : option Report * option Error :=
  let disk := deleteOutput outputFile in
  match fst (Gate.processCSV nets cheerio choice rows) with
  | Ok report => (Some report, None)
  | Throw e => (disk, Some e)
  end.

End Run.

End Main.

Arguments Js.endsWith : simpl never.
Arguments Js.includes : simpl never.
Arguments Js.startsWith : simpl never.

(** * Properties of the transport *)

Section TransportFacts.

Variable net : nat -> string -> Options -> Outcome.

Lemma requests_app (t u : list Event) :
  requests (t ++ u) = (requests t + requests u)%nat.
Proof.
  induction t as [|e t IH]; simpl; [reflexivity|].
  destruct e; simpl; rewrite IH; reflexivity.
Qed.

Lemma gets_app (t u : list Event) : gets (t ++ u) = (gets t ++ gets u)%list.
Proof.
  induction t as [|e t IH]; simpl; [reflexivity|].
  destruct e; simpl; rewrite IH; reflexivity.
Qed.

Lemma pauses_app (t u : list Event) : pauses (t ++ u) = (pauses t ++ pauses u)%list.
Proof.
  induction t as [|e t IH]; simpl; [reflexivity|].
  destruct e; simpl; rewrite IH; reflexivity.
Qed.

Lemma requests_gets (t : list Event) : requests t = List.length (gets t).
Proof.
  induction t as [|e t IH]; simpl; [reflexivity|].
  destruct e; simpl; rewrite IH; reflexivity.
Qed.

Lemma gets_console (c : list LogLine) : gets (map Console c) = [].
Proof. induction c as [|l c IH]; simpl; [|rewrite IH]; reflexivity. Qed.

Lemma pauses_console (c : list LogLine) : pauses (map Console c) = [].
Proof. induction c as [|l c IH]; simpl; [|rewrite IH]; reflexivity. Qed.

Lemma axiosRetry_default_run url options w :
  retry_run net url options w
    (axiosRetry net url options default_retries default_backoff w).
Proof.
  unfold axiosRetry, default_retries, default_backoff. simpl.
  unfold try_catch, bind, axios_get at 1.
  destruct (net (calls w) url options) as [r|m1 r1] eqn:E1.
  - simpl. apply run_first. exact E1.
  - simpl. unfold try_catch, bind, axios_get. simpl.
    destruct (net (S (calls w)) url options) as [r|m2 r2] eqn:E2; simpl.
    + replace (mkWorld _ _) with (after_retry url options w).
      * eapply run_second; eassumption.
      * unfold after_retry, default_retries, default_backoff.
        f_equal. repeat rewrite <- app_assoc. reflexivity.
    + replace (mkWorld _ _) with (after_retry url options w).
      * eapply run_failed; eassumption.
      * unfold after_retry, default_retries, default_backoff.
        f_equal. repeat rewrite <- app_assoc. reflexivity.
Qed.

Lemma axiosRetry_loop_requests fuel url options retries backoff :
  forall i w,
    (requests (trace (snd (axiosRetry_loop net fuel url options retries backoff i w)))
     <= requests (trace w) + fuel)%nat.
Proof.
  induction fuel as [|fuel IH]; intros i w; simpl.
  - lia.
  - destruct (i <? retries); simpl; [|lia].
    unfold try_catch, bind, axios_get at 1.
    destruct (net (calls w) url options) as [r|m r]; simpl.
    + rewrite requests_app. simpl. lia.
    + destruct (i <? retries - 1); simpl.
      * unfold bind. simpl.
        match goal with |- context [axiosRetry_loop _ _ _ _ _ _ _ ?w1] =>
          specialize (IH (i + 1) w1) end.
        simpl in IH. repeat rewrite requests_app in IH. simpl in IH.
        lia.
      * rewrite requests_app. simpl. lia.
Qed.

(** When every allowed attempt is rejected, the loop pauses between the
    attempts, [backoff * 1], [backoff * 2], ... milliseconds, and throws the
    error of the last attempt. *)
Lemma axiosRetry_loop_exhausted url options backoff : forall fuel i w,
  (forall k, (k <= fuel)%nat -> exists m r, net (calls w + k) url options = Rejected m r) ->
  exists m r,
    net (calls w + fuel) url options = Rejected m r /\
    axiosRetry_loop net (S fuel) url options (i + Z.of_nat (S fuel)) backoff i w =
      (Throw (AxiosError m (option_map (response_of url) r)),
       mkWorld (calls w + S fuel)
         (trace w ++ Get url options
                     :: retry_events url options (i + Z.of_nat (S fuel)) backoff i fuel)).
Proof.
  induction fuel as [|fuel IH]; intros i w Hrej.
  - destruct (Hrej 0%nat (le_n _)) as (m & r & E).
    exists m, r. split; [exact E|].
    rewrite Nat.add_0_r in E.
    cbn [axiosRetry_loop].
    replace (i <? i + Z.of_nat 1) with true by (symmetry; apply Z.ltb_lt; lia).
    replace (i <? i + Z.of_nat 1 - 1) with false by (symmetry; apply Z.ltb_ge; lia).
    unfold try_catch, bind, axios_get, throw. rewrite E. simpl.
    f_equal. f_equal. lia.
  - destruct (Hrej 0%nat (Nat.le_0_l _)) as (m0 & r0 & E0).
    rewrite Nat.add_0_r in E0.
    set (R := i + Z.of_nat (S (S fuel))).
    set (w1 := mkWorld (S (calls w))
                 (((trace w ++ [Get url options])
                   ++ [Console (WarnRetrying url (i + 1) R)])
                  ++ [Sleep (backoff * (i + 1))])).
    destruct (IH (i + 1) w1) as (m & r & E & Hrun).
    { intros k Hk. destruct (Hrej (S k)) as (m' & r' & E'); [lia|].
      exists m', r'. unfold w1. simpl. rewrite <- E'. f_equal. lia. }
    exists m, r. split.
    { rewrite <- E. unfold w1. simpl. f_equal. lia. }
    replace (i + 1 + Z.of_nat (S fuel)) with R in Hrun by (unfold R; lia).
    change (axiosRetry_loop net (S (S fuel)) url options R backoff i w)
      with ((if i <? R then
               try_catch (bind (axios_get net url options) (fun r => ret (Some r)))
                 (fun error =>
                    if i <? R - 1 then
                      bind (console (WarnRetrying url (i + 1) R))
                        (fun _ => bind (sleep (backoff * (i + 1)))
                           (fun _ => axiosRetry_loop net (S fuel) url options R backoff (i + 1)))
                    else throw error)
             else ret None) w).
    replace (i <? R) with true by (symmetry; apply Z.ltb_lt; unfold R; lia).
    replace (i <? R - 1) with true by (symmetry; apply Z.ltb_lt; unfold R; lia).
    unfold try_catch, bind at 1, axios_get. rewrite E0.
    unfold bind, console, sleep, emit. cbn [calls trace].
    fold w1. rewrite Hrun. f_equal. unfold w1. cbn [calls trace].
    f_equal; [lia|].
    cbn [retry_events]. repeat rewrite <- app_assoc. reflexivity.
Qed.

(** A call with retry count [R >= 1] on a network that rejects its first
    [R] requests makes exactly [R] requests and throws the last error. *)
Lemma axiosRetry_exhausted url options backoff (R : nat) w :
  (forall k, (k <= R)%nat -> exists m r, net (calls w + k) url options = Rejected m r) ->
  exists m r,
    net (calls w + R) url options = Rejected m r /\
    axiosRetry net url options (Z.of_nat (S R)) backoff w =
      (Throw (AxiosError m (option_map (response_of url) r)),
       mkWorld (calls w + S R)
         (trace w ++ Get url options
                     :: retry_events url options (Z.of_nat (S R)) backoff 0 R)).
Proof.
  intros H. unfold axiosRetry. rewrite Nat2Z.id.
  exact (axiosRetry_loop_exhausted url options backoff R 0 w H).
Qed.

(** Whatever the retry count, a call issues at most that many requests. *)
Lemma axiosRetry_requests_le url options retries backoff w :
  (requests (trace (snd (axiosRetry net url options retries backoff w)))
   <= requests (trace w) + Z.to_nat retries)%nat.
Proof. apply axiosRetry_loop_requests. Qed.

End TransportFacts.

(** Runs a stage whose branches have all been decided. *)
Ltac run_stage :=
  unfold checkPasswordProtection, spec_passwordProtected, final_url_of, finalUrl,
    select, cheerio_load,
    Js.or, Js.of_opt, Js.truthy, Js.truthy_str, try_catch, bind, console, emit,
    axios_get, ret, throw;
  cbn;
  repeat (match goal with
          | H : _ = _ |- _ => rewrite H
          end; cbn);
  eexists; split; [reflexivity|]; cbn; split; [reflexivity|];
  split; [repeat rewrite requests_app; simpl; lia|];
  eexists; repeat rewrite <- app_assoc; simpl; reflexivity.

(** * Properties of the classifier *)

Section ClassifierFacts.

Variable net : nat -> string -> Options -> Outcome.
Variable cheerio : Body -> Loaded.

Lemma world_same (w : World) : mkWorld (calls w) (trace w ++ []) = w.
Proof. destruct w. simpl. rewrite app_nil_r. reflexivity. Qed.

Lemma isShopifyStore_resolved url w r w1 :
  axiosRetry net url plainOptions default_retries default_backoff w = (Ok (Some r), w1) ->
  isShopifyStore net cheerio url w =
    (Ok (mkShopifyCheck (shopify_on_response cheerio url r) false),
     mkWorld (calls w1) (trace w1 ++ detection_log cheerio url r)).
Proof.
  intros H. unfold isShopifyStore, try_catch, bind. rewrite H. simpl.
  unfold shopify_on_response, detection_log, select, cheerio_load.
  destruct (hasMarker url); simpl; [rewrite world_same; reflexivity|].
  destruct (poweredByShopify r); simpl; [rewrite world_same; reflexivity|].
  destruct (cheerio (data r)) as [query|message]; simpl.
  - rewrite world_same. reflexivity.
  - reflexivity.
Qed.

Lemma isShopifyStore_failed url w e w1 :
  axiosRetry net url plainOptions default_retries default_backoff w = (Throw e, w1) ->
  exists w',
    isShopifyStore net cheerio url w =
      (Ok (mkShopifyCheck (shopify_on_failure e) false), w') /\
    calls w' = calls w1 /\ requests (trace w') = requests (trace w1).
Proof.
  intros H. unfold isShopifyStore, try_catch, bind. rewrite H.
  unfold shopify_on_failure.
  destruct (error_response e) as [r|].
  - destruct (poweredByShopify r).
    + eexists; repeat split.
    + destruct (status r =? 404); simpl;
        (eexists; split; [reflexivity|]; simpl; split; [reflexivity|]);
        rewrite requests_app; simpl; lia.
  - simpl. eexists; split; [reflexivity|]. simpl. split; [reflexivity|].
    rewrite requests_app; simpl; lia.
Qed.

(** On a failed request the stage answers by the failure alone and writes
    at most one line to the console. *)
Lemma isShopifyStore_rejected url w e w1 :
  axiosRetry net url plainOptions default_retries default_backoff w = (Throw e, w1) ->
  exists c,
    isShopifyStore net cheerio url w =
      (Ok (mkShopifyCheck (shopify_on_failure e) false),
       mkWorld (calls w1) (trace w1 ++ map Console c)) /\
    (List.length c <= 1)%nat.
Proof.
  intros H. unfold isShopifyStore, try_catch, bind. rewrite H.
  unfold shopify_on_failure.
  destruct (error_response e) as [r|].
  - destruct (poweredByShopify r).
    + exists []. simpl. rewrite world_same. split; [reflexivity|lia].
    + destruct (status r =? 404); eexists [_]; split; try reflexivity; simpl; lia.
  - eexists [_]. split; [reflexivity|simpl; lia].
Qed.

Lemma isShopifyStore_total url w :
  exists s w', isShopifyStore net cheerio url w = (Ok s, w').
Proof.
  destruct (axiosRetry net url plainOptions default_retries default_backoff w)
    as [[[r|]|e] w1] eqn:E.
  - erewrite isShopifyStore_resolved by eassumption. eauto.
  - unfold isShopifyStore, try_catch, bind. rewrite E. simpl.
    eexists; eexists; reflexivity.
  - destruct (isShopifyStore_failed _ _ _ _ E) as (w' & E' & _). eauto.
Qed.

Lemma checkURL_resolved url w r w1 :
  axiosRetry net url plainOptions default_retries default_backoff w = (Ok (Some r), w1) ->
  checkURL net url w = (Ok (status r =? 200), w1).
Proof.
  intros H. unfold checkURL, try_catch, bind. rewrite H. reflexivity.
Qed.

Lemma checkURL_failed url w e w1 :
  axiosRetry net url plainOptions default_retries default_backoff w = (Throw e, w1) ->
  exists w',
    checkURL net url w = (Ok false, w') /\
    calls w' = calls w1 /\ requests (trace w') = requests (trace w1).
Proof.
  intros H. unfold checkURL, try_catch, bind. rewrite H.
  destruct (error_response e) as [r|].
  - destruct (poweredByShopify r).
    + eexists; repeat split.
    + destruct (status r =? 404); simpl;
        (eexists; split; [reflexivity|]; simpl; split; [reflexivity|]);
        rewrite requests_app; simpl; lia.
  - simpl. eexists; split; [reflexivity|]. simpl. split; [reflexivity|].
    rewrite requests_app; simpl; lia.
Qed.

Lemma checkURL_total url w :
  exists b w', checkURL net url w = (Ok b, w').
Proof.
  destruct (axiosRetry net url plainOptions default_retries default_backoff w)
    as [[[r|]|e] w1] eqn:E.
  - erewrite checkURL_resolved by eassumption. eauto.
  - unfold checkURL, try_catch, bind. rewrite E. simpl.
    eexists; eexists; reflexivity.
  - destruct (checkURL_failed _ _ _ _ E) as (w' & E' & _). eauto.
Qed.

Lemma checkPasswordProtection_run url w :
  exists w',
    checkPasswordProtection net cheerio url w =
      (Ok (spec_passwordProtected cheerio url (net (calls w) url passwordOptions)), w') /\
    calls w' = S (calls w) /\
    requests (trace w') = S (requests (trace w)) /\
    exists t, trace w' = (trace w ++ Console (LogCheckingPassword url) :: Get url passwordOptions :: t)%list.
Proof.
  destruct (net (calls w) url passwordOptions) as [r|m [r|]] eqn:E.
  - destruct (cheerio (data r)) as [query|message] eqn:Eload;
      destruct (request_res r) as [[[u|]]|] eqn:Eres.
    + destruct (String.eqb u "") eqn:Eu.
      * destruct (String.eqb url "") eqn:Eurl; [run_stage|].
        destruct (Js.endsWith url "/password") eqn:Eend; run_stage.
      * destruct (Js.endsWith u "/password") eqn:Eend; run_stage.
    + destruct (String.eqb url "") eqn:Eurl; [run_stage|].
      destruct (Js.endsWith url "/password") eqn:Eend; run_stage.
    + run_stage.
    + destruct (String.eqb u "") eqn:Eu.
      * destruct (String.eqb url "") eqn:Eurl; [run_stage|].
        destruct (Js.endsWith url "/password") eqn:Eend; run_stage.
      * destruct (Js.endsWith u "/password") eqn:Eend; run_stage.
    + destruct (String.eqb url "") eqn:Eurl; [run_stage|].
      destruct (Js.endsWith url "/password") eqn:Eend; run_stage.
    + run_stage.
  - destruct ((status r =? 301) || (status r =? 302)) eqn:E30; [run_stage|].
    destruct (status r =? 404) eqn:E404; run_stage.
  - run_stage.
Qed.

End ClassifierFacts.

(** * The pipeline as a whole *)

Section PipelineFacts.

Variable net : nat -> string -> Options -> Outcome.
Variable cheerio : Body -> Loaded.

(** [processURL] runs the stages in order, each one only when the previous
    one answered [true]. *)
Lemma processURL_stages url w :
  exists s w1,
    isShopifyStore net cheerio (withProtocol url) w = (Ok s, w1) /\
    if sc_isShopify s then
      exists a w2,
        checkURL net (withProtocol url) w1 = (Ok a, w2) /\
        if a then
          exists p w3,
            checkPasswordProtection net cheerio (withProtocol url) w2 = (Ok p, w3) /\
            processURL net cheerio url w = (Ok (mkProbe true true p), w3)
        else processURL net cheerio url w = (Ok (mkProbe true false false), w2)
    else processURL net cheerio url w = (Ok (mkProbe false false false), w1).
Proof.
  destruct (isShopifyStore_total net cheerio (withProtocol url) w) as (s & w1 & E1).
  exists s, w1. split; [exact E1|].
  unfold processURL, bind. rewrite E1.
  destruct (sc_isShopify s) eqn:Es; [|reflexivity].
  destruct (checkURL_total net (withProtocol url) w1) as (a & w2 & E2).
  exists a, w2. split; [exact E2|]. rewrite E2.
  destruct a; [|reflexivity].
  destruct (checkPasswordProtection_run net cheerio (withProtocol url) w2)
    as (w3 & E3 & _).
  eexists; exists w3. split; [exact E3|]. rewrite E3. reflexivity.
Qed.

Lemma processURL_total url w :
  exists r w', processURL net cheerio url w = (Ok r, w').
Proof.
  destruct (processURL_stages url w) as (s & w1 & _ & H).
  destruct (sc_isShopify s); [|eauto].
  destruct H as (a & w2 & _ & H).
  destruct a; [|eauto].
  destruct H as (p & w3 & _ & H). eauto.
Qed.

End PipelineFacts.

(** * Claims about the transport and the classifier *)

(** C4. With the default retry count 2 and back-off unit 3000 ms,
    [axiosRetry] makes at most two requests.  A first success is returned at
    once.  After a first failure it logs, waits 3000 * 1 ms and tries once
    more; the outcome of that second attempt, success or error, is the
    outcome of the call.  No third request is made, whatever the network
    would have answered. *)
Theorem axiosRetry_two_attempts
    (net : nat -> string -> Options -> Outcome) url options w :
  let out := axiosRetry net url options 2 3000 w in
  (requests (trace (snd out)) <= requests (trace w) + 2)%nat /\
  (calls (snd out) <= calls w + 2)%nat /\
  match net (calls w) url options with
  | Resolved r =>
      out = (Ok (Some (mkResponse r url)),
             mkWorld (S (calls w)) (trace w ++ [Get url options]))
  | Rejected _ _ =>
      snd out =
        mkWorld (S (S (calls w)))
          (trace w ++ [Get url options;
                       Console (WarnRetrying url 1 2);
                       Sleep (3000 * 1);
                       Get url options]) /\
      fst out =
        match net (S (calls w)) url options with
        | Resolved r => Ok (Some (mkResponse r url))
        | Rejected m2 r2 =>
            Throw (AxiosError m2 (option_map (fun r => mkResponse r url) r2))
        end
  end.
Proof.
  intros out.
  pose proof (axiosRetry_default_run net url options w) as R.
  change (axiosRetry net url options default_retries default_backoff w) with out in R.
  inversion R as [r E1 Eout|m1 r1 r E1 E2 Eout|m1 r1 m2 r2 E1 E2 Eout];
    rewrite E1; try rewrite E2; simpl;
    unfold after_get, after_retry; simpl;
    repeat rewrite requests_app; simpl.
  - repeat split; lia.
  - repeat split; lia.
  - repeat split; lia.
Qed.

(** Scenario E of the specification: the network would answer the third
    request, but the call gives up after the second one and surfaces its
    error. *)
Example scenario_E :
  Scenario.net_third_time_lucky 2 "http://shop.example" plainOptions
    = Resolved Scenario.page_ok /\
  axiosRetry Scenario.net_third_time_lucky "http://shop.example" plainOptions 2 3000 world0 =
    (Throw (AxiosError "timeout of 15000ms exceeded" None),
     mkWorld 2 [Get "http://shop.example" plainOptions;
                Console (WarnRetrying "http://shop.example" 1 2);
                Sleep 3000;
                Get "http://shop.example" plainOptions]).
Proof. split; reflexivity. Qed.

(** C6. When the request of the liveness stage is answered within the retry
    budget, [checkURL] returns whether the status is 200.  When it fails,
    whatever the failure carries, [checkURL] returns [false] without any
    further request; it never throws. *)
Theorem checkURL_status_200
    (net : nat -> string -> Options -> Outcome) url w :
  match axiosRetry net url plainOptions 2 3000 w with
  | (Ok (Some r), w1) => checkURL net url w = (Ok (status r =? 200), w1)
  | (Ok None, _) => False
  | (Throw e, w1) =>
      exists w', checkURL net url w = (Ok false, w') /\
                 requests (trace w') = requests (trace w1)
  end.
Proof.
  pose proof (axiosRetry_default_run net url plainOptions w) as R.
  change (axiosRetry net url plainOptions 2 3000 w)
    with (axiosRetry net url plainOptions default_retries default_backoff w).
  destruct (axiosRetry net url plainOptions default_retries default_backoff w)
    as [[[r|]|e] w1] eqn:E.
  - apply checkURL_resolved. exact E.
  - inversion R.
  - destruct (checkURL_failed net url w e w1 E) as (w' & H1 & _ & H2). eauto.
Qed.

(** The password stage as the code has it.  [checkPasswordProtection] issues
    one request, with at most 5 redirects followed and every status below
    400 accepted, and returns [true] exactly when the request is answered,
    the final URL (the recorded redirect target or else the requested URL)
    ends in [/password] and the body holds a password input.  A final URL
    that cannot be determined, a final URL that does not end in the gate
    path and every failed request give [false].  Whether a redirect took
    place is not looked at. *)
Theorem checkPasswordProtection_exact
    (net : nat -> string -> Options -> Outcome)
    (cheerio : Body -> Loaded) url w :
  let out := checkPasswordProtection net cheerio url w in
  fst out = Ok (spec_passwordProtected cheerio url (net (calls w) url passwordOptions)) /\
  requests (trace (snd out)) = S (requests (trace w)) /\
  In (Get url passwordOptions) (trace (snd out)) /\
  maxRedirects passwordOptions = Some 5 /\
  validateStatus passwordOptions = Some (Below 400).
Proof.
  intros out.
  destruct (checkPasswordProtection_run net cheerio url w) as (w' & E & _ & Hr & t & Ht).
  subst out. rewrite E. simpl. repeat split; try assumption.
  rewrite Ht. apply in_or_app. right. simpl. auto.
Qed.

(** C5, at the input where the code departs from it.  The server answers
    the request at the requested URL itself: the final URL is the requested
    one, no redirect has taken place.  The claim, and the comments of the
    function ("Check if the final URL is different from the requested URL",
    "If not redirected, the store is not password protected"), want
    [false] here.  The code never compares the two URLs: the requested URL
    ends in [/password] and the page holds a password input, so it answers
    [true]. *)
Lemma unredirected_gate_url_is_protected :
  Scenario.net_unredirected 0 "http://shop.example/password" passwordOptions =
    Resolved (mkReply 200 [] (Markup "<input type=password>")
                (Some (mkIncoming (Some "http://shop.example/password")))) /\
  final_url_of "http://shop.example/password"
    (mkReply 200 [] (Markup "<input type=password>")
       (Some (mkIncoming (Some "http://shop.example/password"))))
    = Some "http://shop.example/password" /\
  checkPasswordProtection Scenario.net_unredirected Scenario.cheerio_password
    "http://shop.example/password" world0 =
    (Ok true,
     mkWorld 1 [Console (LogCheckingPassword "http://shop.example/password");
                Get "http://shop.example/password" passwordOptions;
                Console (LogPasswordStatus "http://shop.example/password" 200);
                Console LogWorks]).
Proof. repeat split. Qed.

(** C10. When the answered request records no redirect target, the final URL
    is the requested URL; so a requested URL that itself ends in [/password]
    and whose body holds a password input is reported protected although no
    redirect took place. *)
Theorem checkPasswordProtection_falls_back_to_requested_url
    (net : nat -> string -> Options -> Outcome)
    (cheerio : Body -> Loaded) url w r res :
  net (calls w) url passwordOptions = Resolved r ->
  request_res r = Some res ->
  responseUrl res = None ->
  finalUrl res (mkResponse r url) = Js.VStr url /\
  (Js.endsWith url "/password" = true ->
   (0 < select cheerio (InputOfType "password") (data r))%nat ->
   fst (checkPasswordProtection net cheerio url w) = Ok true).
Proof.
  intros Hnet Hres Hurl. split.
  - unfold finalUrl, Js.or. rewrite Hurl. reflexivity.
  - intros Hend Hsel.
    destruct (checkPasswordProtection_run net cheerio url w) as (w' & E & _).
    rewrite E. simpl. f_equal.
    unfold spec_passwordProtected, final_url_of. rewrite Hnet, Hres, Hurl.
    destruct (String.eqb url "") eqn:Eu.
    + apply String.eqb_eq in Eu. subst url. discriminate Hend.
    + rewrite Hend. simpl. apply Nat.ltb_lt. exact Hsel.
Qed.

Lemma checkPasswordProtection_falls_back_witness :
  Js.endsWith "http://shop.example/password" "/password" = true /\
  fst (checkPasswordProtection Scenario.net_gate Scenario.cheerio_password
         "http://shop.example/password" world0) = Ok true.
Proof.
  split; [reflexivity|].
  apply (checkPasswordProtection_falls_back_to_requested_url
           Scenario.net_gate Scenario.cheerio_password
           "http://shop.example/password" world0
           Scenario.gate_page (mkIncoming None));
    try reflexivity.
  vm_compute. lia.
Defined.

(** C1, as the code has it.  The marker is consulted only after the request
    of the detection stage has been answered.  For a URL that contains the
    marker the stage issues one request, and a second one, after a pause of
    3000 ms, when the first one fails: never none and never more than two.
    If one of the two is answered, the URL is classified as Shopify and
    nothing else happens: neither the headers nor the body are consulted.
    If both fail, the marker is not consulted: the verdict is the one of the
    failure path, Shopify only when the failure carries a response whose
    [powered-by] header names Shopify, and the stage writes at most one line
    to the console. *)
Theorem isShopifyStore_marker_after_request
    (net : nat -> string -> Options -> Outcome)
    (cheerio : Body -> Loaded) url w :
  hasMarker url = true ->
  let out := isShopifyStore net cheerio url w in
  (requests (trace w) + 1 <= requests (trace (snd out)) <= requests (trace w) + 2)%nat /\
  match net (calls w) url plainOptions with
  | Resolved _ =>
      out = (Ok (mkShopifyCheck true false),
             mkWorld (S (calls w)) (trace w ++ [Get url plainOptions]))
  | Rejected _ _ =>
      match net (S (calls w)) url plainOptions with
      | Resolved _ =>
          out = (Ok (mkShopifyCheck true false),
                 mkWorld (S (S (calls w)))
                   (trace w ++ [Get url plainOptions;
                                Console (WarnRetrying url 1 2);
                                Sleep (3000 * 1);
                                Get url plainOptions]))
      | Rejected m2 r2 =>
          exists c,
            out = (Ok (mkShopifyCheck
                         (shopify_on_failure
                            (AxiosError m2 (option_map (fun r => mkResponse r url) r2)))
                         false),
                   mkWorld (S (S (calls w)))
                     (trace w ++ [Get url plainOptions;
                                  Console (WarnRetrying url 1 2);
                                  Sleep (3000 * 1);
                                  Get url plainOptions] ++ map Console c)) /\
            (List.length c <= 1)%nat
      end
  end.
Proof.
  intros Hm out. subst out.
  pose proof (axiosRetry_default_run net url plainOptions w) as R.
  inversion R as [r E1 Eout|m1 r1 r E1 E2 Eout|m1 r1 m2 r2 E1 E2 Eout];
    symmetry in Eout; rewrite E1; try rewrite E2.
  - rewrite (isShopifyStore_resolved net cheerio url w _ _ Eout).
    unfold shopify_on_response, detection_log. rewrite Hm. cbn [orb].
    rewrite world_same. unfold after_get. cbn [snd trace].
    rewrite requests_app. simpl. split; [lia|reflexivity].
  - rewrite (isShopifyStore_resolved net cheerio url w _ _ Eout).
    unfold shopify_on_response, detection_log. rewrite Hm. cbn [orb].
    rewrite world_same. unfold after_retry. cbn [snd trace].
    rewrite requests_app. simpl. split; [lia|reflexivity].
  - destruct (isShopifyStore_rejected net cheerio url w _ _ Eout) as (c & E & Hc).
    rewrite E. unfold after_retry. cbn [snd calls trace]. split.
    + rewrite !requests_app, (requests_gets (map Console c)), gets_console. simpl. lia.
    + exists c. rewrite <- app_assoc. split; [reflexivity|exact Hc].
Qed.

Lemma isShopifyStore_marker_witness :
  hasMarker "http://foo.myshopify.com" = true /\
  isShopifyStore Scenario.net_plain Scenario.cheerio_password
    "http://foo.myshopify.com" world0 =
    (Ok (mkShopifyCheck true false),
     mkWorld 1 [Get "http://foo.myshopify.com" plainOptions]).
Proof.
  split; [reflexivity|].
  exact (proj2 (isShopifyStore_marker_after_request
                  Scenario.net_plain Scenario.cheerio_password
                  "http://foo.myshopify.com" world0 eq_refl)).
Defined.

(** C1 fails as stated: a URL with the marker is not classified without a
    request.  When no server answers, two requests are made and the verdict
    is not-Shopify; when the server answers, one request has been made. *)
Lemma marker_url_is_requested_first :
  hasMarker "http://foo.myshopify.com" = true /\
  isShopifyStore Scenario.net_down Scenario.cheerio_password
    "http://foo.myshopify.com" world0 =
    (Ok (mkShopifyCheck false false),
     mkWorld 2 [Get "http://foo.myshopify.com" plainOptions;
                Console (WarnRetrying "http://foo.myshopify.com" 1 2);
                Sleep 3000;
                Get "http://foo.myshopify.com" plainOptions;
                Console (ErrorShopifyCheck "http://foo.myshopify.com" "ECONNREFUSED")]) /\
  requests (trace (snd (isShopifyStore Scenario.net_plain Scenario.cheerio_password
                          "http://foo.myshopify.com" world0))) = 1%nat.
Proof. repeat split. Qed.

(** C3. [processURL] always returns a result in which [isActive] holds only
    if [isShopify] does and [isPasswordProtected] only if [isActive] does.
    The liveness stage is entered only after the detection stage answered
    [true] (otherwise nothing happens after detection), and the password
    stage only after the liveness stage answered [true] (otherwise nothing
    happens after the liveness check). *)
Theorem processURL_chain
    (net : nat -> string -> Options -> Outcome)
    (cheerio : Body -> Loaded) url w :
  exists r w',
    processURL net cheerio url w = (Ok r, w') /\
    Bool.le (isActive r) (isShopify r) /\
    Bool.le (isPasswordProtected r) (isActive r) /\
    exists s w1,
      isShopifyStore net cheerio (withProtocol url) w = (Ok s, w1) /\
      isShopify r = sc_isShopify s /\
      if sc_isShopify s then
        exists a w2,
          checkURL net (withProtocol url) w1 = (Ok a, w2) /\
          isActive r = a /\
          if a then
            checkPasswordProtection net cheerio (withProtocol url) w2 =
              (Ok (isPasswordProtected r), w')
          else w' = w2
      else w' = w1.
Proof.
  destruct (processURL_stages net cheerio url w) as (s & w1 & E1 & H).
  destruct (sc_isShopify s) eqn:Es.
  - destruct H as (a & w2 & E2 & H). destruct a.
    + destruct H as (p & w3 & E3 & H).
      exists (mkProbe true true p), w3. simpl.
      repeat split; try assumption; try (destruct p; reflexivity).
      exists s, w1. rewrite Es. repeat split; try assumption.
      exists true, w2. repeat split; assumption.
    + exists (mkProbe true false false), w2. simpl.
      repeat split; try assumption.
      exists s, w1. rewrite Es. repeat split; try assumption.
      exists false, w2. repeat split; assumption.
  - exists (mkProbe false false false), w1. simpl.
    repeat split; try assumption.
    exists s, w1. rewrite Es. repeat split; assumption.
Qed.

(** Scenarios B, C and D of the specification. *)
Example scenario_B :
  exists w,
    processURL Scenario.net_404 Scenario.cheerio_password "shop.example" world0
      = (Ok (mkProbe false false false), w) /\
    requests (trace w) = 2%nat.
Proof. eexists. split; reflexivity. Qed.

Example scenario_C :
  fst (processURL Scenario.net_plain Scenario.cheerio_password "foo.myshopify.com" world0)
    = Ok (mkProbe true true false).
Proof. reflexivity. Qed.

Example scenario_D :
  fst (processURL Scenario.net_redirected Scenario.cheerio_password "foo.myshopify.com" world0)
    = Ok (mkProbe true true true).
Proof. reflexivity. Qed.

(** C2, as the code has it.  [processURL] is total: for every URL string and
    every network it returns a result and does not throw.  A failure inside
    a stage is absorbed into a boolean: [false] in the liveness stage and in
    the password stage, and in the detection stage [false] unless the
    failure carries a response whose [powered-by] header names Shopify, in
    which case the verdict is [true]. *)
Theorem processURL_total_absorbs_failures
    (net : nat -> string -> Options -> Outcome)
    (cheerio : Body -> Loaded) url w :
  (exists r w', processURL net cheerio url w = (Ok r, w')) /\
  (forall e w1,
      axiosRetry net url plainOptions 2 3000 w = (Throw e, w1) ->
      fst (isShopifyStore net cheerio url w) =
        Ok (mkShopifyCheck (shopify_on_failure e) false) /\
      fst (checkURL net url w) = Ok false) /\
  (forall m r,
      net (calls w) url passwordOptions = Rejected m r ->
      fst (checkPasswordProtection net cheerio url w) = Ok false).
Proof.
  split; [apply processURL_total|]. split.
  - intros e w1 E.
    change (axiosRetry net url plainOptions 2 3000 w)
      with (axiosRetry net url plainOptions default_retries default_backoff w) in E.
    destruct (isShopifyStore_failed net cheerio url w e w1 E) as (w' & E' & _).
    destruct (checkURL_failed net url w e w1 E) as (w'' & E'' & _).
    rewrite E', E''. split; reflexivity.
  - intros m r E.
    destruct (checkPasswordProtection_run net cheerio url w) as (w' & E' & _).
    rewrite E', E. reflexivity.
Qed.

Lemma processURL_total_absorbs_failures_witness :
  fst (isShopifyStore Scenario.net_down Scenario.cheerio_password
         "http://shop.example" world0) = Ok (mkShopifyCheck false false) /\
  fst (checkURL Scenario.net_down "http://shop.example" world0) = Ok false /\
  fst (checkPasswordProtection Scenario.net_down Scenario.cheerio_password
         "http://shop.example" world0) = Ok false.
Proof.
  pose proof (processURL_total_absorbs_failures
                Scenario.net_down Scenario.cheerio_password
                "http://shop.example" world0) as (_ & H1 & H2).
  split; [|split].
  - exact (proj1 (H1 (AxiosError "ECONNREFUSED" None) _ eq_refl)).
  - exact (proj2 (H1 (AxiosError "ECONNREFUSED" None) _ eq_refl)).
  - exact (H2 "ECONNREFUSED" None eq_refl).
Defined.

(** C2 fails as stated: a failure of the detection request does not always
    resolve to [false].  When both attempts are refused by a server that
    names Shopify in its [powered-by] header, the verdict is [true]. *)
Lemma failed_detection_can_report_shopify :
  fst (axiosRetry Scenario.net_shopify_down "http://shop.example" plainOptions 2 3000 world0) =
    Throw (AxiosError "Request failed with status code 503"
             (Some (mkResponse Scenario.shopify_503 "http://shop.example"))) /\
  fst (isShopifyStore Scenario.net_shopify_down Scenario.cheerio_password
         "http://shop.example" world0) = Ok (mkShopifyCheck true false) /\
  fst (processURL Scenario.net_shopify_down Scenario.cheerio_password
         "shop.example" world0) = Ok (mkProbe true false false).
Proof. repeat split. Qed.

(** * Properties of scheduling traces *)

Section TraceFacts.

Lemma inflight_app t u : inflight (t ++ u) = fold_left after u (inflight t).
Proof. unfold inflight. apply fold_left_app. Qed.

Lemma peak_from_ge running t : (List.length running <= peak_from running t)%nat.
Proof. destruct t; simpl; lia. Qed.

Lemma peak_from_app t : forall running u,
  peak_from running (t ++ u) =
    Nat.max (peak_from running t) (peak_from (fold_left after t running) u).
Proof.
  induction t as [|e t IH]; intros running u; simpl.
  - pose proof (peak_from_ge running u). lia.
  - rewrite IH. lia.
Qed.

Lemma peak_app t u :
  peak (t ++ u) = Nat.max (peak t) (peak_from (inflight t) u).
Proof. apply peak_from_app. Qed.

Lemma started_app t u : started (t ++ u) = (started t ++ started u)%list.
Proof. apply flat_map_app. Qed.

Lemma finished_app t u : finished (t ++ u) = (finished t ++ finished u)%list.
Proof. apply flat_map_app. Qed.

Lemma started_starts ids : started (map Start ids) = ids.
Proof. induction ids as [|i ids IH]; simpl; [|rewrite IH]; reflexivity. Qed.

Lemma finished_starts ids : finished (map Start ids) = [].
Proof. induction ids as [|i ids IH]; simpl; [|rewrite IH]; reflexivity. Qed.

Lemma fold_after_starts ids : forall running,
  fold_left after (map Start ids) running = (running ++ ids)%list.
Proof.
  induction ids as [|i ids IH]; intros running; simpl.
  - rewrite app_nil_r. reflexivity.
  - rewrite IH. rewrite <- app_assoc. reflexivity.
Qed.

Lemma peak_from_starts ids : forall running,
  peak_from running (map Start ids) = (List.length running + List.length ids)%nat.
Proof.
  induction ids as [|i ids IH]; intros running; simpl.
  - lia.
  - rewrite IH. rewrite length_app. simpl. lia.
Qed.

(** Removing the j-th element of a list without repetition removes that
    element and nothing else. *)
Lemma remove_nth_remove (l : list nat) : forall j,
  NoDup l -> (j < List.length l)%nat ->
  remove Nat.eq_dec (nth j l 0%nat) l = remove_nth j l.
Proof.
  induction l as [|x l IH]; intros j Hnd Hj; [simpl in Hj; lia|].
  apply NoDup_cons_iff in Hnd. destruct Hnd as [Hx Hl].
  destruct j as [|j]; simpl.
  - destruct (Nat.eq_dec x x) as [_|C]; [|contradiction].
    apply notin_remove. exact Hx.
  - simpl in Hj.
    destruct (Nat.eq_dec (nth j l 0%nat) x) as [E|_].
    + exfalso. apply Hx. rewrite <- E. apply nth_In. lia.
    + f_equal. apply IH; [assumption|lia].
Qed.

Lemma remove_nth_length {A} (l : list A) : forall j,
  (j < List.length l)%nat -> List.length (remove_nth j l) = Nat.pred (List.length l).
Proof.
  induction l as [|x l IH]; intros j Hj; destruct j as [|j]; simpl in *;
    try lia.
  rewrite IH by lia. destruct l; simpl in *; lia.
Qed.

Lemma remove_nth_perm {A} (d : A) (l : list A) : forall j,
  (j < List.length l)%nat -> Permutation (nth j l d :: remove_nth j l) l.
Proof.
  induction l as [|x l IH]; intros j Hj; destruct j as [|j]; simpl in *;
    try lia.
  - reflexivity.
  - rewrite perm_swap. constructor. apply IH. lia.
Qed.

Lemma remove_nth_In {A} (l : list A) : forall j x,
  In x (remove_nth j l) -> In x l.
Proof.
  induction l as [|y l IH]; intros j x Hin; destruct j; simpl in *;
    try contradiction.
  - right; assumption.
  - destruct Hin as [E|Hin]; [left; exact E|right; eapply IH; eassumption].
Qed.

Lemma remove_nth_NoDup {A} (l : list A) : forall j,
  NoDup l -> NoDup (remove_nth j l).
Proof.
  induction l as [|x l IH]; intros j Hnd; destruct j as [|j]; simpl.
  - constructor.
  - constructor.
  - apply NoDup_cons_iff in Hnd. apply Hnd.
  - apply NoDup_cons_iff in Hnd. destruct Hnd as [Hx Hl].
    constructor; [|apply IH; exact Hl].
    intros Hin. apply Hx. eapply remove_nth_In. eassumption.
Qed.

End TraceFacts.

(** * Properties of the batching scheduler *)

Section BatchFacts.

Variable nets : nat -> nat -> string -> Options -> Outcome.
Variable cheerio : Body -> Loaded.
Variable choice : nat -> nat.

Lemma inflight_le_peak t : forall running,
  (List.length (fold_left after t running) <= peak_from running t)%nat.
Proof.
  induction t as [|e t IH]; intros running; simpl; [lia|].
  specialize (IH (after running e)). lia.
Qed.

Lemma remove_length_le (i : nat) (l : list nat) :
  (List.length (remove Nat.eq_dec i l) <= List.length l)%nat.
Proof.
  induction l as [|x l IH]; simpl; [lia|].
  destruct (Nat.eq_dec i x); simpl; lia.
Qed.

Lemma peak_finish t i : peak (t ++ [Finish i]) = peak t.
Proof.
  rewrite peak_app. simpl.
  pose proof (inflight_le_peak t []) as H. fold (inflight t) in H. fold (peak t) in H.
  pose proof (remove_length_le i (inflight t)). lia.
Qed.

Lemma settle_all_spec : forall fuel running tr,
  NoDup running -> inflight tr = running -> (List.length running <= fuel)%nat ->
  let tr' := Batch.settle_all choice fuel running tr in
  inflight tr' = [] /\
  started tr' = started tr /\
  Permutation (finished tr') (finished tr ++ running) /\
  peak tr' = peak tr.
Proof.
  induction fuel as [|fuel IH]; intros running tr Hnd Hin Hlen; simpl.
  - destruct running; [|simpl in Hlen; lia].
    rewrite app_nil_r. repeat split; auto.
  - destruct running as [|x running'] eqn:Erun.
    + rewrite app_nil_r. repeat split; auto.
    + rewrite <- Erun in *.
      assert (Hpos : (0 < List.length running)%nat) by (rewrite Erun; simpl; lia).
      set (j := (choice (List.length tr) mod List.length running)%nat).
      assert (Hj : (j < List.length running)%nat)
        by (apply Nat.mod_upper_bound; lia).
      specialize (IH (remove_nth j running) (tr ++ [Finish (nth j running 0%nat)])%list).
      destruct IH as (H1 & H2 & H3 & H4).
      * apply remove_nth_NoDup. exact Hnd.
      * rewrite inflight_app, Hin. simpl. apply remove_nth_remove; assumption.
      * rewrite remove_nth_length by assumption. lia.
      * repeat split.
        -- exact H1.
        -- rewrite H2, started_app. simpl. apply app_nil_r.
        -- rewrite H3, finished_app. simpl. rewrite <- app_assoc.
           apply Permutation_app_head. simpl.
           apply remove_nth_perm. exact Hj.
        -- rewrite H4. apply peak_finish.
Qed.

Lemma all_Ok {A B} (f : A -> Result B) (l : list A) :
  Forall (fun x => exists b, f x = Ok b) l ->
  exists rs, all (map f l) = Ok rs /\ map Ok rs = map f l.
Proof.
  induction 1 as [|x l [b Hb] _ (rs & IH1 & IH2)]; simpl.
  - exists []. split; reflexivity.
  - rewrite Hb, IH1. exists (b :: rs). simpl. rewrite IH2. split; reflexivity.
Qed.

Lemma classify_Ok (t : Batch.Task) :
  is_string (Batch.url t) = true ->
  exists record, Batch.classify nets cheerio t = Ok record.
Proof.
  intros H. unfold Batch.classify.
  destruct (Batch.url t) as [| |s|]; try discriminate.
  simpl.
  destruct (processURL_total (nets (Batch.index t)) cheerio s world0) as (r & w' & E).
  rewrite E. simpl. eauto.
Qed.

Lemma runBatch_spec (batch : list Batch.Task) tr :
  NoDup (map Batch.index batch) ->
  Forall (fun t => is_string (Batch.url t) = true) batch ->
  inflight tr = [] ->
  exists rs tr',
    Batch.runBatch nets cheerio choice batch tr = (Ok rs, tr') /\
    map Ok rs = map (Batch.classify nets cheerio) batch /\
    inflight tr' = [] /\
    started tr' = (started tr ++ map Batch.index batch)%list /\
    Permutation (finished tr') (finished tr ++ map Batch.index batch) /\
    peak tr' = Nat.max (peak tr) (List.length batch).
Proof.
  intros Hnd Hurl Hin. unfold Batch.runBatch.
  destruct (all_Ok (Batch.classify nets cheerio) batch) as (rs & E1 & E2).
  { eapply Forall_impl; [|exact Hurl]. intros t Ht. apply classify_Ok. exact Ht. }
  rewrite E1. eexists; eexists. split; [reflexivity|]. split; [exact E2|].
  destruct (settle_all_spec (List.length (map Batch.index batch)) (map Batch.index batch)
              (tr ++ map Start (map Batch.index batch))%list) as (H1 & H2 & H3 & H4).
  - exact Hnd.
  - rewrite inflight_app, Hin, fold_after_starts. reflexivity.
  - lia.
  - repeat split.
    + exact H1.
    + rewrite H2, started_app, started_starts. reflexivity.
    + rewrite H3, finished_app, finished_starts, app_nil_r. reflexivity.
    + rewrite H4, peak_app, Hin, peak_from_starts. simpl.
      rewrite length_map. reflexivity.
Qed.

Lemma loop_spec : forall rows i b0 batch results tr,
  Forall (fun data => is_string (field data "URL") = true) rows ->
  Forall (fun t => is_string (Batch.url t) = true) batch ->
  i = (b0 + List.length batch)%nat ->
  map Batch.index batch = seq b0 (List.length batch) ->
  (List.length batch < Batch.concurrencyLimit)%nat ->
  inflight tr = [] ->
  exists rs tr',
    Batch.loop nets cheerio choice rows i batch results tr = (Ok (results ++ rs)%list, tr') /\
    map Ok rs =
      map (Batch.classify nets cheerio) (batch ++ map batch_task (indexed i rows)) /\
    inflight tr' = [] /\
    started tr' = (started tr ++ seq b0 (List.length batch + List.length rows))%list /\
    Permutation (finished tr')
      (finished tr ++ seq b0 (List.length batch + List.length rows)) /\
    (peak tr' <= Nat.max (peak tr) Batch.concurrencyLimit)%nat.
Proof.
  induction rows as [|data rows IH]; intros i b0 batch results tr Hrows Hbatch Hi Hidx Hlen Hin.
  - cbn [Batch.loop indexed map List.length]. rewrite Nat.add_0_r, app_nil_r.
    destruct (0 <? List.length batch)%nat eqn:E.
    + destruct (runBatch_spec batch tr) as (rs & tr' & E1 & E2 & E3 & E4 & E5 & E6).
      * rewrite Hidx. apply seq_NoDup.
      * exact Hbatch.
      * exact Hin.
      * rewrite E1. exists rs, tr'. rewrite <- Hidx.
        repeat split; try assumption. lia.
    + apply Nat.ltb_ge in E. destruct batch; [|simpl in E; lia].
      exists [], tr. simpl. rewrite !app_nil_r.
      repeat split; auto. lia.
  - apply Forall_cons_iff in Hrows. destruct Hrows as [Hdata Hrows].
    cbn [Batch.loop].
    set (batch' := (batch ++ [Batch.mkTask i (field data "URL") (field data "ClientId")])%list).
    assert (Hlen' : List.length batch' = S (List.length batch))
      by (unfold batch'; rewrite length_app; simpl; lia).
    assert (Hidx' : map Batch.index batch' = seq b0 (List.length batch')).
    { rewrite Hlen'. unfold batch'. rewrite map_app. cbn [map Batch.index].
      rewrite Hidx, Hi. rewrite seq_S. reflexivity. }
    assert (Hbatch' : Forall (fun t => is_string (Batch.url t) = true) batch').
    { unfold batch'. apply Forall_app. split; [exact Hbatch|].
      constructor; [exact Hdata|constructor]. }
    assert (Htasks : (batch ++ map batch_task (indexed i (data :: rows)))%list
                     = (batch' ++ map batch_task (indexed (S i) rows))%list).
    { unfold batch'. rewrite <- app_assoc. reflexivity. }
    rewrite Htasks.
    replace (List.length batch + List.length (data :: rows))%nat
      with (List.length batch' + List.length rows)%nat by (simpl; lia).
    destruct (Batch.concurrencyLimit <=? List.length batch')%nat eqn:E.
    + destruct (runBatch_spec batch' tr) as (rs1 & tr1 & E1 & E2 & E3 & E4 & E5 & E6).
      * rewrite Hidx'. apply seq_NoDup.
      * exact Hbatch'.
      * exact Hin.
      * rewrite E1.
        destruct (IH (S i) (S i) [] (results ++ rs1)%list tr1) as (rs2 & tr2 & F1 & F2 & F3 & F4 & F5 & F6);
          try assumption; try (simpl; auto; unfold Batch.concurrencyLimit; lia).
        exists (rs1 ++ rs2)%list, tr2.
        rewrite F1, app_assoc. split; [reflexivity|].
        split; [rewrite !map_app, E2, F2; reflexivity|].
        split; [exact F3|].
        assert (Hseq : seq b0 (List.length batch' + List.length rows)
                       = (map Batch.index batch' ++ seq (S i) (List.length rows))%list).
        { rewrite seq_app, Hidx'. f_equal. f_equal. lia. }
        split; [|split].
        -- rewrite F4, E4, Hseq. simpl. rewrite app_assoc. reflexivity.
        -- rewrite F5, E5, Hseq. simpl. rewrite app_assoc. reflexivity.
        -- rewrite E6 in F6. apply Nat.leb_le in E.
           unfold Batch.concurrencyLimit in *. lia.
    + apply Nat.leb_gt in E.
      destruct (IH (S i) b0 batch' results tr) as (rs & tr' & F1 & F2 & F3 & F4 & F5 & F6);
        try assumption; try lia.
      exists rs, tr'. repeat split; assumption.
Qed.

End BatchFacts.

(** * Properties of the admission-gate scheduler *)

Section GateFacts.

Variable choice : nat -> nat.

Lemma core_running_started s x :
  gate_core s -> In x (Gate.running s) -> In x (started (Gate.log s)).
Proof.
  intros C Hin. eapply Permutation_in; [apply (core_perm s C)|].
  apply in_or_app. right. exact Hin.
Qed.

Lemma core_start s i :
  gate_core s ->
  (List.length (Gate.running s) < Gate.concurrencyLimit)%nat ->
  ~ In i (Gate.running s) ->
  gate_core (Gate.start i s).
Proof.
  intros [Hr Hnd Hp Hb Hpk] Hlt Hni. constructor; simpl.
  - rewrite inflight_app, <- Hr. reflexivity.
  - apply NoDup_app; repeat split; try assumption.
    + constructor; [intros []|constructor].
    + intros x Hx [E|[]]. subst. contradiction.
  - rewrite finished_app, started_app. simpl. rewrite app_nil_r.
    rewrite app_assoc. apply Permutation_app_tail. exact Hp.
  - rewrite length_app. simpl. lia.
  - rewrite peak_app. simpl. rewrite <- Hr, length_app. simpl. lia.
Qed.

Lemma core_finish s j :
  gate_core s ->
  (j < List.length (Gate.running s))%nat ->
  gate_core (Gate.mkSched (Gate.unread s) (Gate.waiting s)
               (remove_nth j (Gate.running s))
               (Gate.log s ++ [Finish (nth j (Gate.running s) 0%nat)])
               (Gate.clock s)).
Proof.
  intros [Hr Hnd Hp Hb Hpk] Hj. constructor; simpl.
  - rewrite inflight_app, <- Hr. simpl. symmetry.
    apply remove_nth_remove; assumption.
  - apply remove_nth_NoDup. exact Hnd.
  - rewrite finished_app, started_app. simpl. rewrite app_nil_r.
    rewrite <- Hp. rewrite <- app_assoc. apply Permutation_app_head.
    simpl. apply remove_nth_perm. exact Hj.
  - rewrite remove_nth_length by assumption. lia.
  - rewrite peak_finish. exact Hpk.
Qed.

Lemma core_same s s' :
  Gate.running s' = Gate.running s -> Gate.log s' = Gate.log s ->
  gate_core s -> gate_core s'.
Proof.
  intros Hr Hl [H1 H2 H3 H4 H5].
  constructor; rewrite ?Hr, ?Hl; assumption.
Qed.

Lemma started_lt n s x :
  gate_inv n s -> In x (started (Gate.log s)) -> (x < rows_read s)%nat.
Proof.
  intros I Hin.
  assert (H : In x (seq 0 (rows_read s))).
  { rewrite <- (inv_fifo n s I). apply in_or_app. left. exact Hin. }
  apply in_seq in H. lia.
Qed.

Lemma waiting_not_started n s :
  gate_inv n s ->
  forall x, In x (Gate.waiting s) -> ~ In x (started (Gate.log s)).
Proof.
  intros I x Hw Hs.
  pose proof (seq_NoDup (rows_read s) 0) as Hnd.
  rewrite <- (inv_fifo n s I) in Hnd.
  apply in_split in Hw. destruct Hw as (a & b & Hw). rewrite Hw in Hnd.
  rewrite app_assoc in Hnd. apply NoDup_remove_2 in Hnd.
  apply Hnd. apply in_or_app. left. apply in_or_app. left. exact Hs.
Qed.

Lemma inv_read n s i rest :
  gate_inv n s -> Gate.unread s = i :: rest ->
  gate_inv n (Gate.read s) /\ (work_left (Gate.read s) + 1 = work_left s)%nat.
Proof.
  intros I Hun.
  pose proof (inv_core n s I) as C.
  pose proof (inv_unread n s I) as Hseq. rewrite Hun in Hseq.
  pose proof (inv_le n s I) as Hle.
  pose proof (inv_fifo n s I) as Hfifo.
  destruct (n - rows_read s)%nat as [|m] eqn:Em; [discriminate|].
  simpl in Hseq. injection Hseq as Hi Hrest.
  unfold Gate.read, Gate.limit. rewrite Hun.
  cbn [Gate.unread Gate.waiting Gate.running Gate.log Gate.clock].
  destruct (List.length (Gate.running s) <? Gate.concurrencyLimit)%nat eqn:Elt.
  - apply Nat.ltb_lt in Elt.
    assert (Hw : Gate.waiting s = []).
    { destruct (inv_full n s I) as [Hw|Hf]; [exact Hw|lia]. }
    assert (Hrr : rows_read
                    (Gate.start i (Gate.mkSched rest (Gate.waiting s) (Gate.running s)
                                     (Gate.log s) (Gate.clock s)))
                  = S (rows_read s)).
    { unfold rows_read. simpl. rewrite started_app, length_app. simpl. lia. }
    split.
    + constructor.
      * apply core_start.
        -- eapply core_same; [| |exact C]; reflexivity.
        -- simpl. exact Elt.
        -- simpl. intros Hin.
           apply (core_running_started s i C) in Hin.
           apply (started_lt n s i I) in Hin. lia.
      * rewrite Hrr. simpl. rewrite Hrest. f_equal. lia.
      * rewrite Hrr. lia.
      * rewrite Hrr, seq_S. simpl. rewrite started_app. simpl.
        rewrite Hw in *. rewrite app_nil_r in *. rewrite Hfifo, Hi.
        reflexivity.
      * left. simpl. exact Hw.
    + unfold work_left. simpl. rewrite Hun, length_app. simpl. lia.
  - apply Nat.ltb_ge in Elt.
    pose proof (core_bound s C) as Hb.
    assert (Hrr : rows_read
                    (Gate.mkSched rest (Gate.waiting s ++ [i]) (Gate.running s)
                       (Gate.log s) (Gate.clock s))
                  = S (rows_read s)).
    { unfold rows_read. simpl. rewrite length_app. simpl. lia. }
    split.
    + constructor.
      * eapply core_same; [| |exact C]; reflexivity.
      * rewrite Hrr. simpl. rewrite Hrest. f_equal. lia.
      * rewrite Hrr. lia.
      * rewrite Hrr, seq_S. simpl. rewrite app_assoc, Hfifo, Hi.
        reflexivity.
      * right. simpl. lia.
    + unfold work_left. simpl. rewrite Hun, length_app. simpl. lia.
Qed.

Lemma inv_settle n s j :
  gate_inv n s -> (j < List.length (Gate.running s))%nat ->
  gate_inv n (Gate.settle j s) /\ (work_left (Gate.settle j s) + 1 = work_left s)%nat.
Proof.
  intros I Hj.
  pose proof (inv_core n s I) as C.
  pose proof (core_finish s j C Hj) as C1.
  pose proof (core_bound s C) as Hb.
  unfold Gate.settle.
  cbn [Gate.unread Gate.waiting Gate.running Gate.log Gate.clock].
  set (s1 := Gate.mkSched (Gate.unread s) (Gate.waiting s)
               (remove_nth j (Gate.running s))
               (Gate.log s ++ [Finish (nth j (Gate.running s) 0%nat)])
               (Gate.clock s)) in *.
  assert (Hst : started (Gate.log s1) = started (Gate.log s)).
  { unfold s1. simpl. rewrite started_app. simpl. apply app_nil_r. }
  assert (Hlen1 : List.length (Gate.running s1) = Nat.pred (List.length (Gate.running s))).
  { unfold s1. simpl. apply remove_nth_length. exact Hj. }
  destruct (Gate.waiting s) as [|n0 q] eqn:Ew.
  - assert (Hrr : rows_read s1 = rows_read s).
    { unfold rows_read. rewrite Hst. unfold s1. simpl. rewrite Ew. reflexivity. }
    split.
    + constructor.
      * exact C1.
      * rewrite Hrr. unfold s1. simpl. apply (inv_unread n s I).
      * rewrite Hrr. apply (inv_le n s I).
      * rewrite Hrr, Hst. unfold s1. simpl. rewrite <- Ew. apply (inv_fifo n s I).
      * left. reflexivity.
    + unfold work_left. rewrite Hlen1. unfold s1. simpl. rewrite Ew. simpl. lia.
  - set (s2 := Gate.mkSched (Gate.unread s) q (remove_nth j (Gate.running s))
                 (Gate.log s ++ [Finish (nth j (Gate.running s) 0%nat)])
                 (Gate.clock s)).
    assert (Hfull : List.length (Gate.running s) = Gate.concurrencyLimit).
    { destruct (inv_full n s I) as [Hw|Hf]; [rewrite Ew in Hw; discriminate|exact Hf]. }
    assert (Hrr : rows_read (Gate.start n0 s2) = rows_read s).
    { unfold rows_read. simpl. rewrite !started_app, !length_app, Ew. simpl. lia. }
    split.
    + constructor.
      * apply core_start.
        -- eapply core_same; [| |exact C1]; reflexivity.
        -- unfold s2. simpl. rewrite remove_nth_length by assumption. lia.
        -- unfold s2. simpl. intros Hin. apply remove_nth_In in Hin.
           apply (core_running_started s n0 C) in Hin.
           apply (waiting_not_started n s I n0); [rewrite Ew; left; reflexivity|exact Hin].
      * rewrite Hrr. simpl. apply (inv_unread n s I).
      * rewrite Hrr. apply (inv_le n s I).
      * rewrite Hrr. simpl. rewrite !started_app. simpl. rewrite app_nil_r.
        rewrite <- app_assoc. simpl. rewrite <- Ew. apply (inv_fifo n s I).
      * right. simpl. rewrite length_app, remove_nth_length by assumption.
        simpl. lia.
    + unfold work_left. simpl. rewrite length_app, remove_nth_length by assumption.
      rewrite Ew. simpl. lia.
Qed.

Lemma inv_tick n s : gate_inv n s -> gate_inv n (Gate.tick s).
Proof.
  intros [C H1 H2 H3 H4]. constructor; try assumption.
  eapply core_same; [| |exact C]; reflexivity.
Qed.

Lemma inv_step n s :
  gate_inv n s ->
  gate_inv n (Gate.step choice s) /\
  (work_left (Gate.step choice s) = Nat.pred (work_left s))%nat.
Proof.
  intros I. unfold Gate.step.
  destruct (Gate.unread s) as [|i rest] eqn:Eun.
  - destruct (Gate.running s) as [|r rs] eqn:Erun.
    + split; [exact I|].
      unfold work_left. rewrite Eun, Erun.
      destruct (inv_full n s I) as [Hw|Hf].
      * rewrite Hw. reflexivity.
      * rewrite Erun in Hf. discriminate Hf.
    + rewrite <- Erun.
      assert (Hj : (choice (Gate.clock s) mod List.length (Gate.running s)
                    < List.length (Gate.running s))%nat).
      { apply Nat.mod_upper_bound. rewrite Erun. simpl. lia. }
      destruct (inv_settle n s _ I Hj) as [I' Hw].
      split; [apply inv_tick; exact I'|].
      change (work_left (Gate.tick ?x)) with (work_left x). lia.
  - assert (Hj : (choice (Gate.clock s) mod S (List.length (Gate.running s))
                  < S (List.length (Gate.running s)))%nat).
    { apply Nat.mod_upper_bound. lia. }
    destruct (choice (Gate.clock s) mod S (List.length (Gate.running s)))%nat as [|j'].
    + destruct (inv_read n s i rest I Eun) as [I' Hw].
      split; [apply inv_tick; exact I'|].
      change (work_left (Gate.tick ?x)) with (work_left x). lia.
    + assert (Hj' : (j' < List.length (Gate.running s))%nat) by lia.
      destruct (inv_settle n s j' I Hj') as [I' Hw].
      split; [apply inv_tick; exact I'|].
      change (work_left (Gate.tick ?x)) with (work_left x). lia.
Qed.

Lemma inv_run n : forall fuel s,
  gate_inv n s ->
  gate_inv n (Gate.run choice fuel s) /\
  (work_left (Gate.run choice fuel s) = work_left s - fuel)%nat.
Proof.
  induction fuel as [|fuel IH]; intros s I; simpl.
  - split; [exact I|lia].
  - destruct (inv_step n s I) as [I' Hw].
    destruct (IH _ I') as [I'' Hw'].
    split; [exact I''|]. rewrite Hw', Hw. lia.
Qed.

Lemma inv_init n : gate_inv n (Gate.mkSched (seq 0 n) [] [] [] 0%nat).
Proof.
  constructor; [constructor|..]; simpl; try reflexivity.
  - constructor.
  - unfold Gate.concurrencyLimit. lia.
  - unfold peak. simpl. unfold Gate.concurrencyLimit. lia.
  - unfold rows_read. simpl. rewrite Nat.sub_0_r. reflexivity.
  - unfold rows_read. simpl. lia.
  - left. reflexivity.
Qed.

(** Every schedule of the gate variant drains: all rows are read, every
    classification is started once, in the order of the rows, and settled
    once, and never more than [concurrencyLimit] are in flight. *)
Lemma schedule_spec (rows : list Row) :
  let s := Gate.schedule choice rows in
  Gate.unread s = [] /\ Gate.waiting s = [] /\ Gate.running s = [] /\
  started (Gate.log s) = seq 0 (List.length rows) /\
  Permutation (finished (Gate.log s)) (seq 0 (List.length rows)) /\
  inflight (Gate.log s) = [] /\
  (peak (Gate.log s) <= Gate.concurrencyLimit)%nat.
Proof.
  intros s.
  destruct (inv_run (List.length rows) (2 * List.length rows)
              (Gate.mkSched (seq 0 (List.length rows)) [] [] [] 0%nat)
              (inv_init _)) as [I Hw].
  fold (Gate.schedule choice rows) in I, Hw. fold s in I, Hw.
  unfold work_left at 2 in Hw. simpl in Hw. rewrite length_seq in Hw.
  assert (Hz : work_left s = 0%nat) by lia.
  unfold work_left in Hz.
  assert (Hu : Gate.unread s = []) by (apply length_zero_iff_nil; lia).
  assert (Hq : Gate.waiting s = []) by (apply length_zero_iff_nil; lia).
  assert (Hr : Gate.running s = []) by (apply length_zero_iff_nil; lia).
  pose proof (inv_core _ s I) as C.
  pose proof (inv_unread _ s I) as Hseq.
  pose proof (inv_le _ s I) as Hle.
  pose proof (inv_fifo _ s I) as Hfifo.
  rewrite Hu in Hseq. rewrite Hq, app_nil_r in Hfifo.
  assert (Hk : rows_read s = List.length rows).
  { destruct (List.length rows - rows_read s)%nat eqn:E; [lia|discriminate]. }
  rewrite Hk in Hfifo.
  repeat split; try assumption.
  - rewrite <- Hfifo. pose proof (core_perm s C) as Hp.
    rewrite Hr, app_nil_r in Hp. exact Hp.
  - rewrite <- (core_running s C). exact Hr.
  - apply (core_peak s C).
Qed.

End GateFacts.

(** * Properties of objects *)

Section ObjFacts.

Lemma has_In o k : Obj.has o k = true <-> In k (Obj.keys o).
Proof.
  unfold Obj.has. rewrite existsb_exists. split.
  - intros (x & Hin & E). apply String.eqb_eq in E. subst x. exact Hin.
  - intros Hin. exists k. split; [exact Hin|apply String.eqb_refl].
Qed.

Lemma has_cons k0 v0 o k :
  Obj.has ((k0, v0) :: o) k = String.eqb k0 k || Obj.has o k.
Proof. unfold Obj.has. simpl. rewrite (String.eqb_sym k k0). reflexivity. Qed.

Lemma get_absent o k : ~ In k (Obj.keys o) -> Obj.get o k = Obj.inherited k.
Proof.
  induction o as [|[k0 v0] o IH]; simpl; intros H; [reflexivity|].
  destruct (String.eqb k0 k) eqn:E.
  - apply String.eqb_eq in E. exfalso. apply H. left. exact E.
  - apply IH. intros Hin. apply H. right. exact Hin.
Qed.

Lemma get_update o k v k' :
  Obj.has o k = true ->
  Obj.get (Obj.update o k v) k' = if String.eqb k k' then v else Obj.get o k'.
Proof.
  induction o as [|[k0 v0] o IH]; intros H; [discriminate H|].
  rewrite has_cons in H. simpl.
  destruct (String.eqb k0 k) eqn:E0; simpl.
  - apply String.eqb_eq in E0. subst k0.
    destruct (String.eqb k k'); reflexivity.
  - simpl in H. rewrite (IH H).
    destruct (String.eqb k0 k') eqn:E1; [|reflexivity].
    apply String.eqb_eq in E1. subst k'. rewrite String.eqb_sym, E0. reflexivity.
Qed.

Lemma get_insert o k v k' :
  Obj.has o k = false ->
  Obj.get (Obj.insert o k v) k' = if String.eqb k k' then v else Obj.get o k'.
Proof.
  induction o as [|[k0 v0] o IH]; intros H; [reflexivity|].
  rewrite has_cons in H. apply orb_false_iff in H. destruct H as [E0 H].
  cbn [Obj.insert]. destruct (Obj.precedes k k0); [reflexivity|].
  cbn [Obj.get]. rewrite (IH H).
  destruct (String.eqb k0 k') eqn:E1; [|reflexivity].
  apply String.eqb_eq in E1. subst k'. rewrite String.eqb_sym, E0. reflexivity.
Qed.

Lemma get_set o k v k' :
  Obj.get (Obj.set o k v) k' = if String.eqb k k' then v else Obj.get o k'.
Proof.
  unfold Obj.set. destruct (Obj.has o k) eqn:E.
  - apply get_update. exact E.
  - apply get_insert. exact E.
Qed.

Lemma keys_update o k v : Obj.keys (Obj.update o k v) = Obj.keys o.
Proof.
  unfold Obj.keys.
  induction o as [|[k0 v0] o IH]; simpl; [reflexivity|].
  destruct (String.eqb k0 k); simpl; [reflexivity|].
  rewrite IH. reflexivity.
Qed.

Lemma keys_insert_In o k v x :
  In x (Obj.keys (Obj.insert o k v)) <-> x = k \/ In x (Obj.keys o).
Proof.
  unfold Obj.keys.
  induction o as [|[k0 v0] o IH]; simpl.
  - split; intros [E|[]]; left; symmetry; exact E.
  - destruct (Obj.precedes k k0); simpl.
    + split; [intros [E|H]; [left; symmetry; exact E|right; exact H]|].
      intros [E|H]; [left; symmetry; exact E|right; exact H].
    + rewrite IH. tauto.
Qed.

Lemma keys_insert_NoDup o k v :
  ~ In k (Obj.keys o) -> NoDup (Obj.keys o) -> NoDup (Obj.keys (Obj.insert o k v)).
Proof.
  induction o as [|[k0 v0] o IH]; simpl; intros Hk H.
  - constructor; [intros []|constructor].
  - destruct (Obj.precedes k k0); simpl.
    + constructor; [exact Hk|exact H].
    + apply NoDup_cons_iff in H. destruct H as [Hk0 Ho].
      constructor.
      * intros Hin. apply keys_insert_In in Hin. destruct Hin as [E|Hin].
        -- apply Hk. left. exact E.
        -- contradiction.
      * apply IH; [|exact Ho]. intros Hin. apply Hk. right. exact Hin.
Qed.

Lemma keys_set_In o k v x :
  In x (Obj.keys (Obj.set o k v)) <-> x = k \/ In x (Obj.keys o).
Proof.
  unfold Obj.set. destruct (Obj.has o k) eqn:E.
  - rewrite keys_update. apply has_In in E. split; [tauto|].
    intros [H|H]; [subst x; exact E|exact H].
  - apply keys_insert_In.
Qed.

Lemma keys_set_NoDup o k v : NoDup (Obj.keys o) -> NoDup (Obj.keys (Obj.set o k v)).
Proof.
  intros H. unfold Obj.set. destruct (Obj.has o k) eqn:E.
  - rewrite keys_update. exact H.
  - apply keys_insert_NoDup; [|exact H].
    intros Hin. apply has_In in Hin. rewrite Hin in E. discriminate.
Qed.

(** Setting a property keeps what holds of every value. *)
Lemma set_Forall (P : Js.value -> Prop) o k v :
  P v -> Forall (fun kv => P (snd kv)) o -> Forall (fun kv => P (snd kv)) (Obj.set o k v).
Proof.
  intros Hv Ho. unfold Obj.set. destruct (Obj.has o k).
  - induction Ho as [|[k0 v0] o Hk0 Ho IHo]; simpl; [constructor|].
    destruct (String.eqb k0 k); constructor; assumption.
  - induction Ho as [|[k0 v0] o Hk0 Ho IHo]; simpl.
    + constructor; [exact Hv|constructor].
    + destruct (Obj.precedes k k0).
      * constructor; [exact Hv|]. constructor; assumption.
      * constructor; assumption.
Qed.

Lemma keys_assign_NoDup o k c : NoDup (Obj.keys o) -> NoDup (Obj.keys (Obj.assign o k c)).
Proof.
  intros H. unfold Obj.assign. destruct (String.eqb k "__proto__"); [exact H|].
  apply keys_set_NoDup. exact H.
Qed.

Lemma keys_obj_of_row_NoDup (data : Row) : NoDup (Obj.keys (obj_of_row data)).
Proof.
  unfold obj_of_row.
  assert (H : forall o, NoDup (Obj.keys o) ->
              NoDup (Obj.keys (fold_left (fun o kv => Obj.assign o (fst kv) (snd kv)) data o))).
  { induction data as [|kv data IH]; intros o Ho; simpl; [exact Ho|].
    apply IH. apply keys_assign_NoDup. exact Ho. }
  apply H. constructor.
Qed.

Lemma get_spread_absent src : forall o k,
  ~ In k (Obj.keys src) -> Obj.get (Obj.spread o src) k = Obj.get o k.
Proof.
  unfold Obj.spread.
  induction src as [|[k1 v1] src IH]; intros o k H; simpl; [reflexivity|].
  rewrite IH by (intros Hin; apply H; right; exact Hin).
  rewrite get_set. destruct (String.eqb k1 k) eqn:E; [|reflexivity].
  apply String.eqb_eq in E. exfalso. apply H. left. exact E.
Qed.

Lemma get_spread_present src : forall o k,
  NoDup (Obj.keys src) -> In k (Obj.keys src) ->
  Obj.get (Obj.spread o src) k = Obj.get src k.
Proof.
  induction src as [|[k1 v1] src IH]; intros o k Hnd Hin; [destruct Hin|].
  simpl in Hnd. apply NoDup_cons_iff in Hnd. destruct Hnd as [Hk1 Hnd].
  change (Obj.spread o ((k1, v1) :: src)) with (Obj.spread (Obj.set o k1 v1) src).
  simpl. destruct (String.eqb k1 k) eqn:E.
  - apply String.eqb_eq in E. subst k1.
    rewrite get_spread_absent by exact Hk1.
    rewrite get_set, String.eqb_refl. reflexivity.
  - apply IH; [exact Hnd|].
    destruct Hin as [E'|Hin]; [|exact Hin].
    simpl in E'. subst k1. rewrite String.eqb_refl in E. discriminate.
Qed.

(** A property of the row wins over the same property of the object it is
    spread over; a property the row lacks is left as it was. *)
Lemma get_spread_row o (data : Row) k :
  Obj.get (Obj.spread o (obj_of_row data)) k =
    if existsb (String.eqb k) (Obj.keys (obj_of_row data))
    then field data k
    else Obj.get o k.
Proof.
  unfold field.
  destruct (existsb (String.eqb k) (Obj.keys (obj_of_row data))) eqn:E.
  - apply existsb_exists in E. destruct E as (x & Hin & Ex).
    apply String.eqb_eq in Ex. subst x.
    apply get_spread_present; [apply keys_obj_of_row_NoDup|exact Hin].
  - apply get_spread_absent. intros Hin.
    assert (H : existsb (String.eqb k) (Obj.keys (obj_of_row data)) = true).
    { apply existsb_exists. exists k. split; [exact Hin|apply String.eqb_refl]. }
    rewrite H in E. discriminate.
Qed.

End ObjFacts.

(** * The records the schedulers collect *)

Section CollectFacts.

Variable nets : nat -> nat -> string -> Options -> Outcome.
Variable cheerio : Body -> Loaded.
Variable choice : nat -> nat.

Lemma map_Ok_Forall2 {A B} (f : A -> Result B) : forall l rs,
  map Ok rs = map f l -> Forall2 (fun x r => f x = Ok r) l rs.
Proof.
  induction l as [|x l IH]; intros rs H; destruct rs as [|r rs]; simpl in H;
    try discriminate; constructor.
  - injection H as H1 H2. symmetry. exact H1.
  - apply IH. injection H as H1 H2. exact H2.
Qed.

Lemma indexed_length {A} (l : list A) : forall i, List.length (indexed i l) = List.length l.
Proof. induction l as [|x l IH]; intros i; simpl; [|rewrite IH]; reflexivity. Qed.

Lemma indexed_Forall {A} (P : A -> Prop) (l : list A) : forall i,
  Forall P l -> Forall (fun p => P (snd p)) (indexed i l).
Proof.
  induction l as [|x l IH]; intros i H; simpl; constructor.
  - apply Forall_inv in H. exact H.
  - apply IH. apply Forall_inv_tail in H. exact H.
Qed.

Lemma batch_record_clientId t record :
  Batch.classify nets cheerio t = Ok record ->
  Obj.get record "clientId" = Batch.clientId t.
Proof.
  unfold Batch.classify.
  destruct (fst (processURL_any (nets (Batch.index t)) cheerio (Batch.url t) world0));
    [|discriminate].
  intros H. injection H as H. subst record. reflexivity.
Qed.

Lemma batch_collect_spec (rows : list Row) :
  Forall (fun data => is_string (field data "URL") = true) rows ->
  exists records tr,
    Batch.collect nets cheerio choice rows = (Ok records, tr) /\
    Forall2 (fun p record =>
               Batch.classify nets cheerio (batch_task p) = Ok record /\
               Obj.get record "clientId" = field (snd p) "ClientId")
      (indexed 0 rows) records /\
    started tr = seq 0 (List.length rows) /\
    Permutation (finished tr) (seq 0 (List.length rows)) /\
    inflight tr = [] /\
    (peak tr <= Batch.concurrencyLimit)%nat.
Proof.
  intros Hrows. unfold Batch.collect.
  destruct (loop_spec nets cheerio choice rows 0 0 [] [] [] Hrows)
    as (rs & tr & E & Hrs & Hin & Hst & Hfin & Hpk);
    try reflexivity; try constructor.
  { unfold Batch.concurrencyLimit. simpl. lia. }
  exists rs, tr. simpl in *.
  repeat split; try assumption.
  rewrite map_map in Hrs.
  apply (map_Ok_Forall2 (fun p => Batch.classify nets cheerio (batch_task p))) in Hrs.
  clear -Hrs. induction Hrs as [|p r l rs H _ IH]; constructor; [|exact IH].
  split; [exact H|].
  apply batch_record_clientId in H. exact H.
Qed.

Lemma gate_classify_Ok (p : nat * Row) :
  is_string (field (snd p) "Website URL") = true ->
  exists record, Gate.classify nets cheerio p = Ok record.
Proof.
  intros H. unfold Gate.classify.
  destruct (field (snd p) "Website URL") as [| |s|]; try discriminate.
  simpl.
  destruct (processURL_total (nets (fst p)) cheerio s world0) as (r & w' & E).
  rewrite E. simpl. eauto.
Qed.

(** Every cell of a row is found unchanged in its record. *)
Lemma gate_record_field (p : nat * Row) record k :
  Gate.classify nets cheerio p = Ok record ->
  existsb (String.eqb k) (Obj.keys (obj_of_row (snd p))) = true ->
  Obj.get record k = field (snd p) k.
Proof.
  unfold Gate.classify.
  destruct (fst (processURL_any (nets (fst p)) cheerio (field (snd p) "Website URL") world0));
    [|discriminate].
  intros H Hk. injection H as H. subst record.
  rewrite get_spread_row, Hk. reflexivity.
Qed.

Lemma field_absent (data : Row) k :
  existsb (String.eqb k) (Obj.keys (obj_of_row data)) = false ->
  field data k = Obj.inherited k.
Proof.
  intros H. unfold field. apply get_absent. intros Hin.
  assert (E : existsb (String.eqb k) (Obj.keys (obj_of_row data)) = true).
  { apply existsb_exists. exists k. split; [exact Hin|apply String.eqb_refl]. }
  rewrite E in H. discriminate.
Qed.

Lemma gate_record_id (p : nat * Row) record :
  Gate.classify nets cheerio p = Ok record ->
  Obj.get record "Record ID" = field (snd p) "Record ID".
Proof.
  intros H.
  destruct (existsb (String.eqb "Record ID") (Obj.keys (obj_of_row (snd p)))) eqn:Ek.
  - apply (gate_record_field p record _ H Ek).
  - rewrite (field_absent _ _ Ek).
    revert H. unfold Gate.classify.
    destruct (fst (processURL_any (nets (fst p)) cheerio (field (snd p) "Website URL") world0));
      [|discriminate].
    intros H. injection H as H. subst record.
    rewrite get_spread_row, Ek. reflexivity.
Qed.

Lemma gate_collect_spec (rows : list Row) :
  Forall (fun data => is_string (field data "Website URL") = true) rows ->
  exists records tr,
    Gate.collect nets cheerio choice rows = (Ok records, tr) /\
    Forall2 (fun p record =>
               Gate.classify nets cheerio p = Ok record /\
               Obj.get record "Record ID" = field (snd p) "Record ID")
      (indexed 0 rows) records /\
    started tr = seq 0 (List.length rows) /\
    Permutation (finished tr) (seq 0 (List.length rows)) /\
    inflight tr = [] /\
    (peak tr <= Gate.concurrencyLimit)%nat.
Proof.
  intros Hrows. unfold Gate.collect.
  destruct (all_Ok (Gate.classify nets cheerio) (indexed 0 rows)) as (rs & E1 & E2).
  { apply (indexed_Forall _ rows 0) in Hrows.
    eapply Forall_impl; [|exact Hrows]. intros p Hp. apply gate_classify_Ok. exact Hp. }
  destruct (schedule_spec choice rows) as (_ & _ & _ & Hst & Hfin & Hin & Hpk).
  rewrite E1. eexists; eexists. split; [reflexivity|].
  repeat split; try assumption.
  apply map_Ok_Forall2 in E2.
  clear -E2. induction E2 as [|p r l rs H _ IH]; constructor; [|exact IH].
  split; [exact H|]. apply gate_record_id. exact H.
Qed.

End CollectFacts.

(** * Properties of the metrics *)

Section MetricsFacts.

Variable nets : nat -> nat -> string -> Options -> Outcome.
Variable cheerio : Body -> Loaded.
Variable choice : nat -> nat.

Lemma processURL_flags net url w r w' :
  processURL net cheerio url w = (Ok r, w') ->
  Bool.le (isPasswordProtected r) (isActive r) /\ Bool.le (isActive r) (isShopify r).
Proof.
  intros E.
  destruct (processURL_stages net cheerio url w) as (s & w1 & _ & H).
  destruct (sc_isShopify s).
  - destruct H as (a & w2 & _ & H). destruct a.
    + destruct H as (p & w3 & _ & H). rewrite H in E.
      injection E as E _. subst r. simpl. destruct p; split; reflexivity.
    + rewrite H in E. injection E as E _. subst r. split; reflexivity.
  - rewrite H in E. injection E as E _. subst r. split; reflexivity.
Qed.

Lemma processURL_any_flags net v w r w' :
  processURL_any net cheerio v w = (Ok r, w') ->
  Bool.le (isPasswordProtected r) (isActive r) /\ Bool.le (isActive r) (isShopify r).
Proof.
  destruct v as [|b|s|]; simpl; try discriminate.
  apply processURL_flags.
Qed.

Lemma filter_length_le {A} (f g : A -> bool) (l : list A) :
  Forall (fun x => Bool.le (f x) (g x)) l ->
  (List.length (filter f l) <= List.length (filter g l))%nat.
Proof.
  induction 1 as [|x l Hx _ IH]; simpl; [lia|].
  destruct (f x), (g x); simpl in *; try lia; try discriminate.
Qed.

Lemma metrics_ordered (data : list Obj.t) :
  Forall flags_ordered data ->
  passwordProtectedStores (computeMetrics data) <= activeStores (computeMetrics data) /\
  activeStores (computeMetrics data) <= shopifyStores (computeMetrics data).
Proof.
  intros H. unfold computeMetrics, countWhere. simpl. split; apply inj_le.
  - apply filter_length_le. eapply Forall_impl; [|exact H]. intros row [H1 _]. exact H1.
  - apply filter_length_le. eapply Forall_impl; [|exact H]. intros row [_ H2]. exact H2.
Qed.

Lemma all_Ok_inv {A B} (f : A -> Result B) : forall l rs,
  all (map f l) = Ok rs -> map Ok rs = map f l.
Proof.
  induction l as [|x l IH]; intros rs H; simpl in *.
  - injection H as H. subst rs. reflexivity.
  - destruct (f x) as [b|e]; [|discriminate].
    destruct (all (map f l)) as [l'|e]; [|discriminate].
    injection H as H. subst rs. simpl. rewrite (IH l' eq_refl). reflexivity.
Qed.

Lemma batch_record_ordered t record :
  Batch.classify nets cheerio t = Ok record -> flags_ordered record.
Proof.
  unfold Batch.classify.
  destruct (processURL_any (nets (Batch.index t)) cheerio (Batch.url t) world0)
    as [[r|e] w'] eqn:E; simpl; [|discriminate].
  intros H. injection H as H. subst record.
  apply processURL_any_flags in E. exact E.
Qed.

Lemma gate_record_ordered (p : nat * Row) record :
  no_flag_columns (snd p) = true ->
  Gate.classify nets cheerio p = Ok record -> flags_ordered record.
Proof.
  intros Hno. unfold Gate.classify.
  destruct (processURL_any (nets (fst p)) cheerio (field (snd p) "Website URL") world0)
    as [[r|e] w'] eqn:E; simpl; [|discriminate].
  intros H. injection H as H. subst record.
  apply processURL_any_flags in E.
  unfold no_flag_columns in Hno. cbn [forallb] in Hno.
  apply andb_true_iff in Hno. destruct Hno as [H1 Hno].
  apply andb_true_iff in Hno. destruct Hno as [H2 Hno].
  apply andb_true_iff in Hno. destruct Hno as [H3 _].
  apply negb_true_iff in H1, H2, H3.
  unfold flags_ordered. rewrite !get_spread_row, H1, H2, H3. exact E.
Qed.

(** The records of the batching variant, whenever it hands any to
    [writeCSV], have ordered flags. *)
Lemma batch_loop_ordered : forall rows i batch results tr out tr',
  Forall flags_ordered results ->
  Batch.loop nets cheerio choice rows i batch results tr = (Ok out, tr') ->
  Forall flags_ordered out.
Proof.
  assert (Hbatch : forall batch tr rs tr',
             Batch.runBatch nets cheerio choice batch tr = (Ok rs, tr') ->
             Forall flags_ordered rs).
  { intros batch tr rs tr' H. unfold Batch.runBatch in H.
    injection H as H _. apply all_Ok_inv in H.
    apply map_Ok_Forall2 in H.
    induction H as [|t r l rs' Ht _ IH]; constructor; [|exact IH].
    eapply batch_record_ordered. exact Ht. }
  induction rows as [|data rows IH]; intros i batch results tr out tr' Hres H;
    cbn [Batch.loop] in H.
  - destruct (0 <? List.length batch)%nat.
    + destruct (Batch.runBatch nets cheerio choice batch tr) as [[rs|e] tr1] eqn:E;
        [|discriminate].
      injection H as H _. subst out.
      apply Forall_app. split; [exact Hres|]. eapply Hbatch. exact E.
    + injection H as H _. subst out. exact Hres.
  - match type of H with
    | context [Batch.runBatch nets cheerio choice ?b tr] => set (batch' := b) in *
    end.
    destruct (Batch.concurrencyLimit <=? List.length batch')%nat.
    + destruct (Batch.runBatch nets cheerio choice batch' tr) as [[rs|e] tr1] eqn:E;
        [|discriminate].
      eapply IH; [|exact H].
      apply Forall_app. split; [exact Hres|]. eapply Hbatch. exact E.
    + eapply IH; [exact Hres|exact H].
Qed.

End MetricsFacts.

(** * Runs that succeed and runs that fail *)

Section RunFacts.

Variable nets : nat -> nat -> string -> Options -> Outcome.
Variable cheerio : Body -> Loaded.

Lemma all_app {A} (l1 l2 : list (Result A)) :
  all (l1 ++ l2) =
    match all l1 with
    | Ok a =>
        match all l2 with
        | Ok b => Ok (a ++ b)%list
        | Throw e => Throw e
        end
    | Throw e => Throw e
    end.
Proof.
  induction l1 as [|[a|e] l1 IH]; simpl.
  - destruct (all l2); reflexivity.
  - rewrite IH. destruct (all l1); [|reflexivity]. destruct (all l2); reflexivity.
  - reflexivity.
Qed.

Lemma all_length {A} (l : list (Result A)) rs :
  all l = Ok rs -> List.length rs = List.length l.
Proof.
  revert rs. induction l as [|[a|e] l IH]; intros rs H; simpl in H.
  - injection H as H. subst rs. reflexivity.
  - destruct (all l) as [l'|e]; [|discriminate].
    injection H as H. subst rs. simpl. rewrite (IH l' eq_refl). reflexivity.
  - discriminate.
Qed.

(** The records of the reading loop are those of one [Promise.all] over the
    batch at hand and the rows still to come. *)
Lemma batch_loop_results choice : forall rows i batch results tr,
  fst (Batch.loop nets cheerio choice rows i batch results tr) =
    match all (map (Batch.classify nets cheerio) (batch ++ map batch_task (indexed i rows))) with
    | Ok rs => Ok (results ++ rs)%list
    | Throw e => Throw e
    end.
Proof.
  induction rows as [|data rows IH]; intros i batch results tr; cbn [Batch.loop].
  - cbn [indexed map]. rewrite app_nil_r.
    destruct (0 <? List.length batch)%nat eqn:E.
    + unfold Batch.runBatch.
      destruct (all (map (Batch.classify nets cheerio) batch)); reflexivity.
    + apply Nat.ltb_ge in E. destruct batch; [|simpl in E; lia].
      simpl. rewrite app_nil_r. reflexivity.
  - match goal with
    | |- context [Batch.runBatch nets cheerio choice ?b tr] => set (batch' := b)
    end.
    replace (batch ++ map batch_task (indexed i (data :: rows)))%list
      with (batch' ++ map batch_task (indexed (S i) rows))%list
      by (unfold batch'; rewrite <- app_assoc; reflexivity).
    destruct (Batch.concurrencyLimit <=? List.length batch')%nat.
    + unfold Batch.runBatch. rewrite map_app, all_app.
      destruct (all (map (Batch.classify nets cheerio) batch')) as [rs1|e]; [|reflexivity].
      cbn [fst]. rewrite IH. simpl.
      destruct (all (map (Batch.classify nets cheerio) (map batch_task (indexed (S i) rows))));
        [rewrite app_assoc|]; reflexivity.
    + apply IH.
Qed.

(** What is read from a row under a name is a cell, which is a string, or
    what is read from an object without such a property. *)
Lemma field_string_or_missing (data : Row) k :
  field data k = Obj.inherited k \/ exists s, field data k = Js.VStr s.
Proof.
  unfold field, obj_of_row.
  assert (H : forall o,
             Forall (fun kv => exists s, snd kv = Js.VStr s) o ->
             Forall (fun kv => exists s, snd kv = Js.VStr s)
               (fold_left (fun o kv => Obj.assign o (fst kv) (snd kv)) data o)).
  { induction data as [|kv data IH]; intros o Ho; simpl; [exact Ho|].
    apply IH. unfold Obj.assign. destruct (String.eqb (fst kv) "__proto__"); [exact Ho|].
    apply (set_Forall (fun v => exists s, v = Js.VStr s)); [eexists; reflexivity|exact Ho]. }
  specialize (H [] (Forall_nil _)).
  induction H as [|[k0 v0] o Hk0 Ho IHo]; simpl; [left; reflexivity|].
  destruct (String.eqb k0 k); [|exact IHo].
  right. exact Hk0.
Qed.

Lemma batch_classify_cases (p : nat * Row) :
  (is_string (field (snd p) "URL") = true /\
   exists record, Batch.classify nets cheerio (batch_task p) = Ok record) \/
  (is_string (field (snd p) "URL") = false /\
   Batch.classify nets cheerio (batch_task p) = Throw no_url_error).
Proof.
  destruct (field_string_or_missing (snd p) "URL") as [E|(s & E)].
  - change (Obj.inherited "URL") with Js.VUndef in E.
    right. unfold Batch.classify, batch_task. simpl. rewrite E. split; reflexivity.
  - left. rewrite E. split; [reflexivity|].
    apply classify_Ok. simpl. rewrite E. reflexivity.
Qed.

Lemma gate_classify_cases (p : nat * Row) :
  (is_string (field (snd p) "Website URL") = true /\
   exists record, Gate.classify nets cheerio p = Ok record) \/
  (is_string (field (snd p) "Website URL") = false /\
   Gate.classify nets cheerio p = Throw no_url_error).
Proof.
  destruct (field_string_or_missing (snd p) "Website URL") as [E|(s & E)].
  - change (Obj.inherited "Website URL") with Js.VUndef in E.
    right. unfold Gate.classify. rewrite E. split; reflexivity.
  - left. rewrite E. split; [reflexivity|].
    apply gate_classify_Ok. rewrite E. reflexivity.
Qed.

(** [Promise.all] over calls that can only fail with one error. *)
Lemma all_one_error {A B} (f : A -> Result B) (ok : A -> bool) (e0 : Error) (l : list A) :
  (forall x, (ok x = true /\ exists b, f x = Ok b) \/ (ok x = false /\ f x = Throw e0)) ->
  if forallb ok l
  then exists rs, all (map f l) = Ok rs /\ List.length rs = List.length l
  else all (map f l) = Throw e0.
Proof.
  intros H. induction l as [|x l IH]; simpl.
  - exists []. split; reflexivity.
  - destruct (H x) as [(Hok & b & Hb)|(Hok & Hb)]; rewrite Hok, Hb; simpl; [|reflexivity].
    destruct (forallb ok l).
    + destruct IH as (rs & E & Hl). rewrite E. exists (b :: rs). simpl. rewrite Hl.
      split; reflexivity.
    + rewrite IH. reflexivity.
Qed.

Lemma forallb_indexed {A} (ok : A -> bool) (l : list A) : forall i,
  forallb (fun p => ok (snd p)) (indexed i l) = forallb ok l.
Proof. induction l as [|x l IH]; intros i; simpl; [|rewrite IH]; reflexivity. Qed.

Lemma batch_collect_cases choice (rows : list Row) :
  if forallb (fun data => is_string (field data "URL")) rows
  then exists records,
         fst (Batch.collect nets cheerio choice rows) = Ok records /\
         List.length records = List.length rows
  else fst (Batch.collect nets cheerio choice rows) = Throw no_url_error.
Proof.
  unfold Batch.collect. rewrite batch_loop_results. simpl. rewrite map_map.
  pose proof (all_one_error (fun p => Batch.classify nets cheerio (batch_task p))
                (fun p => is_string (field (snd p) "URL")) no_url_error
                (indexed 0 rows) batch_classify_cases) as H.
  assert (Hf : forallb (fun p : nat * Row => is_string (field (snd p) "URL")) (indexed 0 rows)
               = forallb (fun data => is_string (field data "URL")) rows)
    by apply (forallb_indexed (fun data => is_string (field data "URL"))).
  rewrite Hf in H.
  destruct (forallb (fun data => is_string (field data "URL")) rows).
  - destruct H as (rs & E & Hl). rewrite E. exists rs. split; [reflexivity|].
    rewrite Hl. apply indexed_length.
  - rewrite H. reflexivity.
Qed.

Lemma gate_collect_cases choice (rows : list Row) :
  if forallb (fun data => is_string (field data "Website URL")) rows
  then exists records,
         fst (Gate.collect nets cheerio choice rows) = Ok records /\
         List.length records = List.length rows
  else fst (Gate.collect nets cheerio choice rows) = Throw no_url_error.
Proof.
  unfold Gate.collect. cbn [fst].
  pose proof (all_one_error (Gate.classify nets cheerio)
                (fun p => is_string (field (snd p) "Website URL")) no_url_error
                (indexed 0 rows) gate_classify_cases) as H.
  assert (Hf : forallb (fun p : nat * Row => is_string (field (snd p) "Website URL"))
                 (indexed 0 rows)
               = forallb (fun data => is_string (field data "Website URL")) rows)
    by apply (forallb_indexed (fun data => is_string (field data "Website URL"))).
  rewrite Hf in H.
  destruct (forallb (fun data => is_string (field data "Website URL")) rows).
  - destruct H as (rs & E & Hl). rewrite E. exists rs. split; [reflexivity|].
    rewrite Hl. apply indexed_length.
  - exact H.
Qed.

End RunFacts.

(** * The records, row by row *)

Section RecordFacts.

Variable nets : nat -> nat -> string -> Options -> Outcome.
Variable cheerio : Body -> Loaded.
Variable choice : nat -> nat.

Lemma keys_assign_In o k0 c0 k :
  In k (Obj.keys (Obj.assign o k0 c0)) <->
  In k (Obj.keys o) \/ (k = k0 /\ k <> "__proto__").
Proof.
  unfold Obj.assign. destruct (String.eqb k0 "__proto__") eqn:E.
  - apply String.eqb_eq in E. subst k0. tauto.
  - apply String.eqb_neq in E. rewrite keys_set_In.
    split; [intros [H|H]; [right; subst k; split; [reflexivity|exact E]|left; exact H]|].
    intros [H|[H _]]; [right; exact H|left; exact H].
Qed.

Lemma keys_fold_In (data : Row) k : forall o,
  In k (Obj.keys (fold_left (fun o kv => Obj.assign o (fst kv) (snd kv)) data o)) <->
  In k (Obj.keys o) \/ (In k (map fst data) /\ k <> "__proto__").
Proof.
  induction data as [|[k0 c0] data IH]; intros o; simpl.
  - tauto.
  - rewrite IH, keys_assign_In. simpl. intuition congruence.
Qed.

Lemma existsb_In (k : string) (l : list string) :
  existsb (String.eqb k) l = true <-> In k l.
Proof.
  rewrite existsb_exists. split.
  - intros (x & Hin & E). apply String.eqb_eq in E. subst x. exact Hin.
  - intros Hin. exists k. split; [exact Hin|apply String.eqb_refl].
Qed.

(** The keys of a row object are the names of its columns, except that a
    column named [__proto__] leaves no property. *)
Lemma has_column (data : Row) k :
  existsb (String.eqb k) (Obj.keys (obj_of_row data))
  = existsb (String.eqb k) (map fst data) && negb (String.eqb k "__proto__").
Proof.
  assert (H : In k (Obj.keys (obj_of_row data)) <-> In k (map fst data) /\ k <> "__proto__").
  { unfold obj_of_row. rewrite keys_fold_In. simpl. tauto. }
  destruct (existsb (String.eqb k) (Obj.keys (obj_of_row data))) eqn:E.
  - apply existsb_In, H in E. destruct E as [E1 E2].
    apply existsb_In in E1. apply String.eqb_neq in E2. rewrite E1, E2. reflexivity.
  - destruct (existsb (String.eqb k) (map fst data)) eqn:E1; [|reflexivity].
    destruct (String.eqb k "__proto__") eqn:E2; [reflexivity|].
    apply existsb_In in E1. apply String.eqb_neq in E2.
    assert (C : existsb (String.eqb k) (Obj.keys (obj_of_row data)) = true)
      by (apply existsb_In, H; split; assumption).
    rewrite C in E. discriminate.
Qed.

(** The record the batching variant makes of a row with a URL cell. *)
Lemma batch_classify_string (p : nat * Row) u :
  field (snd p) "URL" = Js.VStr u ->
  exists result,
    fst (processURL (nets (fst p)) cheerio u world0) = Ok result /\
    Batch.classify nets cheerio (batch_task p) = Ok (batch_record (snd p) result).
Proof.
  intros Hu.
  destruct (processURL_total (nets (fst p)) cheerio u world0) as (result & w' & E).
  exists result. rewrite E. split; [reflexivity|].
  unfold Batch.classify, batch_task. cbn [Batch.index Batch.url Batch.clientId].
  rewrite Hu. cbn [processURL_any]. rewrite E. cbn [fst].
  unfold batch_record. rewrite Hu. reflexivity.
Qed.

(** The record the admission-gate variant makes of a row with a URL cell. *)
Lemma gate_classify_string (p : nat * Row) u :
  field (snd p) "Website URL" = Js.VStr u ->
  exists result record,
    fst (processURL (nets (fst p)) cheerio u world0) = Ok result /\
    Gate.classify nets cheerio p = Ok record /\
    forall k, Obj.get record k = record_value (snd p) result k.
Proof.
  intros Hu.
  destruct (processURL_total (nets (fst p)) cheerio u world0) as (result & w' & E).
  exists result. eexists. rewrite E. split; [reflexivity|].
  unfold Gate.classify. rewrite Hu. cbn [processURL_any]. rewrite E. cbn [fst].
  split; [reflexivity|].
  intros k. rewrite get_spread_row, has_column. unfold record_value, own_fields.
  rewrite Hu.
  destruct (existsb (String.eqb k) (map fst (snd p))) eqn:E1; [|reflexivity].
  destruct (String.eqb k "__proto__") eqn:E2; [|reflexivity].
  apply String.eqb_eq in E2. subst k. cbn [andb negb].
  rewrite (field_absent (snd p) "__proto__"); [reflexivity|].
  rewrite has_column. apply andb_false_r.
Qed.

Lemma string_cell (v : Js.value) : is_string v = true -> exists u, v = Js.VStr u.
Proof. destruct v as [| |u|]; try discriminate. eauto. Qed.

(** What [runBatch] adds to the trace, whatever its classifications
    yield. *)
Lemma runBatch_trace (batch : list Batch.Task) tr :
  NoDup (map Batch.index batch) ->
  inflight tr = [] ->
  inflight (snd (Batch.runBatch nets cheerio choice batch tr)) = [] /\
  peak (snd (Batch.runBatch nets cheerio choice batch tr))
    = Nat.max (peak tr) (List.length batch).
Proof.
  intros Hnd Hin. unfold Batch.runBatch. cbn [snd].
  destruct (settle_all_spec choice (List.length (map Batch.index batch))
              (map Batch.index batch)
              (tr ++ map Start (map Batch.index batch))%list) as (H1 & _ & _ & H4).
  - exact Hnd.
  - rewrite inflight_app, Hin, fold_after_starts. reflexivity.
  - lia.
  - split; [exact H1|].
    rewrite H4, peak_app, Hin, peak_from_starts. simpl.
    rewrite length_map. reflexivity.
Qed.

(** Whatever the rows hold, no batch exceeds the limit and nothing is left
    in flight. *)
Lemma loop_trace : forall rows i b0 batch results tr,
  i = (b0 + List.length batch)%nat ->
  map Batch.index batch = seq b0 (List.length batch) ->
  (List.length batch < Batch.concurrencyLimit)%nat ->
  inflight tr = [] ->
  inflight (snd (Batch.loop nets cheerio choice rows i batch results tr)) = [] /\
  (peak (snd (Batch.loop nets cheerio choice rows i batch results tr))
   <= Nat.max (peak tr) Batch.concurrencyLimit)%nat.
Proof.
  induction rows as [|data rows IH]; intros i b0 batch results tr Hi Hidx Hlen Hin;
    cbn [Batch.loop].
  - destruct (0 <? List.length batch)%nat.
    + destruct (runBatch_trace batch tr) as (H1 & H2);
        [rewrite Hidx; apply seq_NoDup|exact Hin|].
      destruct (Batch.runBatch nets cheerio choice batch tr) as [[rs|e] tr1];
        cbn [snd] in *; (split; [exact H1|lia]).
    + cbn [snd]. split; [exact Hin|lia].
  - set (batch' := (batch ++ [Batch.mkTask i (field data "URL") (field data "ClientId")])%list).
    assert (Hlen' : List.length batch' = S (List.length batch))
      by (unfold batch'; rewrite length_app; simpl; lia).
    assert (Hidx' : map Batch.index batch' = seq b0 (List.length batch')).
    { rewrite Hlen'. unfold batch'. rewrite map_app. cbn [map Batch.index].
      rewrite Hidx, Hi. rewrite seq_S. reflexivity. }
    destruct (Batch.concurrencyLimit <=? List.length batch')%nat eqn:E.
    + apply Nat.leb_le in E.
      destruct (runBatch_trace batch' tr) as (H1 & H2);
        [rewrite Hidx'; apply seq_NoDup|exact Hin|].
      destruct (Batch.runBatch nets cheerio choice batch' tr) as [[rs|e] tr1];
        cbn [snd] in *.
      * destruct (IH (S i) (S i) [] (results ++ rs)%list tr1) as (F1 & F2);
          try assumption; try reflexivity;
          try (simpl; unfold Batch.concurrencyLimit; lia).
        split; [exact F1|]. unfold Batch.concurrencyLimit in *. lia.
      * split; [exact H1|]. unfold Batch.concurrencyLimit in *. lia.
    + apply Nat.leb_gt in E.
      apply (IH (S i) b0 batch' results tr); try assumption; lia.
Qed.

Lemma record_value_other (data : Row) result k :
  own_field k = false -> record_value data result k = field data k.
Proof.
  intros H. unfold record_value.
  destruct (existsb (String.eqb k) (map fst data)) eqn:E; [reflexivity|].
  assert (E' : existsb (String.eqb k) (Obj.keys (obj_of_row data)) = false)
    by (rewrite has_column, E; reflexivity).
  rewrite (field_absent _ _ E').
  unfold own_field in H. cbn [existsb] in H.
  repeat (apply orb_false_iff in H; destruct H as [?E H]).
  unfold own_fields. cbn [Obj.get].
  rewrite (String.eqb_sym "recordId"), (String.eqb_sym "url"), (String.eqb_sym "isShopify"),
    (String.eqb_sym "isActive"), (String.eqb_sym "isPasswordProtected").
  rewrite E0, E1, E2, E3, E4. reflexivity.
Qed.

Lemma inherits_nothing k : inherits k = false -> Obj.inherited k = Js.VUndef.
Proof. unfold inherits. destruct (Obj.inherited k); try discriminate. reflexivity. Qed.

Lemma shown_cell (data : Row) k :
  inherits k = false ->
  Js.to_string (Js.or (field data k) (Js.VStr "")) = cell_or_empty data k.
Proof.
  intros Hk. unfold cell_or_empty, Js.or.
  destruct (field_string_or_missing data k) as [E|(c & E)]; rewrite E.
  - rewrite (inherits_nothing k Hk). reflexivity.
  - simpl. unfold Js.truthy_str. destruct (String.eqb c "") eqn:Ec; [|reflexivity].
    apply String.eqb_eq in Ec. subst c. reflexivity.
Qed.

Lemma join_values_or {A} (g : A -> Js.value) (d : A -> string) (l : list A) :
  join_values "," (map (fun x => Js.or (g x) (Js.VStr (d x))) l) =
  Js.join "," (map (fun x => Js.to_string (Js.or (g x) (Js.VStr (d x)))) l).
Proof.
  unfold join_values. rewrite map_map. f_equal. apply map_ext. intros x.
  unfold Js.or. destruct (g x) as [|b|c|t]; simpl; [reflexivity| | |reflexivity].
  - destruct b; reflexivity.
  - destruct (Js.truthy_str c); reflexivity.
Qed.

(** The line printed for a record, told from its row. *)
Lemma line_of_record (extraColumns : list Js.value) (data : Row) result record :
  (forall k, Obj.get record k = record_value data result k) ->
  Gate.line extraColumns record = shown_line (map Js.to_string extraColumns) data result.
Proof.
  intros H. unfold Gate.line, shown_line. rewrite !H.
  rewrite (record_value_other data result "Record ID") by reflexivity.
  rewrite (record_value_other data result "Website URL") by reflexivity.
  repeat (apply f_equal2; [reflexivity|]). apply f_equal2.
  - rewrite (join_values_or (fun col => Obj.get record (fst col)) snd).
    unfold Gate.expectedColumns. cbn [map fst snd].
    rewrite !H.
    repeat (rewrite record_value_other by reflexivity).
    repeat (rewrite shown_cell by reflexivity). reflexivity.
  - apply f_equal2; [reflexivity|].
    rewrite (join_values_or (fun col => Obj.get record (Js.to_string col)) (fun _ => "")).
    rewrite map_map. f_equal. apply map_ext. intros c. rewrite H.
    destruct (own_field (Js.to_string c)) eqn:E; [reflexivity|].
    destruct (inherits (Js.to_string c)) eqn:E'; [reflexivity|].
    rewrite (record_value_other _ _ _ E). apply shown_cell. exact E'.
Qed.

Lemma incomplete_lacking (data : Row) : Gate.incomplete data = lacking data.
Proof.
  unfold Gate.incomplete, lacking, cell_or_empty.
  destruct (field_string_or_missing data "Website URL") as [E1|(c1 & E1)];
    destruct (field_string_or_missing data "Record ID") as [E2|(c2 & E2)];
    rewrite E1, E2; simpl; unfold Js.truthy_str; rewrite ?negb_involutive; reflexivity.
Qed.

Lemma get_assign o k0 c0 k :
  k0 <> "__proto__" ->
  Obj.get (Obj.assign o k0 c0) k = if String.eqb k0 k then Js.VStr c0 else Obj.get o k.
Proof.
  intros H. unfold Obj.assign. apply String.eqb_neq in H. rewrite H. apply get_set.
Qed.

Lemma get_fold_absent (data : Row) k : forall o,
  ~ In k (map fst data) ->
  Obj.get (fold_left (fun o kv => Obj.assign o (fst kv) (snd kv)) data o) k
  = Obj.get o k.
Proof.
  induction data as [|[k0 c0] data IH]; intros o Hk; simpl; [reflexivity|].
  rewrite IH by (intros Hin; apply Hk; right; exact Hin).
  unfold Obj.assign. destruct (String.eqb k0 "__proto__"); [reflexivity|].
  rewrite get_set. destruct (String.eqb k0 k) eqn:E; [|reflexivity].
  apply String.eqb_eq in E. exfalso. apply Hk. left. exact E.
Qed.

(** Under distinct column names, a row object holds each cell under the
    name of its column, but for a column named [__proto__]. *)
Lemma field_of_cell (data : Row) k c :
  NoDup (map fst data) -> In (k, c) data -> k <> "__proto__" ->
  field data k = Js.VStr c.
Proof.
  intros Hnd Hin Hk. revert Hnd Hin.
  unfold field, obj_of_row. generalize (@nil (string * Js.value)) as o.
  induction data as [|[k0 c0] data IH]; intros o Hnd Hin; [destruct Hin|].
  simpl in Hnd. apply NoDup_cons_iff in Hnd. destruct Hnd as [Hk0 Hnd].
  cbn [fold_left fst snd]. destruct Hin as [E|Hin].
  - injection E as E1 E2. subst k0 c0.
    rewrite get_fold_absent by exact Hk0.
    rewrite (get_assign o k c k Hk), String.eqb_refl. reflexivity.
  - apply IH; assumption.
Qed.

Lemma Forall2_map_r {A B C} (P : A -> B -> Prop) (Q : A -> C -> Prop) (f : B -> C) :
  forall l rs,
    (forall x r, P x r -> Q x (f r)) ->
    Forall2 P l rs -> Forall2 Q l (map f rs).
Proof.
  intros l rs H F. induction F as [|x r l rs Hx _ IH]; simpl; constructor.
  - apply H. exact Hx.
  - exact IH.
Qed.

End RecordFacts.

(** * Claims about the scheduler and the report *)

(** C8, as the code has it.  In every run, whatever the rows hold, never
    more classifications are in flight than the limit allows: 10 when
    batching, 20 behind the gate.  When every row has a URL cell, both
    schedulers classify every row and hand over exactly one record per row,
    in the order of the rows; the record of a row carries the identifier of
    that row and the three flags [processURL] returned for the URL of that
    row on the network of that row (in the gate variant a cell of the row
    takes precedence over a field of the same name); every classification
    has been started and has settled, none is left in flight.  When some
    row has no URL cell, its classification throws and the run fails with
    that error: no record is handed over, not even those of the rows that
    were classified. *)
Theorem scheduler_bounded_and_complete
    (nets : nat -> nat -> string -> Options -> Outcome)
    (cheerio : Body -> Loaded) (choice : nat -> nat) (rows : list Row) :
  (peak (snd (Batch.collect nets cheerio choice rows)) <= 10)%nat /\
  (peak (snd (Gate.collect nets cheerio choice rows)) <= 20)%nat /\
  (if forallb (fun data => is_string (field data "URL")) rows
   then
     exists records tr,
       Batch.collect nets cheerio choice rows = (Ok records, tr) /\
       Forall2 (fun p record =>
                  exists u result,
                    field (snd p) "URL" = Js.VStr u /\
                    fst (processURL (nets (fst p)) cheerio u world0) = Ok result /\
                    record = [("clientId", field (snd p) "ClientId");
                              ("url", Js.VStr u);
                              ("isShopify", Js.VBool (isShopify result));
                              ("isActive", Js.VBool (isActive result));
                              ("isPasswordProtected",
                               Js.VBool (isPasswordProtected result))])
         (indexed 0 rows) records /\
       started tr = seq 0 (List.length rows) /\
       Permutation (finished tr) (seq 0 (List.length rows)) /\
       inflight tr = []
   else
     fst (Batch.collect nets cheerio choice rows)
     = Throw (TypeError "Cannot read properties of undefined")) /\
  (if forallb (fun data => is_string (field data "Website URL")) rows
   then
     exists records tr,
       Gate.collect nets cheerio choice rows = (Ok records, tr) /\
       Forall2 (fun p record =>
                  exists u result,
                    field (snd p) "Website URL" = Js.VStr u /\
                    fst (processURL (nets (fst p)) cheerio u world0) = Ok result /\
                    Obj.get record "Record ID" = field (snd p) "Record ID" /\
                    forall k, Obj.get record k = record_value (snd p) result k)
         (indexed 0 rows) records /\
       started tr = seq 0 (List.length rows) /\
       Permutation (finished tr) (seq 0 (List.length rows)) /\
       inflight tr = []
   else
     fst (Gate.collect nets cheerio choice rows)
     = Throw (TypeError "Cannot read properties of undefined")).
Proof.
  split; [|split; [|split]].
  - unfold Batch.collect.
    destruct (loop_trace nets cheerio choice rows 0 0 [] [] []) as (_ & H);
      try reflexivity.
    { unfold Batch.concurrencyLimit. simpl. lia. }
    unfold Batch.concurrencyLimit in H. simpl in H. exact H.
  - destruct (schedule_spec choice rows) as (_ & _ & _ & _ & _ & _ & Hpk).
    exact Hpk.
  - destruct (forallb (fun data => is_string (field data "URL")) rows) eqn:Hall.
    + assert (Hrows : Forall (fun data => is_string (field data "URL") = true) rows)
        by (apply Forall_forall; apply forallb_forall; exact Hall).
      destruct (batch_collect_spec nets cheerio choice rows Hrows)
        as (records & tr & E & HF & Hst & Hfin & Hin & _).
      exists records, tr. repeat split; try assumption.
      apply (indexed_Forall _ rows 0) in Hrows.
      clear -HF Hrows. induction HF as [|p r l rs [Hc _] _ IH]; constructor.
      * apply Forall_inv in Hrows. apply string_cell in Hrows. destruct Hrows as (u & Hu).
        destruct (batch_classify_string nets cheerio p u Hu) as (result & Hp & Hr).
        exists u, result. split; [exact Hu|]. split; [exact Hp|].
        rewrite Hr in Hc. injection Hc as Hc. subst r.
        unfold batch_record. rewrite Hu. reflexivity.
      * apply IH. apply Forall_inv_tail in Hrows. exact Hrows.
    + pose proof (batch_collect_cases nets cheerio choice rows) as C.
      rewrite Hall in C. exact C.
  - destruct (forallb (fun data => is_string (field data "Website URL")) rows) eqn:Hall.
    + assert (Hrows : Forall (fun data => is_string (field data "Website URL") = true) rows)
        by (apply Forall_forall; apply forallb_forall; exact Hall).
      destruct (gate_collect_spec nets cheerio choice rows Hrows)
        as (records & tr & E & HF & Hst & Hfin & Hin & _).
      exists records, tr. repeat split; try assumption.
      apply (indexed_Forall _ rows 0) in Hrows.
      clear -HF Hrows. induction HF as [|p r l rs [Hc Hid] _ IH]; constructor.
      * apply Forall_inv in Hrows. apply string_cell in Hrows. destruct Hrows as (u & Hu).
        destruct (gate_classify_string nets cheerio p u Hu) as (result & record & Hp & Hr & Hk).
        exists u, result. split; [exact Hu|]. split; [exact Hp|].
        rewrite Hr in Hc. injection Hc as Hc. subst r.
        split; [exact Hid|exact Hk].
      * apply IH. apply Forall_inv_tail in Hrows. exact Hrows.
    + pose proof (gate_collect_cases nets cheerio choice rows) as C.
      rewrite Hall in C. exact C.
Qed.

Lemma scheduler_bounded_and_complete_witness :
  (exists records tr,
      Batch.collect Input.nets_down Scenario.cheerio_password Input.mixed Input.clients
        = (Ok records, tr) /\
      List.length records = 12%nat /\ inflight tr = []) /\
  (exists records tr,
      Gate.collect Input.nets_down Scenario.cheerio_password Input.read_first Input.companies
        = (Ok records, tr) /\
      List.length records = 23%nat /\ inflight tr = []).
Proof.
  split.
  - pose proof (scheduler_bounded_and_complete
                  Input.nets_down Scenario.cheerio_password Input.mixed Input.clients)
      as (_ & _ & HB & _).
    change (forallb (fun data => is_string (field data "URL")) Input.clients)
      with true in HB.
    destruct HB as (records & tr & E & HF & _ & _ & Hin).
    exists records, tr. split; [exact E|]. split; [|exact Hin].
    apply Forall2_length in HF. symmetry. exact HF.
  - pose proof (scheduler_bounded_and_complete
                  Input.nets_down Scenario.cheerio_password Input.read_first Input.companies)
      as (_ & _ & _ & HG).
    change (forallb (fun data => is_string (field data "Website URL")) Input.companies)
      with true in HG.
    destruct HG as (records & tr & E & HF & _ & _ & Hin).
    exists records, tr. split; [exact E|]. split; [|exact Hin].
    apply Forall2_length in HF. symmetry. exact HF.
Defined.

(** C8 fails as stated: the schedulers can fail and drop every record.  In
    the batching variant, twelve rows followed by a row without URL cell:
    all thirteen classifications are started and settle, the last one by
    throwing, and the run ends with the error instead of records.  In the gate
    variant, a row with a URL followed by a row without. *)
Lemma row_without_url_fails_the_run :
  (exists tr,
      Batch.collect Input.nets_plain Scenario.cheerio_password Input.mixed
        (Input.clients ++ [Input.short_client])
        = (Throw (TypeError "Cannot read properties of undefined"), tr) /\
      started tr = seq 0 13 /\ inflight tr = []) /\
  fst (Gate.collect Input.nets_plain Scenario.cheerio_password Input.mixed
         [Input.company; Input.short_company])
    = Throw (TypeError "Cannot read properties of undefined").
Proof. split; [eexists; split; [|split]|]; vm_compute; reflexivity. Qed.

(** With the event loop that reads first, the gate is filled to its limit:
    twenty classifications are in flight while three rows wait. *)
Example gate_is_filled :
  peak (snd (Gate.collect Input.nets_down Scenario.cheerio_password
               Input.read_first Input.companies)) = 20%nat.
Proof. vm_compute. reflexivity. Qed.

Example batch_is_filled :
  peak (snd (Batch.collect Input.nets_down Scenario.cheerio_password
               Input.mixed Input.clients)) = 10%nat.
Proof. vm_compute. reflexivity. Qed.

(** C9, as the code has it.  Over any collected records the active and the
    inactive count add up to the total.  The counts are ordered
    (Shopify >= active >= password-protected) whenever the flags of every
    record are those the classifier returned: always in the batching
    variant, and in the gate variant when no column of the input is named
    like a flag, since there the cells of the row are spread over the result
    of the classification. *)
Theorem metrics_add_up_and_are_ordered
    (nets : nat -> nat -> string -> Options -> Outcome)
    (cheerio : Body -> Loaded) (choice : nat -> nat) :
  (forall data : list Obj.t,
      activeStores (computeMetrics data) + inactiveStores (computeMetrics data)
      = totalStores (computeMetrics data) /\
      inactiveStores (computeMetrics data)
      = totalStores (computeMetrics data) - activeStores (computeMetrics data)) /\
  (forall rows records,
      fst (Batch.collect nets cheerio choice rows) = Ok records ->
      passwordProtectedStores (computeMetrics records) <= activeStores (computeMetrics records) /\
      activeStores (computeMetrics records) <= shopifyStores (computeMetrics records)) /\
  (forall rows records,
      Forall (fun data => no_flag_columns data = true) rows ->
      fst (Gate.collect nets cheerio choice rows) = Ok records ->
      passwordProtectedStores (computeMetrics records) <= activeStores (computeMetrics records) /\
      activeStores (computeMetrics records) <= shopifyStores (computeMetrics records)).
Proof.
  split; [|split].
  - intros data. unfold computeMetrics. simpl. split; lia.
  - intros rows records H. apply metrics_ordered.
    unfold Batch.collect in H.
    destruct (Batch.loop nets cheerio choice rows 0 [] [] []) as [res tr] eqn:E.
    simpl in H. subst res.
    eapply batch_loop_ordered; [|exact E]. constructor.
  - intros rows records Hno H. apply metrics_ordered.
    unfold Gate.collect in H. simpl in H.
    apply all_Ok_inv in H. apply map_Ok_Forall2 in H.
    apply (indexed_Forall _ rows 0) in Hno.
    revert Hno. induction H as [|p r l rs Hp _ IH]; intros Hno; constructor.
    + apply Forall_inv in Hno. eapply gate_record_ordered; eassumption.
    + apply IH. apply Forall_inv_tail in Hno. exact Hno.
Qed.

Lemma metrics_add_up_and_are_ordered_witness :
  (exists records,
      fst (Batch.collect Input.nets_plain Scenario.cheerio_password Input.mixed Input.clients)
        = Ok records /\
      activeStores (computeMetrics records) <= shopifyStores (computeMetrics records)) /\
  (exists records,
      fst (Gate.collect Input.nets_plain Scenario.cheerio_password Input.mixed Input.companies)
        = Ok records /\
      activeStores (computeMetrics records) <= shopifyStores (computeMetrics records)).
Proof.
  pose proof (metrics_add_up_and_are_ordered
                Input.nets_plain Scenario.cheerio_password Input.mixed) as (_ & HB & HG).
  split.
  - eexists. split; [vm_compute; reflexivity|].
    refine (proj2 (HB Input.clients _ _)). vm_compute. reflexivity.
  - eexists. split; [vm_compute; reflexivity|].
    refine (proj2 (HG Input.companies _ _ _)).
    + repeat constructor.
    + vm_compute. reflexivity.
Defined.

(** C9 fails as stated in the gate variant: a row with a column named
    [isActive] is counted as active by its cell, whatever the classifier
    found; here the store is not a Shopify store and yet counts as active. *)
Lemma flag_column_breaks_the_order :
  exists records,
    fst (Gate.collect Input.nets_plain Scenario.cheerio_password Input.mixed [Input.flagged])
      = Ok records /\
    computeMetrics records = mkMetrics 1 0 1 0 0 /\
    shopifyStores (computeMetrics records) < activeStores (computeMetrics records).
Proof.
  eexists. split; [vm_compute; reflexivity|]. split; reflexivity.
Qed.

Section ReportFacts.

Variable nets : nat -> nat -> string -> Options -> Outcome.
Variable cheerio : Body -> Loaded.

(** The expected columns of a record are the cells of its row, present or
    not. *)
Lemma gate_record_expected (p : nat * Row) record col :
  Gate.classify nets cheerio p = Ok record ->
  In col (map fst Gate.expectedColumns) ->
  Obj.get record col = field (snd p) col.
Proof.
  intros H Hcol.
  destruct (existsb (String.eqb col) (Obj.keys (obj_of_row (snd p)))) eqn:Ek.
  - apply (gate_record_field nets cheerio p record col H Ek).
  - rewrite (field_absent _ _ Ek).
    revert H. unfold Gate.classify.
    destruct (fst (processURL_any (nets (fst p)) cheerio (field (snd p) "Website URL") world0));
      [|discriminate].
    intros H. injection H as H. subst record.
    rewrite get_spread_row, Ek.
    simpl in Hcol.
    repeat (destruct Hcol as [Hcol|Hcol]; [subst col; reflexivity|]).
    destruct Hcol.
Qed.

Lemma Forall2_indexed {A B} (P : A -> B -> Prop) (l : list A) : forall i rs,
  Forall2 (fun p r => P (snd p) r) (indexed i l) rs -> Forall2 P l rs.
Proof.
  induction l as [|x l IH]; intros i rs H; simpl in H; inversion H; subst;
    constructor.
  - assumption.
  - eapply IH. eassumption.
Qed.

End ReportFacts.

(** C7, as the code has it (gate variant).  When every row has a URL cell,
    empty or not, every row is classified, a row without URL or identifier
    included, and has its line in the table.  The record of a row holds
    every cell of the row unchanged.  The line of a row shows, after the
    identifier, the URL and the three flags, the cell of the row, or nothing
    when the cell is empty or missing, for each of the six expected columns
    and for each collected extra column; only for an extra column named
    like a field of the record ([recordId], [url] or a flag) a row without
    that column shows the field of the record instead, and likewise, for
    an extra column named like a property every object inherits
    ([constructor], [toString], ...), what is inherited.  A column named
    [__proto__] leaves no cell in the row object.  The rows whose URL
    or identifier is empty or missing are, in addition, appended to the
    report as the values of the row joined by commas, in the order of the
    rows, between the table and the metrics. *)
Theorem gate_report_carries_rows
    (nets : nat -> nat -> string -> Options -> Outcome)
    (cheerio : Body -> Loaded) (choice : nat -> nat) (rows : list Row) :
  Forall (fun data => is_string (field data "Website URL") = true) rows ->
  exists records lines,
    fst (Gate.collect nets cheerio choice rows) = Ok records /\
    Forall2 (fun p record =>
               (forall k, In k (map fst (snd p)) -> Obj.get record k = field (snd p) k) /\
               (forall k c, NoDup (map fst (snd p)) -> In (k, c) (snd p) ->
                            k <> "__proto__" -> Obj.get record k = Js.VStr c))
      (indexed 0 rows) records /\
    Forall2 (fun p line =>
               exists u result,
                 field (snd p) "Website URL" = Js.VStr u /\
                 fst (processURL (nets (fst p)) cheerio u world0) = Ok result /\
                 line =
                   Js.to_string (Js.or (field (snd p) "Record ID")
                                   (record_value (snd p) result "recordId")) ++ "," ++
                   Js.to_string (Js.or (field (snd p) "Website URL")
                                   (record_value (snd p) result "url")) ++ "," ++
                   Js.to_string (record_value (snd p) result "isShopify") ++ "," ++
                   Js.to_string (record_value (snd p) result "isActive") ++ "," ++
                   Js.to_string (record_value (snd p) result "isPasswordProtected") ++ "," ++
                   Js.join ","
                     (map (cell_or_empty (snd p))
                        ["Create Date"; "Number of Associated Contacts"; "City";
                         "Country/Region"; "Last Activity Date"; "Company owner"]) ++ "," ++
                   Js.join ","
                     (map (fun c =>
                             if own_field c || inherits c
                             then Js.to_string
                                    (Js.or (record_value (snd p) result c) (Js.VStr ""))
                             else cell_or_empty (snd p) c)
                        (map Js.to_string (Gate.collectExtraColumns rows))))
      (indexed 0 rows) lines /\
    fst (Gate.processCSV nets cheerio choice rows) =
      Ok (Text (Js.join newline
                  [join_values ","
                     (map Js.VStr
                        ["Record ID"; "Website URL"; "isShopify"; "isActive";
                         "isPasswordProtected"; "Create Date";
                         "Number of Associated Contacts"; "City"; "Country/Region";
                         "Last Activity Date"; "Company owner"]
                      ++ Gate.collectExtraColumns rows);
                   Js.join newline lines])
          :: map Text
               (map (fun data => join_values "," (Obj.values (obj_of_row data)))
                  (filter lacking rows))
          ++ [MetricsBlock (computeMetrics records)])%list.
Proof.
  intros Hrows.
  destruct (gate_collect_spec nets cheerio choice rows Hrows)
    as (records & tr & E & HF & _).
  assert (HR : Forall2 (fun p record =>
                          exists u result,
                            field (snd p) "Website URL" = Js.VStr u /\
                            fst (processURL (nets (fst p)) cheerio u world0) = Ok result /\
                            forall k, Obj.get record k = record_value (snd p) result k)
                 (indexed 0 rows) records).
  { apply (indexed_Forall _ rows 0) in Hrows.
    clear -HF Hrows. induction HF as [|p r l rs [Hc _] _ IH]; constructor.
    - apply Forall_inv in Hrows. apply string_cell in Hrows. destruct Hrows as (u & Hu).
      destruct (gate_classify_string nets cheerio p u Hu) as (result & record & Hp & Hr & Hk).
      exists u, result. rewrite Hr in Hc. injection Hc as Hc. subst r.
      split; [exact Hu|]. split; [exact Hp|exact Hk].
    - apply IH. apply Forall_inv_tail in Hrows. exact Hrows. }
  exists records, (map (Gate.line (Gate.collectExtraColumns rows)) records).
  split; [rewrite E; reflexivity|]. split; [|split].
  - eapply Forall2_impl; [|exact HR].
    intros p record (u & result & _ & _ & Hk).
    assert (Hcol : forall k, In k (map fst (snd p)) -> Obj.get record k = field (snd p) k).
    { intros k Hin. rewrite Hk. unfold record_value.
      match goal with
      | |- (if ?b then _ else _) = _ => assert (Hx : b = true)
      end.
      { apply existsb_exists. exists k. split; [exact Hin|apply String.eqb_refl]. }
      rewrite Hx. reflexivity. }
    split; [exact Hcol|].
    intros k c Hnd Hin Hproto. rewrite Hcol.
    + apply field_of_cell; assumption.
    + apply in_map_iff. exists (k, c). split; [reflexivity|exact Hin].
  - eapply Forall2_map_r; [|exact HR].
    intros p record (u & result & Hu & Hp & Hk).
    exists u, result. split; [exact Hu|]. split; [exact Hp|].
    rewrite (line_of_record _ (snd p) result record Hk). reflexivity.
  - unfold Gate.processCSV. rewrite E. cbn [fst].
    unfold Gate.writeCSV, Gate.extraRowsOf, Gate.headers, Gate.expectedColumns.
    cbn [map fst app].
    rewrite (filter_ext _ _ incomplete_lacking). reflexivity.
Qed.

Lemma gate_report_carries_rows_witness :
  exists (records : list Obj.t) (lines : list string),
    fst (Gate.collect Input.nets_down Scenario.cheerio_password Input.read_first
           [Input.company; Input.anonymous]) = Ok records /\
    List.length records = 2%nat /\ List.length lines = 2%nat.
Proof.
  destruct (gate_report_carries_rows
              Input.nets_down Scenario.cheerio_password Input.read_first
              [Input.company; Input.anonymous]) as (records & lines & E & HR & HL & _).
  - repeat constructor.
  - exists records, lines. split; [exact E|].
    apply Forall2_length in HR, HL. simpl in HR, HL. split; symmetry; assumption.
Defined.

(** A collected column named like a field of the record: the first row has
    a column [url], the second one has none and shows its URL there.  The
    second row has no further column at all, which adds [undefined] to the
    extra columns: an empty name in the header and an empty cell in every
    line. *)
Example own_field_shows_under_extra_column :
  fst (Gate.processCSV Input.nets_down Scenario.cheerio_password Input.read_first
         [Input.linked; Input.unlinked]) =
  Ok [Text (Js.join newline
              ["Record ID,Website URL,isShopify,isActive,isPasswordProtected,Create Date,Number of Associated Contacts,City,Country/Region,Last Activity Date,Company owner,url,";
               "1,a.example,false,false,false,,,,,,,https://a.example/about,";
               "2,b.example,false,false,false,,,,,,,b.example,"]);
      MetricsBlock (mkMetrics 2 0 0 0 2)].
Proof. vm_compute. reflexivity. Qed.

(** A collected column named like an inherited property: the second row
    has no such column and shows the inherited function there. *)
Example inherited_value_shows_under_extra_column :
  fst (Gate.processCSV Input.nets_down Scenario.cheerio_password Input.read_first
         [Input.stringy; Input.noted]) =
  Ok [Text (Js.join newline
              ["Record ID,Website URL,isShopify,isActive,isPasswordProtected,Create Date,Number of Associated Contacts,City,Country/Region,Last Activity Date,Company owner,toString,Notes";
               "3,c.example,false,false,false,,,,,,,yes,";
               "4,d.example,false,false,false,,,,,,,function toString() { [native code] },n/a"]);
      MetricsBlock (mkMetrics 2 0 0 0 2)].
Proof. vm_compute. reflexivity. Qed.

(** A column named [__proto__] leaves no property in the row object. *)
Example proto_column_is_dropped :
  Obj.keys (obj_of_row [("__proto__", "x"); ("Notes", "n/a")]) = ["Notes"] /\
  verbatim [("__proto__", "x"); ("Notes", "n/a")] = "n/a".
Proof. split; reflexivity. Qed.

(** [extraColumns.add(...keys)] keeps the first key only. *)
Example only_first_extra_column_is_collected :
  Gate.otherKeys Input.company = ["Notes"; "Phone"] /\
  Gate.collectExtraColumns [Input.company; Input.anonymous] = [Js.VStr "Notes"].
Proof. split; reflexivity. Qed.

(** C7 fails as stated.  The second row has no identifier: it is classified
    all the same and printed among the classified rows, and appended once
    more as it is.  Of the two further columns only the first one, [Notes],
    is collected: the cells of [Phone] of a classified row are not in the
    report. *)
Lemma incomplete_row_is_classified :
  Gate.processCSV Input.nets_down Scenario.cheerio_password Input.read_first
    [Input.company; Input.anonymous] =
  (Ok [Text (Js.join newline
               ["Record ID,Website URL,isShopify,isActive,isPasswordProtected,Create Date,Number of Associated Contacts,City,Country/Region,Last Activity Date,Company owner,Notes";
                "7,shop.example,false,false,false,,,,,,,vip";
                ",other.example,false,false,false,,,,,,,n/a"]);
       Text ",other.example,n/a,556";
       MetricsBlock (mkMetrics 2 0 0 0 2)],
   [Start 0; Start 1; Finish 0; Finish 1]).
Proof. vm_compute. reflexivity. Qed.

(** * Further properties of the transport *)

Section StringFacts.

Lemma append_assoc (a b c : string) : ((a ++ b) ++ c = a ++ (b ++ c))%string.
Proof. induction a as [|x a IH]; simpl; [|rewrite IH]; reflexivity. Qed.

Lemma prefix_append (p b : string) : String.prefix p (p ++ b) = true.
Proof.
  induction p as [|x p IH]; simpl.
  - destruct b; reflexivity.
  - destruct (ascii_dec x x) as [_|C]; [exact IH|contradiction].
Qed.

Lemma prefix_split (p s : string) :
  String.prefix p s = true -> exists b, s = (p ++ b)%string.
Proof.
  revert s. induction p as [|x p IH]; intros s H.
  - exists s. reflexivity.
  - destruct s as [|y s]; simpl in H; [discriminate|].
    destruct (ascii_dec x y) as [E|_]; [|discriminate].
    subst y. destruct (IH s H) as (b & Hb). exists b. simpl. rewrite <- Hb. reflexivity.
Qed.

Lemma includes_append (a t b : string) : Js.includes (a ++ t ++ b) t = true.
Proof.
  induction a as [|x a IH].
  - simpl String.append. destruct (t ++ b)%string eqn:E.
    + destruct t; [reflexivity|discriminate].
    + unfold Js.includes; fold Js.includes. rewrite <- E, prefix_append. reflexivity.
  - simpl String.append. unfold Js.includes; fold Js.includes.
    rewrite IH. apply orb_true_r.
Qed.

Lemma includes_split (s t : string) :
  Js.includes s t = true -> exists a b, s = (a ++ t ++ b)%string.
Proof.
  induction s as [|x s IH]; unfold Js.includes; fold Js.includes; intros H.
  - rewrite orb_false_r in H. destruct (prefix_split _ _ H) as (b & Hb).
    exists EmptyString, b. exact Hb.
  - apply orb_true_iff in H. destruct H as [H|H].
    + destruct (prefix_split _ _ H) as (b & Hb). exists EmptyString, b. exact Hb.
    + destruct (IH H) as (a & b & Hab). exists (String x a), b.
      simpl. rewrite <- Hab. reflexivity.
Qed.

End StringFacts.

Section RetryFacts.

Variable net : nat -> string -> Options -> Outcome.

(** What the loop adds to the world, whatever the retry count. *)
Lemma axiosRetry_loop_frame url options retries backoff : forall fuel i w,
  exists t,
    snd (axiosRetry_loop net fuel url options retries backoff i w)
      = mkWorld (calls w + List.length (gets t)) (trace w ++ t) /\
    (List.length (gets t) <= fuel)%nat /\
    Forall (eq (url, options)) (gets t) /\
    Forall (fun ms => exists k, i < k < retries /\ ms = backoff * k) (pauses t).
Proof.
  induction fuel as [|fuel IH]; intros i w.
  - exists []. simpl. rewrite Nat.add_0_r, app_nil_r. destruct w. repeat split; auto.
  - cbn [axiosRetry_loop]. destruct (i <? retries) eqn:Ei.
    + unfold try_catch, bind at 1, axios_get.
      destruct (net (calls w) url options) as [r|m r].
      * exists [Get url options]. simpl. repeat split; auto; try lia.
        f_equal. lia.
      * cbn. destruct (i <? retries - 1) eqn:Ei1.
        -- unfold bind, console, sleep, emit. cbn [calls trace].
           match goal with
           | |- context [axiosRetry_loop net fuel url options retries backoff (i + 1) ?w1] =>
               destruct (IH (i + 1) w1) as (t & Ht & Hlen & Hg & Hp)
           end.
           exists ([Get url options; Console (WarnRetrying url (i + 1) retries);
                    Sleep (backoff * (i + 1))] ++ t)%list.
           rewrite Ht. cbn [calls trace]. split; [|split; [|split]].
           ++ rewrite gets_app. simpl. f_equal; [lia|].
              repeat rewrite <- app_assoc. reflexivity.
           ++ rewrite gets_app. simpl. lia.
           ++ rewrite gets_app. simpl. constructor; [reflexivity|exact Hg].
           ++ rewrite pauses_app. simpl. constructor.
              ** exists (i + 1). apply Z.ltb_lt in Ei1. split; [lia|reflexivity].
              ** eapply Forall_impl; [|exact Hp].
                 intros ms (k & Hk & E). exists k. split; [lia|exact E].
        -- exists [Get url options]. simpl. repeat split; auto; try lia.
           f_equal. lia.
    + exists []. simpl. rewrite Nat.add_0_r, app_nil_r. destruct w. repeat split; auto; lia.
Qed.

(** When the first [j] attempts are rejected and the next one is answered,
    within the retry count, the loop returns that answer. *)
Lemma axiosRetry_loop_succeeds url options backoff r : forall j fuel i w,
  (j <= fuel)%nat ->
  (forall k, (k < j)%nat -> exists m r', net (calls w + k) url options = Rejected m r') ->
  net (calls w + j) url options = Resolved r ->
  axiosRetry_loop net (S fuel) url options (i + Z.of_nat (S fuel)) backoff i w =
    (Ok (Some (response_of url r)),
     mkWorld (calls w + S j)
       (trace w ++ Get url options
                   :: retry_events url options (i + Z.of_nat (S fuel)) backoff i j)).
Proof.
  induction j as [|j IH]; intros fuel i w Hj Hrej Hok.
  - rewrite Nat.add_0_r in Hok. cbn [axiosRetry_loop].
    replace (i <? i + Z.of_nat (S fuel)) with true by (symmetry; apply Z.ltb_lt; lia).
    unfold try_catch, bind, axios_get, ret. rewrite Hok. simpl.
    f_equal. f_equal. lia.
  - destruct fuel as [|fuel]; [lia|].
    destruct (Hrej 0%nat (Nat.lt_0_succ _)) as (m0 & r0 & E0).
    rewrite Nat.add_0_r in E0.
    set (R := i + Z.of_nat (S (S fuel))).
    set (w1 := mkWorld (S (calls w))
                 (((trace w ++ [Get url options])
                   ++ [Console (WarnRetrying url (i + 1) R)])
                  ++ [Sleep (backoff * (i + 1))])).
    assert (Hrun : axiosRetry_loop net (S fuel) url options R backoff (i + 1) w1 =
                   (Ok (Some (response_of url r)),
                    mkWorld (calls w1 + S j)
                      (trace w1 ++ Get url options
                                   :: retry_events url options R backoff (i + 1) j))).
    { replace R with (i + 1 + Z.of_nat (S fuel)) by (unfold R; lia).
      apply IH; [lia| |].
      - intros k Hk. destruct (Hrej (S k)) as (m' & r' & E'); [lia|].
        exists m', r'. unfold w1. simpl. rewrite <- E'. f_equal. lia.
      - unfold w1. simpl. rewrite <- Hok. f_equal. lia. }
    change (axiosRetry_loop net (S (S fuel)) url options R backoff i w)
      with ((if i <? R then
               try_catch (bind (axios_get net url options) (fun r => ret (Some r)))
                 (fun error =>
                    if i <? R - 1 then
                      bind (console (WarnRetrying url (i + 1) R))
                        (fun _ => bind (sleep (backoff * (i + 1)))
                           (fun _ => axiosRetry_loop net (S fuel) url options R backoff (i + 1)))
                    else throw error)
             else ret None) w).
    replace (i <? R) with true by (symmetry; apply Z.ltb_lt; unfold R; lia).
    replace (i <? R - 1) with true by (symmetry; apply Z.ltb_lt; unfold R; lia).
    unfold try_catch, bind at 1, axios_get. rewrite E0.
    unfold bind, console, sleep, emit. cbn [calls trace].
    fold w1. rewrite Hrun. f_equal. unfold w1. cbn [calls trace].
    f_equal; [lia|].
    cbn [retry_events]. repeat rewrite <- app_assoc. reflexivity.
Qed.

End RetryFacts.

(** X1. Whatever the retry count and the back-off unit, a call of
    [axiosRetry] only adds to the trace, issues at most [retries] requests,
    all of them for the URL and with the options it was given, and pauses
    only for [backoff * k] milliseconds with [0 < k < retries].  With a
    retry count of zero or less it issues no request at all and resolves to
    [undefined]. *)
Theorem axiosRetry_stays_within_retry_count
    (net : nat -> string -> Options -> Outcome) url options retries backoff w :
  (exists t,
      snd (axiosRetry net url options retries backoff w)
        = mkWorld (calls w + List.length (gets t)) (trace w ++ t) /\
      (List.length (gets t) <= Z.to_nat retries)%nat /\
      Forall (eq (url, options)) (gets t) /\
      Forall (fun ms => exists k, 0 < k < retries /\ ms = backoff * k) (pauses t)) /\
  (retries <= 0 -> axiosRetry net url options retries backoff w = (Ok None, w)).
Proof.
  split.
  - apply axiosRetry_loop_frame.
  - intros H. unfold axiosRetry.
    replace (Z.to_nat retries) with 0%nat by lia.
    reflexivity.
Qed.

Lemma axiosRetry_stays_within_retry_count_witness :
  axiosRetry Scenario.net_plain "http://shop.example" plainOptions 0 3000 world0
    = (Ok None, world0).
Proof.
  apply (proj2 (axiosRetry_stays_within_retry_count
                  Scenario.net_plain "http://shop.example" plainOptions 0 3000 world0)).
  lia.
Defined.

(** X2. For any retry count [R + 1] and any back-off unit: when the network
    rejects the first [R + 1] requests of a call, [axiosRetry] makes exactly
    [R + 1] requests, pauses [backoff * 1], ..., [backoff * R] milliseconds
    between them, and throws the error of the last attempt. *)
Theorem axiosRetry_surfaces_last_error
    (net : nat -> string -> Options -> Outcome) url options backoff (R : nat) w :
  (forall k, (k <= R)%nat -> exists m r, net (calls w + k)%nat url options = Rejected m r) ->
  exists m r,
    net (calls w + R)%nat url options = Rejected m r /\
    axiosRetry net url options (Z.of_nat (S R)) backoff w =
      (Throw (AxiosError m (option_map (fun r => mkResponse r url) r)),
       mkWorld (calls w + S R)%nat
         (trace w ++ Get url options
                     :: retry_events url options (Z.of_nat (S R)) backoff 0 R)).
Proof. apply axiosRetry_exhausted. Qed.

Lemma axiosRetry_surfaces_last_error_witness :
  exists m r,
    Scenario.net_down 2 "http://shop.example" plainOptions = Rejected m r /\
    axiosRetry Scenario.net_down "http://shop.example" plainOptions 3 1000 world0 =
      (Throw (AxiosError m (option_map (fun r => mkResponse r "http://shop.example") r)),
       mkWorld 3
         [Get "http://shop.example" plainOptions;
          Console (WarnRetrying "http://shop.example" 1 3);
          Sleep 1000;
          Get "http://shop.example" plainOptions;
          Console (WarnRetrying "http://shop.example" 2 3);
          Sleep 2000;
          Get "http://shop.example" plainOptions]).
Proof.
  apply (axiosRetry_surfaces_last_error
           Scenario.net_down "http://shop.example" plainOptions 1000 2 world0).
  intros k _. exists "ECONNREFUSED", None. reflexivity.
Defined.

(** X3. For any retry count [R + 1]: when the first [j] requests of a call
    are rejected and the next one is answered, with [j <= R], [axiosRetry]
    returns that answer after [j + 1] requests and pauses of [backoff * 1],
    ..., [backoff * j] milliseconds; earlier errors are not surfaced. *)
Theorem axiosRetry_returns_first_answer
    (net : nat -> string -> Options -> Outcome) url options backoff (R j : nat) r w :
  (j <= R)%nat ->
  (forall k, (k < j)%nat -> exists m r', net (calls w + k)%nat url options = Rejected m r') ->
  net (calls w + j)%nat url options = Resolved r ->
  axiosRetry net url options (Z.of_nat (S R)) backoff w =
    (Ok (Some (mkResponse r url)),
     mkWorld (calls w + S j)%nat
       (trace w ++ Get url options
                   :: retry_events url options (Z.of_nat (S R)) backoff 0 j)).
Proof.
  intros Hj Hrej Hok. unfold axiosRetry. rewrite Nat2Z.id.
  exact (axiosRetry_loop_succeeds net url options backoff r j R 0 w Hj Hrej Hok).
Qed.

Lemma axiosRetry_returns_first_answer_witness :
  axiosRetry Scenario.net_third_time_lucky "http://shop.example" plainOptions 3 3000 world0 =
    (Ok (Some (mkResponse Scenario.page_ok "http://shop.example")),
     mkWorld 3
       [Get "http://shop.example" plainOptions;
        Console (WarnRetrying "http://shop.example" 1 3);
        Sleep 3000;
        Get "http://shop.example" plainOptions;
        Console (WarnRetrying "http://shop.example" 2 3);
        Sleep 6000;
        Get "http://shop.example" plainOptions]).
Proof.
  apply (axiosRetry_returns_first_answer
           Scenario.net_third_time_lucky "http://shop.example" plainOptions 3000 2 2
           Scenario.page_ok world0).
  - lia.
  - intros k Hk. exists "timeout of 15000ms exceeded", None.
    destruct k as [|[|k]]; [reflexivity|reflexivity|lia].
  - reflexivity.
Defined.

(** * Further properties of the classifier *)

Section StageFrames.

Variable net : nat -> string -> Options -> Outcome.
Variable cheerio : Body -> Loaded.

(** What a call with the default retry count adds to the world. *)
Lemma default_retry_frame url options w :
  exists t,
    snd (axiosRetry net url options default_retries default_backoff w)
      = mkWorld (calls w + List.length (gets t)) (trace w ++ t) /\
    (1 <= List.length (gets t) <= 2)%nat /\
    Forall (eq (url, options)) (gets t) /\
    Forall (eq 3000) (pauses t) /\
    (List.length (pauses t) <= 1)%nat.
Proof.
  pose proof (axiosRetry_default_run net url options w) as R.
  inversion R as [r E1 Eout|m1 r1 r E1 E2 Eout|m1 r1 m2 r2 E1 E2 Eout].
  - exists [Get url options]. unfold after_get. simpl.
    repeat split; auto; try lia. f_equal. lia.
  - exists [Get url options; Console (WarnRetrying url 1 default_retries);
            Sleep (default_backoff * 1); Get url options].
    unfold after_retry. simpl. repeat split; auto; try lia. f_equal. lia.
  - exists [Get url options; Console (WarnRetrying url 1 default_retries);
            Sleep (default_backoff * 1); Get url options].
    unfold after_retry. simpl. repeat split; auto; try lia. f_equal. lia.
Qed.

(** After the request, the detection stage only writes to the console. *)
Lemma isShopifyStore_tail url w :
  exists c,
    snd (isShopifyStore net cheerio url w) =
      mkWorld (calls (snd (axiosRetry net url plainOptions default_retries default_backoff w)))
        (trace (snd (axiosRetry net url plainOptions default_retries default_backoff w))
         ++ map Console c).
Proof.
  unfold isShopifyStore, try_catch, bind.
  destruct (axiosRetry net url plainOptions default_retries default_backoff w)
    as [[[r|]|e] w1]; cbn [snd the_response throw ret].
  - destruct (hasMarker url); [exists []; simpl; rewrite world_same; reflexivity|].
    destruct (poweredByShopify r); [exists []; simpl; rewrite world_same; reflexivity|].
    unfold cheerio_load.
    destruct (cheerio (data r)) as [query|message]; cbn [snd throw ret].
    + exists []. simpl. rewrite world_same. reflexivity.
    + eexists [_]. reflexivity.
  - eexists [_]. reflexivity.
  - destruct (error_response e) as [r|].
    + destruct (poweredByShopify r).
      * exists []. simpl. rewrite app_nil_r. destruct w1; reflexivity.
      * destruct (status r =? 404); eexists [_]; reflexivity.
    + eexists [_]. reflexivity.
Qed.

Lemma checkURL_tail url w :
  exists c,
    snd (checkURL net url w) =
      mkWorld (calls (snd (axiosRetry net url plainOptions default_retries default_backoff w)))
        (trace (snd (axiosRetry net url plainOptions default_retries default_backoff w))
         ++ map Console c).
Proof.
  unfold checkURL, try_catch, bind.
  destruct (axiosRetry net url plainOptions default_retries default_backoff w)
    as [[[r|]|e] w1]; cbn [snd the_response throw ret].
  - exists []. simpl. rewrite app_nil_r. destruct w1; reflexivity.
  - eexists [_]. reflexivity.
  - destruct (error_response e) as [r|].
    + destruct (poweredByShopify r).
      * exists []. simpl. rewrite app_nil_r. destruct w1; reflexivity.
      * destruct (status r =? 404); eexists [_]; reflexivity.
    + eexists [_]. reflexivity.
Qed.

Lemma retried_stage_tail url w (w1 w' : World) c :
  retried_stage url w w1 ->
  w' = mkWorld (calls w1) (trace w1 ++ map Console c) ->
  retried_stage url w w'.
Proof.
  intros (t & E & Hn & Hg & Hp & Hl) E'. subst w1 w'.
  exists (t ++ map Console c)%list. cbn [calls trace].
  rewrite gets_app, pauses_app, gets_console, pauses_console, !app_nil_r, app_assoc.
  repeat split; auto; lia.
Qed.

Lemma isShopifyStore_frame url w :
  retried_stage url w (snd (isShopifyStore net cheerio url w)).
Proof.
  destruct (isShopifyStore_tail url w) as (c & E).
  eapply retried_stage_tail; [|exact E].
  apply default_retry_frame.
Qed.

Lemma checkURL_frame url w :
  retried_stage url w (snd (checkURL net url w)).
Proof.
  destruct (checkURL_tail url w) as (c & E).
  eapply retried_stage_tail; [|exact E].
  apply default_retry_frame.
Qed.

Lemma checkPasswordProtection_frame url w :
  exists t,
    snd (checkPasswordProtection net cheerio url w)
      = mkWorld (S (calls w)) (trace w ++ t) /\
    gets t = [(url, passwordOptions)] /\ pauses t = [].
Proof.
  unfold checkPasswordProtection, cheerio_load, try_catch, bind, console, emit,
    axios_get, ret, throw.
  cbn [calls trace].
  destruct (net (calls w) url passwordOptions) as [r|m [r|]];
    cbn [option_map error_response error_message reply status data request_res config_url].
  - destruct (request_res r) as [res|]; cbn [error_response error_message].
    + destruct (negb (Js.truthy (finalUrl res (mkResponse r url)))).
      * eexists. split; [cbn; repeat rewrite <- app_assoc; reflexivity|].
        split; reflexivity.
      * destruct (Js.endsWith (Js.to_string (finalUrl res (mkResponse r url))) "/password").
        -- destruct (cheerio (data r)) as [query|message];
             (eexists; split; [cbn; repeat rewrite <- app_assoc; reflexivity|];
              split; reflexivity).
        -- eexists. split; [cbn; repeat rewrite <- app_assoc; reflexivity|].
           split; reflexivity.
    + eexists. split; [cbn; repeat rewrite <- app_assoc; reflexivity|].
      split; reflexivity.
  - destruct ((status r =? 301) || (status r =? 302)); [|destruct (status r =? 404)];
      (eexists; split; [cbn; repeat rewrite <- app_assoc; reflexivity|];
       split; reflexivity).
  - eexists. split; [cbn; repeat rewrite <- app_assoc; reflexivity|].
    split; reflexivity.
Qed.

End StageFrames.

(** X4. [processURL] classifies the URL with a protocol in front.  A URL
    that starts with [http://] or with [https://] is left as it is, any
    other URL gets [http://] in front; so the normalised URL always starts
    with one of the two, normalising twice changes nothing, and classifying
    a URL or its normalised form is the same computation. *)
Theorem withProtocol_normalises
    (net : nat -> string -> Options -> Outcome)
    (cheerio : Body -> Loaded) url :
  withProtocol url =
    (if Js.startsWith url "http://" || Js.startsWith url "https://"
     then url
     else "http://" ++ url) /\
  Js.startsWith (withProtocol url) "http://" || Js.startsWith (withProtocol url) "https://"
    = true /\
  withProtocol (withProtocol url) = withProtocol url /\
  processURL net cheerio (withProtocol url) = processURL net cheerio url.
Proof.
  assert (Hdef : withProtocol url =
                 (if Js.startsWith url "http://" || Js.startsWith url "https://"
                  then url
                  else "http://" ++ url)).
  { unfold withProtocol.
    destruct (Js.startsWith url "http://"), (Js.startsWith url "https://"); reflexivity. }
  assert (Hpre : Js.startsWith (withProtocol url) "http://"
                 || Js.startsWith (withProtocol url) "https://" = true).
  { rewrite Hdef.
    destruct (Js.startsWith url "http://" || Js.startsWith url "https://") eqn:E;
      [exact E|].
    unfold Js.startsWith. rewrite prefix_append. reflexivity. }
  assert (Hidem : withProtocol (withProtocol url) = withProtocol url).
  { unfold withProtocol at 1.
    apply orb_true_iff in Hpre. destruct Hpre as [H|H]; rewrite H; simpl; [reflexivity|].
    rewrite andb_false_r. reflexivity. }
  split; [exact Hdef|]. split; [exact Hpre|]. split; [exact Hidem|].
  unfold processURL. rewrite Hidem. reflexivity.
Qed.

(** X5. The marker test of the detection stage is the single test "the URL
    contains [shopify.com]": a URL that contains [.myshopify.com] contains
    [shopify.com] as well, so the first half of the test adds nothing, and
    the marker may sit anywhere in the URL, not only in the host. *)
Theorem hasMarker_is_one_substring_test url :
  hasMarker url = Js.includes url "shopify.com" /\
  (forall a b, hasMarker (a ++ "shopify.com" ++ b) = true) /\
  (hasMarker url = true -> exists a b, url = a ++ "shopify.com" ++ b).
Proof.
  assert (H : hasMarker url = Js.includes url "shopify.com").
  { unfold hasMarker.
    destruct (Js.includes url ".myshopify.com") eqn:E; [|reflexivity].
    apply includes_split in E. destruct E as (a & b & E). subst url.
    replace (a ++ ".myshopify.com" ++ b) with ((a ++ ".my") ++ "shopify.com" ++ b)
      by (rewrite append_assoc; reflexivity).
    rewrite includes_append. reflexivity. }
  split; [exact H|]. split.
  - intros a b. unfold hasMarker. rewrite includes_append. apply orb_true_r.
  - intros Hm. rewrite H in Hm. apply includes_split. exact Hm.
Qed.

Lemma hasMarker_is_one_substring_test_witness :
  exists a b, "http://example.org/?ref=shopify.com" = a ++ "shopify.com" ++ b.
Proof.
  apply (proj2 (proj2 (hasMarker_is_one_substring_test
                         "http://example.org/?ref=shopify.com"))).
  reflexivity.
Defined.

(** X6. When the request of the detection stage is answered within the retry
    budget, the verdict is Shopify when the URL has the marker or the
    [powered-by] header names Shopify, and then the body is not looked at.
    Otherwise the body is handed to the inspection library: when it loads,
    the verdict is whether the page has the checkout-token meta tag or a
    script whose source mentions shopify; when the library throws, as it
    does on a body that is not a string, the verdict is not-Shopify and one
    error line is written.  The stage never reports password protection,
    and after the answer it issues no request and makes no pause. *)
Theorem isShopifyStore_detection_rule
    (net : nat -> string -> Options -> Outcome)
    (cheerio : Body -> Loaded) url w r w1 :
  axiosRetry net url plainOptions 2 3000 w = (Ok (Some r), w1) ->
  isShopifyStore net cheerio url w =
    if hasMarker url || poweredByShopify r
    then (Ok (mkShopifyCheck true false), w1)
    else
      match cheerio (data r) with
      | Document query =>
          (Ok (mkShopifyCheck
                 ((0 <? query (MetaNamed "shopify-checkout-api-token"))%nat
                  || (0 <? query (ScriptSrcContains "shopify"))%nat)
                 false),
           w1)
      | Unloadable message =>
          (Ok (mkShopifyCheck false false),
           mkWorld (calls w1) (trace w1 ++ [Console (ErrorShopifyCheck url message)]))
      end.
Proof.
  intros H.
  rewrite (isShopifyStore_resolved net cheerio url w r w1 H).
  unfold shopify_on_response, detection_log, select.
  destruct (hasMarker url); cbn [orb]; [rewrite world_same; reflexivity|].
  destruct (poweredByShopify r); cbn [orb]; [rewrite world_same; reflexivity|].
  destruct (cheerio (data r)) as [query|message].
  - rewrite world_same. reflexivity.
  - reflexivity.
Qed.

Lemma isShopifyStore_detection_rule_witness :
  isShopifyStore Scenario.net_null Scenario.cheerio_password "http://shop.example" world0 =
    (Ok (mkShopifyCheck false false),
     mkWorld 1 [Get "http://shop.example" plainOptions;
                Console (ErrorShopifyCheck "http://shop.example"
                           "cheerio.load() expects a string")]).
Proof.
  exact (isShopifyStore_detection_rule
           Scenario.net_null Scenario.cheerio_password "http://shop.example" world0
           (mkResponse Scenario.null_page "http://shop.example")
           (mkWorld 1 [Get "http://shop.example" plainOptions])
           eq_refl).
Defined.

(** The same stage on a page that loads: nothing is written. *)
Example detection_on_plain_page :
  isShopifyStore Scenario.net_plain Scenario.cheerio_password "http://shop.example" world0 =
    (Ok (mkShopifyCheck false false), mkWorld 1 [Get "http://shop.example" plainOptions]).
Proof. reflexivity. Qed.

(** X7. The cost of one classification.  [processURL] only adds to the
    trace; every request goes to the normalised URL; every pause lasts 3000
    ms and there are at most two.  A URL found not to be Shopify costs one
    or two requests, a Shopify store found inactive two to four, and an
    active store three to five, the last of which is the request of the
    password stage with its own options. *)
Theorem processURL_request_budget
    (net : nat -> string -> Options -> Outcome)
    (cheerio : Body -> Loaded) url w :
  exists r t,
    processURL net cheerio url w =
      (Ok r, mkWorld (calls w + List.length (gets t)) (trace w ++ t)) /\
    Forall (eq 3000) (pauses t) /\
    (List.length (pauses t) <= 2)%nat /\
    if isActive r then
      exists g,
        gets t = (g ++ [(withProtocol url, passwordOptions)])%list /\
        Forall (eq (withProtocol url, plainOptions)) g /\
        (2 <= List.length g <= 4)%nat
    else
      Forall (eq (withProtocol url, plainOptions)) (gets t) /\
      if isShopify r then (2 <= List.length (gets t) <= 4)%nat
      else (1 <= List.length (gets t) <= 2)%nat.
Proof.
  destruct (processURL_stages net cheerio url w) as (s & w1 & E1 & H).
  pose proof (isShopifyStore_frame net cheerio (withProtocol url) w) as F1.
  rewrite E1 in F1. destruct F1 as (t1 & Hw1 & Hn1 & Hg1 & Hp1 & Hl1).
  destruct (sc_isShopify s).
  - destruct H as (a & w2 & E2 & H).
    pose proof (checkURL_frame net (withProtocol url) w1) as F2.
    rewrite E2 in F2. destruct F2 as (t2 & Hw2 & Hn2 & Hg2 & Hp2 & Hl2).
    simpl in Hw1, Hw2. subst w1. cbn [calls trace] in Hw2.
    destruct a.
    + destruct H as (p & w3 & E3 & H).
      pose proof (checkPasswordProtection_frame net cheerio (withProtocol url) w2) as F3.
      rewrite E3 in F3. destruct F3 as (t3 & Hw3 & Hg3 & Hp3).
      simpl in Hw3. subst w2. cbn [calls trace] in Hw3.
      exists (mkProbe true true p), (t1 ++ t2 ++ t3)%list.
      rewrite H, Hw3. rewrite !gets_app, !pauses_app, !length_app, Hg3, Hp3.
      simpl. split; [|split; [|split]].
      * f_equal. f_equal; [lia|]. rewrite !app_assoc. reflexivity.
      * rewrite app_nil_r. apply Forall_app. split; assumption.
      * lia.
      * exists (gets t1 ++ gets t2)%list. rewrite app_assoc. split; [reflexivity|].
        split; [apply Forall_app; split; assumption|]. rewrite length_app. lia.
    + exists (mkProbe true false false), (t1 ++ t2)%list.
      rewrite H, Hw2. rewrite !gets_app, !pauses_app, !length_app.
      simpl. split; [|split; [|split; [|split]]].
      * f_equal. f_equal; [lia|]. rewrite !app_assoc. reflexivity.
      * apply Forall_app. split; assumption.
      * lia.
      * apply Forall_app. split; assumption.
      * lia.
  - exists (mkProbe false false false), t1.
    rewrite H. simpl in Hw1. rewrite Hw1. simpl.
    repeat split; try assumption; lia.
Qed.

(** X8. A host that cannot be recognised costs exactly two requests.  When
    the two attempts of the detection stage both fail, without a response or
    with one whose [powered-by] header does not name Shopify (a 404 for
    one), [processURL] answers that the URL is not a Shopify store, neither
    active nor protected, and asks nothing more. *)
Theorem processURL_unrecognised_host
    (net : nat -> string -> Options -> Outcome)
    (cheerio : Body -> Loaded) url w :
  silent_failure (net (calls w) (withProtocol url) plainOptions) = true ->
  silent_failure (net (S (calls w)) (withProtocol url) plainOptions) = true ->
  exists w',
    processURL net cheerio url w = (Ok (mkProbe false false false), w') /\
    calls w' = S (S (calls w)) /\
    requests (trace w') = (requests (trace w) + 2)%nat.
Proof.
  intros H1 H2.
  pose proof (axiosRetry_default_run net (withProtocol url) plainOptions w) as R.
  inversion R as [r E1 Eout|m1 r1 r E1 E2 Eout|m1 r1 m2 r2 E1 E2 Eout].
  - rewrite E1 in H1. discriminate.
  - rewrite E2 in H2. discriminate.
  - symmetry in Eout.
    destruct (isShopifyStore_failed net cheerio _ _ _ _ Eout) as (w' & E & Hc & Hr).
    exists w'. unfold processURL, bind. rewrite E.
    assert (Hs : shopify_on_failure
                   (AxiosError m2 (option_map (response_of (withProtocol url)) r2)) = false).
    { rewrite E2 in H2. unfold shopify_on_failure. destruct r2 as [r2|]; simpl in *.
      - apply negb_true_iff in H2. exact H2.
      - reflexivity. }
    rewrite Hs. simpl. split; [reflexivity|].
    rewrite Hc, Hr. unfold after_retry. simpl. rewrite requests_app. simpl.
    split; [reflexivity|lia].
Qed.

Lemma processURL_unrecognised_host_witness :
  exists w',
    processURL Scenario.net_404 Scenario.cheerio_password "shop.example" world0
      = (Ok (mkProbe false false false), w') /\
    calls w' = 2%nat /\ requests (trace w') = 2%nat.
Proof.
  apply (processURL_unrecognised_host
           Scenario.net_404 Scenario.cheerio_password "shop.example" world0);
    reflexivity.
Defined.

(** * Further properties of the schedulers and the scripts *)

(** X9. Batching does not show in the records.  Whatever the input, the
    batching variant hands [writeCSV] exactly what one [Promise.all] over
    all rows would yield, in the order of the rows, or fails with the same
    error; in particular the outcome does not depend on the order in which
    the classifications of a batch settle. *)
Theorem batching_does_not_change_records
    (nets : nat -> nat -> string -> Options -> Outcome)
    (cheerio : Body -> Loaded) (choice choice' : nat -> nat)
    (rows : list Row) :
  fst (Batch.collect nets cheerio choice rows) =
    all (map (Batch.classify nets cheerio) (map batch_task (indexed 0 rows))) /\
  fst (Batch.collect nets cheerio choice rows) = fst (Batch.collect nets cheerio choice' rows).
Proof.
  assert (H : forall c,
             fst (Batch.collect nets cheerio c rows) =
             all (map (Batch.classify nets cheerio) (map batch_task (indexed 0 rows)))).
  { intros c. unfold Batch.collect. rewrite batch_loop_results. simpl.
    destruct (all (map (Batch.classify nets cheerio) (map batch_task (indexed 0 rows))));
      reflexivity. }
  split; [apply H|]. rewrite (H choice), (H choice'). reflexivity.
Qed.

(** X10. A run succeeds exactly when every row has a URL cell (an empty one
    will do).  Then there is one record per row.  Otherwise, in both
    variants, the run fails with the type error of [url.startsWith] on
    [undefined], whatever the network does and however many rows are
    fine. *)
Theorem run_needs_every_url_cell
    (nets : nat -> nat -> string -> Options -> Outcome)
    (cheerio : Body -> Loaded) (choice : nat -> nat)
    (rows : list Row) :
  (if forallb (fun data => is_string (field data "URL")) rows
   then exists records,
          fst (Batch.collect nets cheerio choice rows) = Ok records /\
          List.length records = List.length rows
   else fst (Batch.collect nets cheerio choice rows)
        = Throw (TypeError "Cannot read properties of undefined")) /\
  (if forallb (fun data => is_string (field data "Website URL")) rows
   then exists records,
          fst (Gate.collect nets cheerio choice rows) = Ok records /\
          List.length records = List.length rows
   else fst (Gate.collect nets cheerio choice rows)
        = Throw (TypeError "Cannot read properties of undefined")).
Proof.
  split.
  - apply batch_collect_cases.
  - apply gate_collect_cases.
Qed.

(** X11. Each script deletes the output file before it reads any row and
    writes it only as the last step of a run that succeeded.  So after a run
    the output file is the report of this run, or, when some row has no URL
    cell, it does not exist: a report left by an earlier run never
    survives. *)
Theorem output_file_is_new_or_gone
    (nets : nat -> nat -> string -> Options -> Outcome)
    (cheerio : Body -> Loaded) (choice : nat -> nat)
    (old : option Report) (rows : list Row) :
  (if forallb (fun data => is_string (field data "URL")) rows
   then exists report,
          Main.batch nets cheerio choice old rows = (Some report, None) /\
          fst (Batch.processCSV nets cheerio choice rows) = Ok report
   else Main.batch nets cheerio choice old rows
        = (None, Some (TypeError "Cannot read properties of undefined"))) /\
  (if forallb (fun data => is_string (field data "Website URL")) rows
   then exists report,
          Main.gate nets cheerio choice old rows = (Some report, None) /\
          fst (Gate.processCSV nets cheerio choice rows) = Ok report
   else fst (Main.gate nets cheerio choice old rows) = None).
Proof.
  split.
  - pose proof (batch_collect_cases nets cheerio choice rows) as H.
    unfold Main.batch, Batch.processCSV.
    destruct (Batch.collect nets cheerio choice rows) as [res tr]. simpl in H.
    destruct (forallb (fun data => is_string (field data "URL")) rows).
    + destruct H as (records & E & _). subst res. simpl. eexists. split; reflexivity.
    + subst res. simpl. destruct old; reflexivity.
  - pose proof (gate_collect_cases nets cheerio choice rows) as H.
    unfold Main.gate, Gate.processCSV.
    destruct (Gate.collect nets cheerio choice rows) as [res tr]. simpl in H.
    destruct (forallb (fun data => is_string (field data "Website URL")) rows).
    + destruct H as (records & E & _). subst res. simpl. eexists. split; reflexivity.
    + subst res. simpl. destruct old; reflexivity.
Qed.

Section ReportDetails.

Variable nets : nat -> nat -> string -> Options -> Outcome.
Variable cheerio : Body -> Loaded.

Lemma same_value_eq (a b : Js.value) : Gate.same_value a b = true <-> a = b.
Proof.
  destruct a as [|x|x|x], b as [|y|y|y]; simpl; split; intros H;
    try discriminate; try reflexivity.
  - apply Bool.eqb_prop in H. subst. reflexivity.
  - injection H as H. subst. apply Bool.eqb_reflx.
  - apply String.eqb_eq in H. subst. reflexivity.
  - injection H as H. subst. apply String.eqb_refl.
  - apply String.eqb_eq in H. subst. reflexivity.
  - injection H as H. subst. apply String.eqb_refl.
Qed.

Lemma add_spec (set : list Js.value) (data : Row) :
  NoDup set ->
  let set' := Gate.add set (map Js.VStr (Gate.otherKeys data)) in
  NoDup set' /\
  (forall v, In v set' <-> In v set \/ v = firstOther data) /\
  (List.length set' <= S (List.length set))%nat.
Proof.
  intros Hnd. unfold Gate.add. fold (firstOther data).
  destruct (existsb (Gate.same_value (firstOther data)) set) eqn:E.
  - apply existsb_exists in E. destruct E as (x & Hin & Hx).
    apply same_value_eq in Hx. subst x.
    split; [exact Hnd|]. split; [|lia].
    intros v. split; [intros H; left; exact H|].
    intros [H|H]; [exact H|subst v; exact Hin].
  - split; [|split].
    + apply NoDup_app; [exact Hnd|constructor; [intros []|constructor]|].
      intros x Hx [Ex|[]]. subst x.
      assert (C : existsb (Gate.same_value (firstOther data)) set = true).
      { apply existsb_exists. exists (firstOther data).
        split; [exact Hx|apply same_value_eq; reflexivity]. }
      rewrite C in E. discriminate.
    + intros v. rewrite in_app_iff. simpl. split.
      * intros [H|[H|[]]]; [left; exact H|right; symmetry; exact H].
      * intros [H|H]; [left; exact H|right; left; symmetry; exact H].
    + rewrite length_app. simpl. lia.
Qed.

Lemma collect_from_spec (rows : list Row) : forall set,
  NoDup set ->
  let set' := fold_left (fun set data => Gate.add set (map Js.VStr (Gate.otherKeys data)))
                rows set in
  NoDup set' /\
  (forall v, In v set' <-> In v set \/ In v (map firstOther rows)) /\
  (List.length set' <= List.length set + List.length rows)%nat.
Proof.
  induction rows as [|data rows IH]; intros set Hnd; simpl.
  - split; [exact Hnd|]. split; [|lia]. intros v. tauto.
  - destruct (add_spec set data Hnd) as (Hnd1 & Hin1 & Hl1).
    destruct (IH _ Hnd1) as (Hnd2 & Hin2 & Hl2).
    split; [exact Hnd2|]. split; [|lia].
    intros v. rewrite Hin2, Hin1. split.
    + intros [[H|H]|H]; auto.
    + intros [H|[H|H]]; auto.
Qed.

Lemma filter_le_length {A} (f : A -> bool) (l : list A) :
  (List.length (filter f l) <= List.length l)%nat.
Proof.
  induction l as [|x l IH]; simpl; [lia|].
  destruct (f x); simpl; lia.
Qed.

Lemma precedes_named k k' : Obj.array_index k = None -> Obj.precedes k k' = false.
Proof. intros H. unfold Obj.precedes. rewrite H. reflexivity. Qed.

Lemma insert_named o k v :
  Obj.array_index k = None -> Obj.insert o k v = (o ++ [(k, v)])%list.
Proof.
  intros H. induction o as [|[k0 v0] o IH]; simpl; [reflexivity|].
  rewrite (precedes_named k k0 H), IH. reflexivity.
Qed.

Lemma set_fresh o k v :
  ~ In k (Obj.keys o) -> Obj.array_index k = None ->
  Obj.set o k v = (o ++ [(k, v)])%list.
Proof.
  intros Hk Hn. unfold Obj.set.
  destruct (Obj.has o k) eqn:E.
  - apply has_In in E. contradiction.
  - apply insert_named. exact Hn.
Qed.

(** Without a column named [__proto__], every cell becomes a property. *)
Lemma obj_of_plain_row (data : Row) :
  ~ In "__proto__" (map fst data) ->
  obj_of_row data = fold_left (fun o kv => Obj.set o (fst kv) (Js.VStr (snd kv))) data [].
Proof.
  unfold obj_of_row. generalize (@nil (string * Js.value)) as o.
  induction data as [|[k c] data IH]; intros o H; simpl; [reflexivity|].
  unfold Obj.assign at 2. cbn [fst snd].
  destruct (String.eqb k "__proto__") eqn:E.
  - apply String.eqb_eq in E. exfalso. apply H. left. exact E.
  - apply IH. intros Hin. apply H. right. exact Hin.
Qed.

Lemma obj_of_distinct_cells (data : Row) : forall o,
  NoDup (Obj.keys o ++ map fst data) ->
  Forall (fun kv => Obj.array_index (fst kv) = None) data ->
  fold_left (fun o kv => Obj.set o (fst kv) (Js.VStr (snd kv))) data o =
    (o ++ map (fun kv => (fst kv, Js.VStr (snd kv))) data)%list.
Proof.
  induction data as [|[k v] data IH]; intros o Hnd Hn; simpl.
  - rewrite app_nil_r. reflexivity.
  - apply Forall_cons_iff in Hn. destruct Hn as [Hk Hn]. simpl in Hk.
    simpl in Hnd. rewrite set_fresh.
    + rewrite IH.
      * rewrite <- app_assoc. reflexivity.
      * unfold Obj.keys in *. rewrite map_app. simpl. rewrite <- app_assoc. exact Hnd.
      * exact Hn.
    + apply NoDup_remove_2 in Hnd. intros Hin. apply Hnd.
      apply in_or_app. left. exact Hin.
    + exact Hk.
Qed.

Lemma settle_all_finishes choice : forall fuel running tr,
  (List.length running <= fuel)%nat ->
  exists fin,
    Batch.settle_all choice fuel running tr = (tr ++ map Finish fin)%list /\
    Permutation fin running.
Proof.
  induction fuel as [|fuel IH]; intros running tr Hlen; simpl.
  - destruct running; [|simpl in Hlen; lia].
    exists []. rewrite app_nil_r. split; [reflexivity|constructor].
  - destruct running as [|x running'] eqn:Erun.
    + exists []. rewrite app_nil_r. split; [reflexivity|constructor].
    + rewrite <- Erun in *.
      assert (Hpos : (0 < List.length running)%nat) by (rewrite Erun; simpl; lia).
      set (j := (choice (List.length tr) mod List.length running)%nat).
      assert (Hj : (j < List.length running)%nat) by (apply Nat.mod_upper_bound; lia).
      destruct (IH (remove_nth j running) (tr ++ [Finish (nth j running 0%nat)])%list)
        as (fin & E & Hp).
      * rewrite remove_nth_length by assumption. lia.
      * exists (nth j running 0%nat :: fin). rewrite E. rewrite <- app_assoc.
        split; [reflexivity|].
        rewrite Hp. apply remove_nth_perm. exact Hj.
Qed.

Lemma batch_loop_batched choice : forall rows i b0 batch results tr,
  Forall (fun data => is_string (field data "URL") = true) rows ->
  Forall (fun t => is_string (Batch.url t) = true) batch ->
  i = (b0 + List.length batch)%nat ->
  map Batch.index batch = seq b0 (List.length batch) ->
  (List.length batch < Batch.concurrencyLimit)%nat ->
  inflight tr = [] ->
  exists suffix,
    snd (Batch.loop nets cheerio choice rows i batch results tr) = (tr ++ suffix)%list /\
    batched Batch.concurrencyLimit b0 (List.length batch + List.length rows) suffix.
Proof.
  assert (Hrun : forall (batch : list Batch.Task) b0 tr,
             map Batch.index batch = seq b0 (List.length batch) ->
             Forall (fun t => is_string (Batch.url t) = true) batch ->
             inflight tr = [] ->
             exists rs fin,
               Batch.runBatch nets cheerio choice batch tr =
                 (Ok rs, (tr ++ map Start (seq b0 (List.length batch)) ++ map Finish fin)%list) /\
               Permutation fin (seq b0 (List.length batch)) /\
               inflight (tr ++ map Start (seq b0 (List.length batch)) ++ map Finish fin) = []).
  { intros batch b0 tr Hidx Hurl Hin.
    destruct (runBatch_spec nets cheerio choice batch tr) as (rs & tr' & E & _ & Hin' & _).
    - rewrite Hidx. apply seq_NoDup.
    - exact Hurl.
    - exact Hin.
    - assert (Etr : tr' = snd (Batch.runBatch nets cheerio choice batch tr))
        by (rewrite E; reflexivity).
      unfold Batch.runBatch in Etr. cbn [snd] in Etr.
      destruct (settle_all_finishes choice (List.length (map Batch.index batch))
                  (map Batch.index batch) (tr ++ map Start (map Batch.index batch))%list)
        as (fin & Efin & Hp); [lia|].
      rewrite Efin, Hidx, <- app_assoc in Etr.
      exists rs, fin. rewrite E, Etr. split; [reflexivity|].
      split; [rewrite <- Hidx; exact Hp|]. rewrite <- Etr. exact Hin'. }
  induction rows as [|data rows IH]; intros i b0 batch results tr Hrows Hbatch Hi Hidx Hlen Hin;
    cbn [Batch.loop].
  - cbn [List.length]. rewrite Nat.add_0_r.
    destruct (0 <? List.length batch)%nat eqn:E.
    + apply Nat.ltb_lt in E.
      destruct (Hrun batch b0 tr Hidx Hbatch Hin) as (rs & fin & Er & Hp & _).
      rewrite Er. cbn [snd].
      exists (map Start (seq b0 (List.length batch)) ++ map Finish fin)%list.
      split; [reflexivity|].
      assert (Hmin : Nat.min Batch.concurrencyLimit (List.length batch) = List.length batch)
        by lia.
      pose proof (batched_next Batch.concurrencyLimit b0 (List.length batch) fin [] E) as B.
      rewrite Hmin, Nat.sub_diag, app_nil_r in B.
      apply B; [exact Hp|constructor].
    + apply Nat.ltb_ge in E. destruct batch; [|simpl in E; lia].
      exists []. simpl. rewrite app_nil_r. split; [reflexivity|constructor].
  - apply Forall_cons_iff in Hrows. destruct Hrows as [Hdata Hrows].
    set (batch' := (batch ++ [Batch.mkTask i (field data "URL") (field data "ClientId")])%list).
    assert (Hlen' : List.length batch' = S (List.length batch))
      by (unfold batch'; rewrite length_app; simpl; lia).
    assert (Hidx' : map Batch.index batch' = seq b0 (List.length batch')).
    { rewrite Hlen'. unfold batch'. rewrite map_app. cbn [map Batch.index].
      rewrite Hidx, Hi. rewrite seq_S. reflexivity. }
    assert (Hbatch' : Forall (fun t => is_string (Batch.url t) = true) batch').
    { unfold batch'. apply Forall_app. split; [exact Hbatch|].
      constructor; [exact Hdata|constructor]. }
    replace (List.length batch + List.length (data :: rows))%nat
      with (List.length batch' + List.length rows)%nat by (simpl; lia).
    destruct (Batch.concurrencyLimit <=? List.length batch')%nat eqn:E.
    + apply Nat.leb_le in E.
      destruct (Hrun batch' b0 tr Hidx' Hbatch' Hin) as (rs & fin & Er & Hp & Hin').
      rewrite Er.
      destruct (IH (S i) (S i) [] (results ++ rs)%list
                  (tr ++ map Start (seq b0 (List.length batch')) ++ map Finish fin)%list)
        as (suffix & Es & Hb); try assumption;
        try (simpl; auto; unfold Batch.concurrencyLimit; lia).
      exists (map Start (seq b0 (List.length batch')) ++ map Finish fin ++ suffix)%list.
      rewrite Es. split; [repeat rewrite <- app_assoc; reflexivity|].
      assert (Hmin : Nat.min Batch.concurrencyLimit (List.length batch' + List.length rows)
                     = List.length batch') by (unfold Batch.concurrencyLimit in *; lia).
      assert (Hpos : (0 < List.length batch' + List.length rows)%nat) by lia.
      pose proof (batched_next Batch.concurrencyLimit b0
                    (List.length batch' + List.length rows) fin suffix Hpos) as B.
      rewrite Hmin in B. apply B; [exact Hp|].
      simpl in Hb.
      replace (b0 + List.length batch')%nat with (S i) by lia.
      replace (List.length batch' + List.length rows - List.length batch')%nat
        with (List.length rows) by lia.
      exact Hb.
    + apply Nat.leb_gt in E.
      destruct (IH (S i) b0 batch' results tr) as (suffix & Es & Hb);
        try assumption; try lia.
      exists suffix. split; assumption.
Qed.

End ReportDetails.

(** X12. [extraColumns] ends up holding, without repetition, exactly the
    values [add] received first for each row: the first column of a row
    besides the URL and the identifier, or [undefined] for a row with no
    other column.  Nothing else is ever collected, so there are at most as
    many extra columns as rows. *)
Theorem extraColumns_holds_first_keys (rows : list Row) :
  NoDup (Gate.collectExtraColumns rows) /\
  incl (Gate.collectExtraColumns rows) (map firstOther rows) /\
  incl (map firstOther rows) (Gate.collectExtraColumns rows) /\
  (List.length (Gate.collectExtraColumns rows) <= List.length rows)%nat.
Proof.
  destruct (collect_from_spec rows [] (NoDup_nil _)) as (Hnd & Hin & Hl).
  split; [exact Hnd|]. split; [|split].
  - intros v Hv. apply Hin in Hv. destruct Hv as [[]|Hv]. exact Hv.
  - intros v Hv. apply Hin. right. exact Hv.
  - exact Hl.
Qed.

(** X13. Whatever records [writeCSV] is given, every count of the metrics
    lies between zero and the total, the inactive count included.  After a
    run that succeeded the total is the number of rows of the input, rows
    without identifier or with an empty URL included. *)
Theorem metrics_stay_within_total
    (nets : nat -> nat -> string -> Options -> Outcome)
    (cheerio : Body -> Loaded) (choice : nat -> nat) :
  (forall data : list Obj.t,
      0 <= shopifyStores (computeMetrics data) <= totalStores (computeMetrics data) /\
      0 <= activeStores (computeMetrics data) <= totalStores (computeMetrics data) /\
      0 <= passwordProtectedStores (computeMetrics data) <= totalStores (computeMetrics data) /\
      0 <= inactiveStores (computeMetrics data) <= totalStores (computeMetrics data)) /\
  (forall rows records,
      fst (Batch.collect nets cheerio choice rows) = Ok records ->
      totalStores (computeMetrics records) = Z.of_nat (List.length rows)) /\
  (forall rows records,
      fst (Gate.collect nets cheerio choice rows) = Ok records ->
      totalStores (computeMetrics records) = Z.of_nat (List.length rows)).
Proof.
  split; [|split].
  - intros data. unfold computeMetrics, countWhere. simpl.
    pose proof (filter_le_length (fun row => Js.truthy (Obj.get row "isShopify")) data).
    pose proof (filter_le_length (fun row => Js.truthy (Obj.get row "isActive")) data).
    pose proof (filter_le_length (fun row => Js.truthy (Obj.get row "isPasswordProtected")) data).
    lia.
  - intros rows records H.
    pose proof (batch_collect_cases nets cheerio choice rows) as C.
    destruct (forallb (fun data => is_string (field data "URL")) rows).
    + destruct C as (rs & E & Hl). rewrite E in H. injection H as H. subst rs.
      simpl. rewrite Hl. reflexivity.
    + rewrite C in H. discriminate.
  - intros rows records H.
    pose proof (gate_collect_cases nets cheerio choice rows) as C.
    destruct (forallb (fun data => is_string (field data "Website URL")) rows).
    + destruct C as (rs & E & Hl). rewrite E in H. injection H as H. subst rs.
      simpl. rewrite Hl. reflexivity.
    + rewrite C in H. discriminate.
Qed.

Lemma metrics_stay_within_total_witness :
  (exists records,
      fst (Batch.collect Input.nets_plain Scenario.cheerio_password Input.mixed Input.clients)
        = Ok records /\
      totalStores (computeMetrics records) = 12) /\
  (exists records,
      fst (Gate.collect Input.nets_plain Scenario.cheerio_password Input.mixed
             [Input.company; Input.anonymous]) = Ok records /\
      totalStores (computeMetrics records) = 2).
Proof.
  pose proof (metrics_stay_within_total
                Input.nets_plain Scenario.cheerio_password Input.mixed) as (_ & HB & HG).
  split.
  - eexists. split; [vm_compute; reflexivity|].
    refine (HB Input.clients _ _). vm_compute. reflexivity.
  - eexists. split; [vm_compute; reflexivity|].
    refine (HG [Input.company; Input.anonymous] _ _). vm_compute. reflexivity.
Defined.

(** X14. The line the batching variant prints for a classified row shows
    the [ClientId] cell of the row ([undefined] when the row has none), the
    [URL] cell as it stands in the input, without the protocol that was
    added for the requests, and the three flags as [true] or [false]. *)
Theorem batch_line_of_row
    (nets : nat -> nat -> string -> Options -> Outcome)
    (cheerio : Body -> Loaded) (p : nat * Row) result :
  fst (processURL_any (nets (fst p)) cheerio (field (snd p) "URL") world0) = Ok result ->
  exists record,
    Batch.classify nets cheerio (batch_task p) = Ok record /\
    Batch.line record =
      Js.to_string (field (snd p) "ClientId") ++ "," ++
      Js.to_string (field (snd p) "URL") ++ "," ++
      Js.to_string (Js.VBool (isShopify result)) ++ "," ++
      Js.to_string (Js.VBool (isActive result)) ++ "," ++
      Js.to_string (Js.VBool (isPasswordProtected result)).
Proof.
  intros H. unfold Batch.classify, batch_task. cbn [Batch.index Batch.url Batch.clientId fst snd].
  rewrite H. eexists. split; [reflexivity|].
  unfold Batch.line, Obj.spread, obj_of_result. cbn [fold_left Obj.set fst snd].
  destruct (field (snd p) "ClientId") as [|b|c|t], (field (snd p) "URL") as [|b'|u|t'];
    reflexivity.
Qed.

Lemma batch_line_of_row_witness :
  exists record,
    Batch.classify Input.nets_plain Scenario.cheerio_password (batch_task (0%nat, Input.client))
      = Ok record /\
    Batch.line record = "c1,shop.example,false,false,false".
Proof.
  apply (batch_line_of_row Input.nets_plain Scenario.cheerio_password
           (0%nat, Input.client) (mkProbe false false false)).
  reflexivity.
Defined.

(** X15. The batching variant runs the rows in consecutive batches of ten
    (the last one may be shorter): all classifications of a batch are
    started, in the order of the rows, before any of them settles, and the
    next batch is started only when every one of them has settled. *)
Theorem batches_run_one_after_the_other
    (nets : nat -> nat -> string -> Options -> Outcome)
    (cheerio : Body -> Loaded) (choice : nat -> nat) (rows : list Row) :
  Forall (fun data => is_string (field data "URL") = true) rows ->
  batched 10 0 (List.length rows) (snd (Batch.collect nets cheerio choice rows)).
Proof.
  intros Hrows. unfold Batch.collect.
  destruct (batch_loop_batched nets cheerio choice rows 0 0 [] [] [] Hrows)
    as (suffix & E & Hb); try reflexivity; try constructor.
  { unfold Batch.concurrencyLimit. simpl. lia. }
  rewrite E. exact Hb.
Qed.

Lemma batches_run_one_after_the_other_witness :
  batched 10 0 12
    (snd (Batch.collect Input.nets_down Scenario.cheerio_password Input.mixed Input.clients)).
Proof.
  apply (batches_run_one_after_the_other
           Input.nets_down Scenario.cheerio_password Input.mixed Input.clients).
  repeat constructor.
Defined.

(** X16. A row whose column names are all different, none of them an array
    index and none of them [__proto__], is appended to the report, when it
    lacks a URL or an identifier, exactly as its cells joined by commas in
    the order of the columns; cells are not quoted. *)
Theorem verbatim_joins_the_cells (data : Row) :
  NoDup (map fst data) ->
  Forall (fun kv => Obj.array_index (fst kv) = None) data ->
  ~ In "__proto__" (map fst data) ->
  Obj.keys (obj_of_row data) = map fst data /\
  verbatim data = Js.join "," (map snd data).
Proof.
  intros Hnd Hn Hp. unfold verbatim. rewrite (obj_of_plain_row data Hp).
  rewrite (obj_of_distinct_cells data []) by assumption.
  simpl. unfold Obj.keys, Obj.values, join_values. rewrite !map_map. simpl.
  split; reflexivity.
Qed.

Lemma verbatim_joins_the_cells_witness :
  verbatim Input.anonymous = ",other.example,n/a,556".
Proof.
  refine (proj2 (verbatim_joins_the_cells Input.anonymous _ _ _)).
  - repeat constructor; simpl; intuition discriminate.
  - repeat constructor.
  - simpl. intuition discriminate.
Defined.

(** Columns named by array indices are enumerated first, in ascending
    order, whatever their place in the input; a numeral with a leading zero
    is not an array index. *)
Example index_columns_come_first :
  Obj.keys (obj_of_row [("Name", "x"); ("2024", "b"); ("07", "c"); ("7", "a"); ("0", "z")])
    = ["0"; "7"; "2024"; "Name"; "07"] /\
  verbatim [("Name", "x"); ("2024", "b"); ("07", "c"); ("7", "a"); ("0", "z")] = "z,a,b,x,c" /\
  Obj.array_index "4294967294" = Some 4294967294%N /\
  Obj.array_index "4294967295" = None /\
  Obj.array_index "-1" = None /\
  Obj.array_index "1.5" = None.
Proof. repeat split. Qed.

Section HappyPath.

Variable net : nat -> string -> Options -> Outcome.
Variable cheerio : Body -> Loaded.

Lemma detection_log_quiet url r :
  gets (detection_log cheerio url r) = [] /\ pauses (detection_log cheerio url r) = [].
Proof.
  unfold detection_log.
  destruct (hasMarker url || poweredByShopify r); [split; reflexivity|].
  destruct (cheerio (data r)); split; reflexivity.
Qed.

Lemma axiosRetry_first_answer url options w r :
  net (calls w) url options = Resolved r ->
  axiosRetry net url options default_retries default_backoff w =
    (Ok (Some (response_of url r)), after_get url options w).
Proof.
  intros H.
  pose proof (axiosRetry_default_run net url options w) as R.
  inversion R as [r' E1 Eout|m1 r1 r' E1 E2 Eout|m1 r1 m2 r2 E1 E2 Eout];
    rewrite H in E1; try discriminate.
  injection E1 as E1. subst r'. reflexivity.
Qed.

End HappyPath.

(** X17. On a network that answers the requests at once, a classification
    is decided by three successive fetches of the same URL: the first one
    decides [isShopify] (marker, header, meta tag or script); the second
    one, made only for a Shopify store, decides [isActive] by its own status
    being 200; the third one, made only for an active store, decides
    [isPasswordProtected].  No pause is made. *)
Theorem processURL_on_answering_network
    (net : nat -> string -> Options -> Outcome)
    (cheerio : Body -> Loaded) url w r0 r1 :
  net (calls w) (withProtocol url) plainOptions = Resolved r0 ->
  net (S (calls w)) (withProtocol url) plainOptions = Resolved r1 ->
  let u := withProtocol url in
  let shopify := shopify_on_response cheerio u (mkResponse r0 u) in
  let active := shopify && (status r1 =? 200) in
  let protected :=
    active && spec_passwordProtected cheerio u (net (S (S (calls w))) u passwordOptions) in
  exists t,
    processURL net cheerio url w =
      (Ok (mkProbe shopify active protected),
       mkWorld (calls w + List.length (gets t)) (trace w ++ t)) /\
    pauses t = [] /\
    List.length (gets t) =
      (if active then 3 else if shopify then 2 else 1)%nat.
Proof.
  intros H0 H1. cbv zeta. unfold processURL. cbv zeta.
  set (u := withProtocol url) in *.
  pose proof (axiosRetry_first_answer net u plainOptions w r0 H0) as A0.
  pose proof (isShopifyStore_resolved net cheerio u w _ _ A0) as S1.
  change (response_of u r0) with (mkResponse r0 u) in S1.
  destruct (detection_log_quiet cheerio u (mkResponse r0 u)) as (G0 & P0).
  set (l0 := detection_log cheerio u (mkResponse r0 u)) in *.
  unfold after_get in S1. cbn [calls trace] in S1.
  set (w1 := mkWorld (S (calls w)) ((trace w ++ [Get u plainOptions]) ++ l0)) in *.
  unfold bind, ret. rewrite S1. cbn [sc_isShopify].
  destruct (shopify_on_response cheerio u (mkResponse r0 u)); cbn [andb].
  - assert (H1' : net (calls w1) u plainOptions = Resolved r1) by exact H1.
    pose proof (axiosRetry_first_answer net u plainOptions _ r1 H1') as A1.
    pose proof (checkURL_resolved net u _ _ _ A1) as S2.
    rewrite S2. cbn [status reply response_of andb].
    destruct (status r1 =? 200).
    + destruct (checkPasswordProtection_run net cheerio u (after_get u plainOptions w1))
        as (w3 & S3 & _).
      destruct (checkPasswordProtection_frame net cheerio u (after_get u plainOptions w1))
        as (t3 & F3 & G3 & P3).
      rewrite S3 in F3. cbn [snd] in F3. rewrite S3. subst w3.
      exists ([Get u plainOptions] ++ l0 ++ [Get u plainOptions] ++ t3)%list.
      rewrite !gets_app, !pauses_app, !length_app, G0, P0, G3, P3.
      unfold after_get, w1. cbn [calls trace gets pauses List.length app].
      split; [|split; reflexivity].
      apply f_equal2; [reflexivity|].
      apply f_equal2; [lia|repeat rewrite <- app_assoc; reflexivity].
    + exists ([Get u plainOptions] ++ l0 ++ [Get u plainOptions])%list.
      rewrite !gets_app, !pauses_app, !length_app, G0, P0.
      unfold after_get, w1. cbn [calls trace gets pauses List.length app].
      split; [|split; reflexivity].
      apply f_equal2; [reflexivity|].
      apply f_equal2; [lia|repeat rewrite <- app_assoc; reflexivity].
  - exists ([Get u plainOptions] ++ l0)%list.
    rewrite !gets_app, !pauses_app, !length_app, G0, P0.
    unfold w1. cbn [calls trace gets pauses List.length app].
    split; [|split; reflexivity].
    apply f_equal2; [reflexivity|].
    apply f_equal2; [lia|repeat rewrite <- app_assoc; reflexivity].
Qed.

Lemma processURL_on_answering_network_witness :
  exists t,
    processURL Scenario.net_redirected Scenario.cheerio_password "foo.myshopify.com" world0 =
      (Ok (mkProbe true true true), mkWorld (List.length (gets t)) t) /\
    pauses t = [] /\ List.length (gets t) = 3%nat.
Proof.
  apply (processURL_on_answering_network
           Scenario.net_redirected Scenario.cheerio_password "foo.myshopify.com" world0
           (mkReply 200 [] (Markup "<input type=password>")
              (Some (mkIncoming (Some "http://foo.myshopify.com/password"))))
           (mkReply 200 [] (Markup "<input type=password>")
              (Some (mkIncoming (Some "http://foo.myshopify.com/password")))));
    reflexivity.
Defined.

(** X18. The line the admission-gate variant prints for a classified row
    that has a non-empty identifier and URL, no column named like a flag,
    and every collected extra column: the identifier and the URL as they
    stand in the input, the three flags of the classification, then for
    each expected column the cell of the row or nothing, then the cells of
    the extra columns, all separated by commas and none of them quoted. *)
Theorem gate_line_of_row
    (nets : nat -> nat -> string -> Options -> Outcome)
    (cheerio : Body -> Loaded) (p : nat * Row) result
    (extraColumns : list Js.value) :
  fst (processURL_any (nets (fst p)) cheerio (field (snd p) "Website URL") world0)
    = Ok result ->
  Gate.incomplete (snd p) = false ->
  no_flag_columns (snd p) = true ->
  Forall (fun c => existsb (String.eqb (Js.to_string c)) (Obj.keys (obj_of_row (snd p))) = true)
    extraColumns ->
  exists record,
    Gate.classify nets cheerio p = Ok record /\
    Gate.line extraColumns record =
      Js.to_string (field (snd p) "Record ID") ++ "," ++
      Js.to_string (field (snd p) "Website URL") ++ "," ++
      Js.to_string (Js.VBool (isShopify result)) ++ "," ++
      Js.to_string (Js.VBool (isActive result)) ++ "," ++
      Js.to_string (Js.VBool (isPasswordProtected result)) ++ "," ++
      join_values ","
        (map (fun col => Js.or (field (snd p) (fst col)) (Js.VStr (snd col)))
           Gate.expectedColumns) ++ "," ++
      join_values ","
        (map (fun c => Js.or (field (snd p) (Js.to_string c)) (Js.VStr "")) extraColumns).
Proof.
  intros H Hcomplete Hno Hextra.
  set (base := Obj.spread [("recordId", field (snd p) "Record ID");
                           ("url", field (snd p) "Website URL")]
                 (obj_of_result result)).
  set (record := Obj.spread base (obj_of_row (snd p))).
  assert (Hc : Gate.classify nets cheerio p = Ok record).
  { unfold Gate.classify. rewrite H. reflexivity. }
  exists record. split; [exact Hc|].
  unfold Gate.incomplete in Hcomplete. apply orb_false_iff in Hcomplete.
  destruct Hcomplete as [Hurl Hid]. apply negb_false_iff in Hurl, Hid.
  unfold no_flag_columns in Hno. cbn [forallb] in Hno.
  apply andb_true_iff in Hno. destruct Hno as [N1 Hno].
  apply andb_true_iff in Hno. destruct Hno as [N2 Hno].
  apply andb_true_iff in Hno. destruct Hno as [N3 _].
  apply negb_true_iff in N1, N2, N3.
  assert (Rid : Obj.get record "Record ID" = field (snd p) "Record ID")
    by (apply (gate_record_id nets cheerio p record Hc)).
  assert (Rurl : Obj.get record "Website URL" = field (snd p) "Website URL").
  { unfold record. rewrite get_spread_row.
    destruct (existsb (String.eqb "Website URL") (Obj.keys (obj_of_row (snd p)))) eqn:E;
      [reflexivity|].
    rewrite (field_absent _ _ E). reflexivity. }
  assert (F1 : Obj.get record "isShopify" = Js.VBool (isShopify result))
    by (unfold record; rewrite get_spread_row, N1; reflexivity).
  assert (F2 : Obj.get record "isActive" = Js.VBool (isActive result))
    by (unfold record; rewrite get_spread_row, N2; reflexivity).
  assert (F3 : Obj.get record "isPasswordProtected" = Js.VBool (isPasswordProtected result))
    by (unfold record; rewrite get_spread_row, N3; reflexivity).
  unfold Gate.line. rewrite Rid, Rurl, F1, F2, F3.
  unfold Js.or at 1 2. rewrite Hid, Hurl.
  assert (Hexp : map (fun col => Js.or (Obj.get record (fst col)) (Js.VStr (snd col)))
                   Gate.expectedColumns
                 = map (fun col => Js.or (field (snd p) (fst col)) (Js.VStr (snd col)))
                     Gate.expectedColumns).
  { apply map_ext_in. intros col Hcol.
    rewrite (gate_record_expected nets cheerio p record (fst col) Hc); [reflexivity|].
    apply in_map. exact Hcol. }
  assert (Hext : map (fun col => Js.or (Obj.get record (Js.to_string col)) (Js.VStr ""))
                   extraColumns
                 = map (fun c => Js.or (field (snd p) (Js.to_string c)) (Js.VStr ""))
                     extraColumns).
  { apply map_ext_in. intros c Hcin.
    rewrite Forall_forall in Hextra.
    rewrite (gate_record_field nets cheerio p record _ Hc (Hextra c Hcin)). reflexivity. }
  rewrite Hexp, Hext. reflexivity.
Qed.

Lemma gate_line_of_row_witness :
  exists record,
    Gate.classify Input.nets_down Scenario.cheerio_password (0%nat, Input.company) = Ok record /\
    Gate.line [Js.VStr "Notes"] record = "7,shop.example,false,false,false,,,,,,,vip".
Proof.
  apply (gate_line_of_row Input.nets_down Scenario.cheerio_password
           (0%nat, Input.company) (mkProbe false false false) [Js.VStr "Notes"]).
  - reflexivity.
  - reflexivity.
  - reflexivity.
  - repeat constructor.
Defined.

(** X19. The password stage on a body that cannot be inspected.  When the
    request is answered, the final URL ends in [/password], and the
    inspection library throws on the body (as it does on a body that is not
    a string), the exception is caught like a failed request: the stage
    answers [false], after the one request, and the last line it writes is
    the error with the message of the library. *)
Theorem checkPasswordProtection_unloadable_body
    (net : nat -> string -> Options -> Outcome)
    (cheerio : Body -> Loaded) url w r res message :
  net (calls w) url passwordOptions = Resolved r ->
  request_res r = Some res ->
  Js.truthy (finalUrl res (mkResponse r url)) = true ->
  Js.endsWith (Js.to_string (finalUrl res (mkResponse r url))) "/password" = true ->
  cheerio (data r) = Unloadable message ->
  checkPasswordProtection net cheerio url w =
    (Ok false,
     mkWorld (S (calls w))
       (trace w ++ [Console (LogCheckingPassword url);
                    Get url passwordOptions;
                    Console (LogPasswordStatus url (status r));
                    Console LogWorks;
                    Console (ErrorPasswordCheck url message)])).
Proof.
  intros Hnet Hres Htruthy Hend Hload.
  unfold checkPasswordProtection, cheerio_load, try_catch, bind, console, emit,
    axios_get, ret, throw.
  cbn [calls trace]. rewrite Hnet.
  cbn [reply status data request_res config_url]. rewrite Hres, Htruthy.
  cbn [negb]. rewrite Hend. cbn [calls trace data reply]. rewrite Hload.
  cbn [error_response error_message calls trace].
  repeat rewrite <- app_assoc. reflexivity.
Qed.

Lemma checkPasswordProtection_unloadable_body_witness :
  checkPasswordProtection Scenario.net_null Scenario.cheerio_password
    "http://shop.example/password" world0 =
    (Ok false,
     mkWorld 1
       [Console (LogCheckingPassword "http://shop.example/password");
        Get "http://shop.example/password" passwordOptions;
        Console (LogPasswordStatus "http://shop.example/password" 200);
        Console LogWorks;
        Console (ErrorPasswordCheck "http://shop.example/password"
                   "cheerio.load() expects a string")]).
Proof.
  apply (checkPasswordProtection_unloadable_body
           Scenario.net_null Scenario.cheerio_password
           "http://shop.example/password" world0
           Scenario.null_page (mkIncoming None) "cheerio.load() expects a string");
    reflexivity.
Defined.

(** * The order in which a row is enumerated *)

Section EnumerationFacts.

Lemma index_named_some (kv : string * string) :
  index_named kv = true -> exists i, Obj.array_index (fst kv) = Some i.
Proof.
  unfold index_named. destruct (Obj.array_index (fst kv)) as [i|]; [eauto|discriminate].
Qed.

(** A new property named by an array index takes its place among the
    properties so named. *)
Lemma insert_index (named : Obj.t) k c i :
  Obj.array_index k = Some i ->
  Forall (fun e => Obj.array_index (fst e) = None) named ->
  forall first : Row,
    Forall (fun kv => index_named kv = true) first ->
    StronglySorted ascending first ->
    exists first' : Row,
      Obj.insert (map cell first ++ named)%list k (Js.VStr c)
        = (map cell first' ++ named)%list /\
      Permutation first' (first ++ [(k, c)])%list /\
      StronglySorted ascending first'.
Proof.
  intros Hk Hnamed. induction first as [|[k0 c0] first IH]; intros Hidx Hsorted.
  - exists [(k, c)]. split; [|split].
    + simpl. destruct named as [|[k' v'] named']; [reflexivity|].
      apply Forall_inv in Hnamed. simpl in Hnamed.
      cbn [Obj.insert]. unfold Obj.precedes. rewrite Hk, Hnamed. reflexivity.
    + apply Permutation_refl.
    + constructor; constructor.
  - apply Forall_cons_iff in Hidx. destruct Hidx as [H0 Hidx].
    apply index_named_some in H0. destruct H0 as (i0 & H0). simpl in H0.
    apply StronglySorted_inv in Hsorted. destruct Hsorted as [Hsorted Hall].
    cbn [map app Obj.insert cell fst snd]. unfold Obj.precedes at 1. rewrite Hk, H0.
    destruct (i <? i0)%N eqn:E.
    + apply N.ltb_lt in E.
      exists ((k, c) :: (k0, c0) :: first). split; [reflexivity|]. split.
      * apply (Permutation_cons_append ((k0, c0) :: first) (k, c)).
      * constructor; [constructor; assumption|].
        constructor.
        -- exists i, i0. simpl. repeat split; try assumption. lia.
        -- eapply Forall_impl; [|exact Hall].
           intros x (j0 & jx & J0 & Jx & Hle). simpl in J0.
           rewrite H0 in J0. injection J0 as J0. subst j0.
           exists i, jx. simpl. repeat split; try assumption. lia.
    + apply N.ltb_ge in E.
      destruct (IH Hidx Hsorted) as (first' & E' & Hp & Hs).
      exists ((k0, c0) :: first'). split; [|split].
      * cbn [map app cell fst snd]. rewrite E'. reflexivity.
      * simpl. apply perm_skip. exact Hp.
      * constructor; [exact Hs|].
        apply (Permutation_Forall (Permutation_sym Hp)).
        apply Forall_app. split; [exact Hall|].
        constructor; [|constructor].
        exists i0, i. simpl. repeat split; assumption.
Qed.

Lemma keys_cells (first named : Row) :
  Obj.keys (map cell first ++ map cell named)%list = (map fst first ++ map fst named)%list.
Proof. unfold Obj.keys. rewrite map_app, !map_map. reflexivity. Qed.

(** Reading a row cell by cell: the columns named by array indices are
    sorted in, the others are appended. *)
Lemma fold_enumerates (data : Row) : forall first named : Row,
  NoDup (map fst data) ->
  (forall x, In x (map fst data) -> ~ In x (map fst first ++ map fst named)%list) ->
  Forall (fun kv => index_named kv = true) first ->
  Forall (fun kv => index_named kv = false) named ->
  StronglySorted ascending first ->
  exists first' : Row,
    fold_left (fun o kv => Obj.set o (fst kv) (Js.VStr (snd kv))) data
      (map cell first ++ map cell named)%list
    = (map cell first'
       ++ map cell (named ++ filter (fun kv => negb (index_named kv)) data))%list /\
    Permutation first' (first ++ filter index_named data)%list /\
    StronglySorted ascending first'.
Proof.
  induction data as [|[k c] data IH]; intros first named Hnd Hfresh Hidx Hnamed Hsorted.
  - exists first. simpl. rewrite !app_nil_r. split; [reflexivity|]. split; [|exact Hsorted].
    apply Permutation_refl.
  - simpl in Hnd. apply NoDup_cons_iff in Hnd. destruct Hnd as [Hk Hnd].
    assert (Hhas : Obj.has (map cell first ++ map cell named)%list k = false).
    { destruct (Obj.has (map cell first ++ map cell named)%list k) eqn:E; [|reflexivity].
      apply has_In in E. rewrite keys_cells in E.
      exfalso. apply (Hfresh k); [left; reflexivity|exact E]. }
    cbn [fold_left fst snd]. unfold Obj.set at 2. rewrite Hhas.
    cbn [filter]. destruct (index_named (k, c)) eqn:Ek; cbn [negb].
    + destruct (index_named_some _ Ek) as (i & Hi). simpl in Hi.
      destruct (insert_index (map cell named) k c i Hi) with (first := first)
        as (first1 & E1 & Hp1 & Hs1); try assumption.
      { apply Forall_forall. intros e He. apply in_map_iff in He.
        destruct He as (kv & Ekv & Hin). subst e. simpl.
        rewrite Forall_forall in Hnamed. specialize (Hnamed kv Hin).
        unfold index_named in Hnamed.
        destruct (Obj.array_index (fst kv)); [discriminate|reflexivity]. }
      rewrite E1.
      destruct (IH first1 named Hnd) as (first' & E' & Hp' & Hs'); try assumption.
      { intros x Hx Hin. apply in_app_or in Hin. destruct Hin as [Hin|Hin].
        - apply (Permutation_in _ (Permutation_map fst Hp1)) in Hin.
          rewrite map_app in Hin. apply in_app_or in Hin. destruct Hin as [Hin|[Hin|[]]].
          + apply (Hfresh x); [right; exact Hx|apply in_or_app; left; exact Hin].
          + simpl in Hin. subst x. contradiction.
        - apply (Hfresh x); [right; exact Hx|apply in_or_app; right; exact Hin]. }
      { apply (Permutation_Forall (Permutation_sym Hp1)).
        apply Forall_app. split; [exact Hidx|]. constructor; [exact Ek|constructor]. }
      exists first'. split; [exact E'|]. split; [|exact Hs'].
      eapply Permutation_trans; [exact Hp'|].
      eapply Permutation_trans; [apply Permutation_app_tail; exact Hp1|].
      rewrite <- app_assoc. reflexivity.
    + assert (Hnone : Obj.array_index k = None).
      { unfold index_named in Ek. simpl in Ek.
        destruct (Obj.array_index k); [discriminate|reflexivity]. }
      rewrite (insert_named _ k (Js.VStr c) Hnone).
      replace ((map cell first ++ map cell named) ++ [(k, Js.VStr c)])%list
        with (map cell first ++ map cell (named ++ [(k, c)]))%list
        by (rewrite map_app, app_assoc; reflexivity).
      destruct (IH first (named ++ [(k, c)])%list Hnd) as (first' & E' & Hp' & Hs');
        try assumption.
      { intros x Hx Hin. rewrite map_app, app_assoc in Hin.
        apply in_app_or in Hin. destruct Hin as [Hin|[Hin|[]]].
        - apply (Hfresh x); [right; exact Hx|exact Hin].
        - simpl in Hin. subst x. contradiction. }
      { apply Forall_app. split; [exact Hnamed|]. constructor; [exact Ek|constructor]. }
      exists first'. rewrite E', <- app_assoc. split; [reflexivity|].
      split; [exact Hp'|exact Hs'].
Qed.

End EnumerationFacts.

(** X20. The order in which a row is enumerated, whatever its columns are
    named, as long as the names are all different and none is [__proto__]:
    first the columns named by array indices, in ascending order of the
    indices, then the other columns in the order of the input.  This is the
    order of the keys from which the extra column of the row is taken, and
    the order in which the cells of an appended row are joined. *)
Theorem row_enumerates_indices_first (data : Row) :
  NoDup (map fst data) ->
  ~ In "__proto__" (map fst data) ->
  exists first : Row,
    Permutation first (filter index_named data) /\
    StronglySorted ascending first /\
    Obj.keys (obj_of_row data)
      = map fst (first ++ filter (fun kv => negb (index_named kv)) data)%list /\
    verbatim data
      = Js.join "," (map snd (first ++ filter (fun kv => negb (index_named kv)) data)%list).
Proof.
  intros Hnd Hproto.
  destruct (fold_enumerates data [] [] Hnd) as (first & E & Hp & Hs);
    try constructor.
  { intros x _ []. }
  exists first. simpl in E, Hp. split; [exact Hp|]. split; [exact Hs|].
  unfold verbatim. rewrite (obj_of_plain_row data Hproto), E. rewrite <- map_app.
  unfold Obj.keys, Obj.values, join_values. rewrite !map_map. simpl.
  split; reflexivity.
Qed.

Lemma row_enumerates_indices_first_witness :
  exists first : Row,
    Permutation first [("2024", "b"); ("7", "a")] /\
    verbatim [("Name", "x"); ("2024", "b"); ("07", "c"); ("7", "a")]
      = Js.join "," (map snd (first ++ [("Name", "x"); ("07", "c")])%list).
Proof.
  destruct (row_enumerates_indices_first
              [("Name", "x"); ("2024", "b"); ("07", "c"); ("7", "a")])
    as (first & Hp & _ & _ & Hv).
  - repeat constructor; simpl; intuition discriminate.
  - simpl. intuition discriminate.
  - exists first. split; [exact Hp|exact Hv].
Defined.
